(** * Stream queue subsystem of open-langgraph-server

    A shallow embedding of
      - [src/queue/stream_queue.ts]   (BaseStreamQueue, StreamQueueManager),
      - the in-memory queue           (MemoryStreamQueue),
      - [src/storage/redis/queue.ts]  (RedisStreamQueue),
    followed by the properties of the specification that concern them.

    JavaScript objects that are mutated in place and may be reached from
    several owners (the [data] array of a memory queue, the Redis server)
    live in an explicit store that every operation threads through. *)

From Stdlib Require Import ZArith String List Bool Lia.
From stdpp Require Import base option list gmap strings.

Local Open Scope list_scope.

(* ===================================================================== *)
(** ** 1. Event messages                                                  *)
(* ===================================================================== *)

(** JSON-compatible structured data, the payload of an event. *)
#[local] Unset Elimination Schemes.
Inductive Json : Type :=
  | JNull
  | JBool (b : bool)
  | JNum (z : Z)
  | JStr (s : string)
  | JArr (xs : list Json)
  | JObj (kvs : list (string * Json)).
#[local] Set Elimination Schemes.

(** Modelled from the spec: [event_message.ts] is not part of the sources.
    An event message is a record with a discriminant string [event] and a
    [payload] the queue never inspects. *)
Record EventMessage : Type := mkEvent {
  event : string;
  payload : Json
}.

(** The test the live-tail handlers apply to [data.event]. *)
Definition is_cancel_event (e : string) : bool :=
  String.eqb e "__stream_cancel__"%string.

Definition is_terminal_event (e : string) : bool :=
  String.eqb e "__stream_end__"%string
  || String.eqb e "__stream_error__"%string
  || String.eqb e "__stream_cancel__"%string.

(** [new CancelEventMessage()], the message that [cancel()] pushes.  Its
    class is in [event_message.ts] too, so the message is a parameter of
    the development.  The handlers of [onDataReceive] call [cancel()] when
    they are given an event [__stream_cancel__], and [cancel()] hands its
    own message to the same handlers through [push]: on a memory queue
    that stores messages as they are these calls are nested, and with a
    message the handlers take for [__stream_cancel__] they do not end
    (lemma [cancel_nested_diverges] below).  The development is about the
    messages for which they do: those whose [event] the handlers' test
    does not accept. *)
Class CancelMarker : Type := {
  CancelEventMessage : EventMessage;
  CancelEventMessage_event : is_cancel_event (event CancelEventMessage) = false
}.

(** Errors surfaced by the subsystem. *)
Inductive Error : Type :=
  | CorruptMessage   (* decodeData / JSON.parse threw *)
  | QueueNotFound.   (* Error("Queue with id '...' does not exist") *)

Inductive Result (A : Type) : Type :=
  | Ok (a : A)
  | Err (e : Error).
Arguments Ok {A} a.
Arguments Err {A} e.

Definition bindR {A B} (r : Result A) (k : A -> Result B) : Result B :=
  match r with
  | Ok a => k a
  | Err e => Err e
  end.

Notation "'let*' x ':=' r 'in' k" := (bindR r (fun x => k))
  (at level 10, x name, r at level 100, k at level 200).

(** [Promise.all (xs.map f)]: every element in order, or the first failure. *)
Fixpoint mapR {A B} (f : A -> Result B) (xs : list A) : Result (list B) :=
  match xs with
  | [] => Ok []
  | x :: xs' => let* y := f x in let* ys := mapR f xs' in Ok (y :: ys)
  end.

(* ===================================================================== *)
(** ** 2. The serializer (BaseStreamQueue.encodeData / decodeData)        *)
(* ===================================================================== *)

(** [JsonPlusSerializer.js] is not part of the sources and the
    specification treats the codec as an opaque pair; it is a parameter of
    the development, together with the host's [JSON.parse], which the Redis
    queue applies to stored entries.  [None] is a thrown exception. *)
Class Serializer : Type := {
  Bytes : Type;
  dumpsTyped : EventMessage -> Bytes;
  loadsTyped : Bytes -> option EventMessage;
  JSON_parse : Bytes -> option EventMessage
}.

(** What a JavaScript array typed [EventMessage[]] really holds in this
    code: a message object, or (behind [as unknown as EventMessage]) the
    bytes the serializer produced for one. *)
Inductive Item `{Serializer} : Type :=
  | Raw (m : EventMessage)
  | Enc (b : Bytes).

Section BaseStreamQueue.
Context `{Serializer}.

(** [encodeData]: the second component of [serializer.dumpsTyped]. *)
Definition encodeData (message : EventMessage) : Bytes := dumpsTyped message.

(** [decodeData]: [serializer.loadsTyped('json', serializedMessage)]. *)
Definition decodeData (serializedMessage : Bytes) : Result EventMessage :=
  match loadsTyped serializedMessage with
  | Some m => Ok m
  | None => Err CorruptMessage
  end.

(** [decodeData] applied to an array element.  An element that is a
    message object rather than bytes is no input of the serializer. *)
Definition decodeItem (i : Item) : Result Item :=
  match i with
  | Enc b => let* m := decodeData b in Ok (Raw m)
  | Raw _ => Err CorruptMessage
  end.

(** [data.event] of an array element; bytes have no such property. *)
Definition item_event (i : Item) : option string :=
  match i with
  | Raw m => Some (event m)
  | Enc _ => None
  end.
End BaseStreamQueue.

(** The base class fields set by [constructor(id, compressMessages, ttl)]. *)
Record BaseFields : Type := {
  base_id : string;
  base_compressMessages : bool;
  base_ttl : Z
}.

Definition BaseStreamQueue_new (id : string) (compressMessages : bool) (ttl : Z)
  : BaseFields :=
  {| base_id := id; base_compressMessages := compressMessages; base_ttl := ttl |}.

(* ===================================================================== *)
(** ** 3. The live-tail generator, common to both queues                  *)
(* ===================================================================== *)

(** [onDataReceive] is an async generator.  Its closure variables
    ([queue], [pendingResolve], [isStreamEnded]) are shared with the data
    handler, the grace timers and the abort listener, which run while the
    generator is suspended.  The generator is embedded as its state between
    two suspension points, and [next()] as a function from one suspension
    point to the following one.

    The data handler is an async function with two [await]s.  A call of it
    runs up to [await this.decodeData(...)] (when the message has to be
    decoded), the rest runs when the decoding is done, and the decodings of
    several calls need not be done in the order of the calls; a call that
    reaches [await this.cancel()] runs its last statement later still.  The
    calls of a handler that wait at either [await] are part of the state of
    its generator. *)
Section LiveTail.
Context `{Serializer}.

(** Where the generator body is suspended. *)
Inductive Phase : Type :=
  | AtStart                (* created, body not entered *)
  | AtAwait                (* in [await new Promise(...)] *)
  | AtYield (next : nat)   (* in [yield item]; index of the following item *)
  | Finished.

Record Tail : Type := mkTail {
  phase : Phase;
  queue : list Item;          (* let queue: EventMessage[] *)
  pendingResolve : bool;      (* pendingResolve !== null *)
  isStreamEnded : bool;
  timers : nat;               (* grace timers (300 ms) not fired yet *)
  decoding : list Item;       (* handler calls in [await this.decodeData(item)] *)
  resuming : nat;             (* handler calls in [await this.cancel()] *)
  cursor : nat;               (* Redis: messages of the channel handed to the handler *)
  listener : option nat       (* Redis: the listener given to [subscribe] *)
}.

Definition newTail : Tail := mkTail AtStart [] false false 0 [] 0 0 None.

Definition set_phase (p : Phase) (tl : Tail) : Tail :=
  mkTail p (queue tl) (pendingResolve tl) (isStreamEnded tl) (timers tl)
         (decoding tl) (resuming tl) (cursor tl) (listener tl).
Definition set_queue (b : list Item) (tl : Tail) : Tail :=
  mkTail (phase tl) b (pendingResolve tl) (isStreamEnded tl) (timers tl)
         (decoding tl) (resuming tl) (cursor tl) (listener tl).
Definition set_pendingResolve (b : bool) (tl : Tail) : Tail :=
  mkTail (phase tl) (queue tl) b (isStreamEnded tl) (timers tl)
         (decoding tl) (resuming tl) (cursor tl) (listener tl).
Definition set_isStreamEnded (b : bool) (tl : Tail) : Tail :=
  mkTail (phase tl) (queue tl) (pendingResolve tl) b (timers tl)
         (decoding tl) (resuming tl) (cursor tl) (listener tl).
Definition set_timers (n : nat) (tl : Tail) : Tail :=
  mkTail (phase tl) (queue tl) (pendingResolve tl) (isStreamEnded tl) n
         (decoding tl) (resuming tl) (cursor tl) (listener tl).
Definition set_decoding (d : list Item) (tl : Tail) : Tail :=
  mkTail (phase tl) (queue tl) (pendingResolve tl) (isStreamEnded tl) (timers tl)
         d (resuming tl) (cursor tl) (listener tl).
Definition set_resuming (n : nat) (tl : Tail) : Tail :=
  mkTail (phase tl) (queue tl) (pendingResolve tl) (isStreamEnded tl) (timers tl)
         (decoding tl) n (cursor tl) (listener tl).
Definition set_cursor (n : nat) (tl : Tail) : Tail :=
  mkTail (phase tl) (queue tl) (pendingResolve tl) (isStreamEnded tl) (timers tl)
         (decoding tl) (resuming tl) n (listener tl).
Definition set_listener (l : option nat) (tl : Tail) : Tail :=
  mkTail (phase tl) (queue tl) (pendingResolve tl) (isStreamEnded tl) (timers tl)
         (decoding tl) (resuming tl) (cursor tl) l.

(** The body has been entered and has not reached the end of [finally]:
    the generator's handler and abort listener are registered. *)
Definition running (tl : Tail) : bool :=
  match phase tl with
  | AtAwait | AtYield _ => true
  | AtStart | Finished => false
  end.

(** What the promise returned by [next()] does. *)
Inductive NextResult : Type :=
  | Yielded (item : Item)   (* resolves with { value: item, done: false } *)
  | Returned                (* resolves with { done: true } *)
  | Pending.                (* stays unresolved: the generator is suspended *)

(** [if (pendingResolve) { pendingResolve(); pendingResolve = null; }] *)
Definition resolvePending (tl : Tail) : Tail := set_pendingResolve false tl.

(** The callback of [setTimeout(..., 300)]. *)
Definition onTimeout (tl : Tail) : Tail :=
  match timers tl with
  | O => tl
  | S n => resolvePending (set_isStreamEnded true (set_timers n tl))
  end.

(** [abortHandler]. *)
Definition abortHandler (tl : Tail) : Tail :=
  resolvePending (set_isStreamEnded true tl).

(** A call of the handler stops at [await this.decodeData(item)]. *)
Definition awaitDecode (d : Item) (tl : Tail) : Tail :=
  set_decoding (decoding tl ++ [d]) tl.

(** The handler once [data] is known, up to [this.cancel()]: buffer the
    message and, on a control event, arm the timer. *)
Definition bufferItem (d : Item) (tl : Tail) : Tail :=
  let tl1 := set_queue (queue tl ++ [d]) tl in
  match item_event d with
  | Some e => if is_terminal_event e then set_timers (S (timers tl1)) tl1 else tl1
  | None => tl1
  end.

Definition item_is_cancel (d : Item) : bool :=
  match item_event d with
  | Some e => is_cancel_event e
  | None => false
  end.

(** A call of the handler stops at [await this.cancel()]. *)
Definition awaitCancel (tl : Tail) : Tail := set_resuming (S (resuming tl)) tl.

(** A call of the handler continues after [await this.cancel()]: its last
    statement resolves the pending promise. *)
Definition afterCancel (tl : Tail) : Tail :=
  match resuming tl with
  | O => tl
  | S n => resolvePending (set_resuming n tl)
  end.

(** One turn of [while (!isStreamEnded && !aborted) {...}] from the loop
    head to the next suspension point. *)
Inductive LoopStep : Type :=
  | LoopExit
  | LoopYield (item : Item) (tl : Tail)
  | LoopAwait (tl : Tail).

Definition loopHead (aborted : bool) (tl : Tail) : LoopStep :=
  if negb (isStreamEnded tl) && negb aborted then
    match queue tl with
    | item :: _ => LoopYield item (set_phase (AtYield 1) tl)
    | [] => LoopAwait (set_phase AtAwait (set_pendingResolve true tl))
    end
  else LoopExit.

(** The indices of the generators of a list that are running. *)
Definition runningIndices (tls : list Tail) : list nat :=
  filter (fun i => running <$> tls !! i = Some true) (seq 0 (List.length tls)).
End LiveTail.

(* ===================================================================== *)
(** ** 4. MemoryStreamQueue                                               *)
(* ===================================================================== *)

Module MemoryStreamQueue.
(** The JavaScript heap of arrays: [data] fields hold a reference into it,
    so that two queue objects may share one array. *)
Abbreviation Heap := (list (list Item)) (only parsing).

Section WithSerializer.
Context `{Serializer} `{CancelMarker}.

(** [new Array]: a fresh empty array and its reference. *)
Definition alloc (h : Heap) : nat * Heap := (List.length h, h ++ [[]]).

(** [arr.push(x)] on the array behind reference [r]. *)
Definition array_push (r : nat) (x : Item) (h : Heap) : Heap :=
  alter (fun arr => arr ++ [x]) r h.

Definition array_read (r : nat) (h : Heap) : list Item :=
  default [] (h !! r).

(** A queue object.  [tails] are the generators that [onDataReceive()] has
    returned on this object, in the order of the calls.  [handlers] are the
    [handleData] functions registered for ['dataChange'] on its event
    emitter, each named by the index of its generator, in the order of
    registration, which is the order [emit] calls them in; [abortHandlers]
    are the ['abort'] listeners on [cancelSignal.signal], named likewise.
    [emitted] is the trace of the ['dataChange'] emissions and [aborted] is
    [cancelSignal.signal.aborted]. *)
Record t : Type := mk {
  id : string;
  compressMessages : bool;
  ttl : Z;
  data : nat;
  aborted : bool;
  emitted : list Item;
  handlers : list nat;
  abortHandlers : list nat;
  tails : list Tail
}.

Definition set_data (r : nat) (q : t) : t :=
  mk (id q) (compressMessages q) (ttl q) r (aborted q) (emitted q)
     (handlers q) (abortHandlers q) (tails q).
Definition set_aborted (b : bool) (q : t) : t :=
  mk (id q) (compressMessages q) (ttl q) (data q) b (emitted q)
     (handlers q) (abortHandlers q) (tails q).
Definition set_emitted (e : list Item) (q : t) : t :=
  mk (id q) (compressMessages q) (ttl q) (data q) (aborted q) e
     (handlers q) (abortHandlers q) (tails q).
Definition set_handlers (hs ahs : list nat) (q : t) : t :=
  mk (id q) (compressMessages q) (ttl q) (data q) (aborted q) (emitted q)
     hs ahs (tails q).
Definition set_tails (tls : list Tail) (q : t) : t :=
  mk (id q) (compressMessages q) (ttl q) (data q) (aborted q) (emitted q)
     (handlers q) (abortHandlers q) tls.

(** The number of ['dataChange'] handlers and of ['abort'] listeners. *)
Definition listeners (q : t) : nat := List.length (handlers q).
Definition abortListeners (q : t) : nat := List.length (abortHandlers q).

(** A function of the closure of generator [i] changes its variables. *)
Definition update_tail (i : nat) (f : Tail -> Tail) (q : t) : t :=
  set_tails (alter f i (tails q)) q.

Definition put_tail (i : nat) (tl : Tail) (q : t) : t :=
  set_tails (<[i := tl]> (tails q)) q.

(** [new MemoryStreamQueue(id, compressMessages, ttl)]: the base
    constructor, then the field initialisers [data = []] and
    [cancelSignal = new AbortController()]. *)
Definition new (id : string) (compressMessages : bool) (ttl : Z) (h : Heap)
  : t * Heap :=
  let b := BaseStreamQueue_new id compressMessages ttl in
  let '(r, h') := alloc h in
  (mk (base_id b) (base_compressMessages b) (base_ttl b) r false [] [] [] [], h').

(** [this.cancelSignal.abort(...)]: on a signal that is not aborted yet,
    the flag is set and the ['abort'] listeners are called. *)
Definition abort (q : t) : t :=
  if aborted q then q
  else foldl (fun q i => update_tail i abortHandler q)
             (set_aborted true q) (abortHandlers q).

(** [push], [emit] and [handleData] call each other, and [handleData]
    calls [cancel], which calls [push].  They are given first with the
    [cancel] that the handlers call as a parameter. *)
Section Handlers.
Variable cancel : t -> Heap -> t * Heap.

(** [handleData] from [queue.push(data)] on, in the closure of generator
    [i]: buffer [data], arm the timer on a control event, call
    [this.cancel()] on a cancel event and wait for it, and otherwise
    resolve the pending promise. *)
Definition handleData_body_with (i : nat) (d : Item) (q : t) (h : Heap)
  : t * Heap :=
  let q1 := update_tail i (bufferItem d) q in
  if item_is_cancel d then
    let '(q2, h2) := cancel q1 h in
    (update_tail i awaitCancel q2, h2)
  else (update_tail i resolvePending q1, h).

(** A call [handleData(item)] by the emitter, up to its first [await]. *)
Definition handleData_with (i : nat) (item : Item) (q : t) (h : Heap)
  : t * Heap :=
  if compressMessages q then (update_tail i (awaitDecode item) q, h)
  else handleData_body_with i item q h.

(** [this.emit('dataChange', data)]: the registered handlers are called
    one after the other, each until it returns its promise. *)
Definition emit_with (d : Item) (q : t) (h : Heap) : t * Heap :=
  foldl (fun st i => handleData_with i d st.1 st.2)
        (set_emitted (emitted q ++ [d]) q, h) (handlers q).

(** [push(item)]. *)
Definition push_with (item : EventMessage) (q : t) (h : Heap) : t * Heap :=
  let d := if compressMessages q then Enc (encodeData item) else Raw item in
  emit_with d q (array_push (data q) d h).
End Handlers.

(** [cancel()]: abort the signal, then push the cancel message.  The
    handlers that [push] calls are given [CancelEventMessage], which they
    do not take for [__stream_cancel__]: they do not call [cancel()] in
    turn, and the chain of calls ends here. *)
Definition cancel (q : t) (h : Heap) : t * Heap :=
  push_with (fun q h => (q, h)) CancelEventMessage (abort q) h.

Definition handleData_body : nat -> Item -> t -> Heap -> t * Heap :=
  handleData_body_with cancel.
Definition handleData : nat -> Item -> t -> Heap -> t * Heap :=
  handleData_with cancel.
Definition emit : Item -> t -> Heap -> t * Heap := emit_with cancel.

(** [push(item)]. *)
Definition push : EventMessage -> t -> Heap -> t * Heap := push_with cancel.

(** The same calls for any cancel message [marker], nested as the source
    nests them, without the assumption on its [event].  [fuel] bounds the
    number of calls of [cancel()] that are in progress at once; the result
    is [None] when it does not suffice. *)
Section Nested.
Variable marker : EventMessage.

Section Calls.
Variable cancel_call : t -> Heap -> option (t * Heap).

Definition handleData_body_nested (i : nat) (d : Item) (q : t) (h : Heap)
  : option (t * Heap) :=
  let q1 := update_tail i (bufferItem d) q in
  if item_is_cancel d then
    match cancel_call q1 h with
    | Some (q2, h2) => Some (update_tail i awaitCancel q2, h2)
    | None => None
    end
  else Some (update_tail i resolvePending q1, h).

Definition handleData_nested (i : nat) (item : Item) (q : t) (h : Heap)
  : option (t * Heap) :=
  if compressMessages q then Some (update_tail i (awaitDecode item) q, h)
  else handleData_body_nested i item q h.

Definition emit_nested (d : Item) (q : t) (h : Heap) : option (t * Heap) :=
  foldl (fun st i =>
           match st with
           | Some (q', h') => handleData_nested i d q' h'
           | None => None
           end)
        (Some (set_emitted (emitted q ++ [d]) q, h)) (handlers q).

Definition push_nested (item : EventMessage) (q : t) (h : Heap)
  : option (t * Heap) :=
  let d := if compressMessages q then Enc (encodeData item) else Raw item in
  emit_nested d q (array_push (data q) d h).
End Calls.

Fixpoint cancel_nested (fuel : nat) (q : t) (h : Heap) : option (t * Heap) :=
  match fuel with
  | O => None
  | S fuel' => push_nested (cancel_nested fuel') marker (abort q) h
  end.
End Nested.

(** [getAll()]. *)
Definition getAll (q : t) (h : Heap) : Result (list Item) :=
  if compressMessages q
  then mapR decodeItem (array_read (data q) h)
  else Ok (array_read (data q) h).

(** [clear()]: [this.data = []] binds a fresh array. *)
Definition clear (q : t) (h : Heap) : t * Heap :=
  let '(r, h') := alloc h in (set_data r q, h').

(** [copyToQueue(toId, ttl?)]. *)
Definition copyToQueue (toId : string) (ttl' : option Z) (q : t) (h : Heap)
  : t * Heap :=
  let d := data q in
  let '(queue, h') := new toId (compressMessages q) (default (ttl q) ttl') h in
  (set_data d queue, h').

(** *** onDataReceive *)

(** [onDataReceive()] returns a new generator; its body has not started. *)
Definition onDataReceive (q : t) : nat * t :=
  (List.length (tails q), set_tails (tails q ++ [newTail]) q).

(** The [finally] block: [this.off('dataChange', handleData)] and
    [removeEventListener('abort', abortHandler)]. *)
Definition finish (i : nat) (tl : Tail) (q : t) : NextResult * t :=
  (Returned,
   put_tail i (set_phase Finished tl)
     (set_handlers (filter (fun j => j <> i) (handlers q))
                   (filter (fun j => j <> i) (abortHandlers q)) q)).

Definition loop (i : nat) (tl : Tail) (q : t) : NextResult * t :=
  match loopHead (aborted q) tl with
  | LoopExit => finish i tl q
  | LoopYield item tl' => (Yielded item, put_tail i tl' q)
  | LoopAwait tl' => (Pending, put_tail i tl' q)
  end.

(** One call of [next()] on generator [i] of the queue; [None] when the
    queue has no such generator. *)
Definition onDataReceive_next (i : nat) (q : t) : option (NextResult * t) :=
  match tails q !! i with
  | None => None
  | Some tl =>
      Some
        match phase tl with
        | AtStart =>
            if aborted q then (Returned, put_tail i (set_phase Finished tl) q)
            else
              (* this.on('dataChange', handleData); addEventListener('abort', ...) *)
              loop i tl (set_handlers (handlers q ++ [i]) (abortHandlers q ++ [i]) q)
        | AtAwait =>
            if pendingResolve tl then (Pending, q) else loop i tl q
        | AtYield n =>
            match queue tl !! n with
            | Some item => (Yielded item, put_tail i (set_phase (AtYield (S n)) tl) q)
            | None => loop i (set_queue [] tl) q
            end
        | Finished => (Returned, q)
        end
  end.

Definition subscribed (tl : Tail) : bool := running tl.

(** The decoding awaited by the [k]-th waiting call of the handler of
    generator [i] is done: the call goes on with the decoded message, or
    ends there when [decodeData] has thrown. *)
Definition handleData_decoded (i k : nat) (q : t) (h : Heap) : t * Heap :=
  match tails q !! i with
  | None => (q, h)
  | Some tl =>
      match decoding tl !! k with
      | None => (q, h)
      | Some item =>
          let q0 := put_tail i (set_decoding (delete k (decoding tl)) tl) q in
          match decodeItem item with
          | Ok d => handleData_body i d q0 h
          | Err _ => (q0, h)
          end
      end
  end.

(** A call of the handler of generator [i] that waited for [cancel()]
    goes on to its end. *)
Definition handleData_resumed (i : nat) (q : t) : t := update_tail i afterCancel q.

(** A grace timer of generator [i] fires. *)
Definition timeout (i : nat) (q : t) : t := update_tail i onTimeout q.
End WithSerializer.
End MemoryStreamQueue.

(* ===================================================================== *)
(** ** 5. The shared store                                                *)
(* ===================================================================== *)

(** Modelled from the spec: the Redis server and the client library are
    external collaborators, described only as an ordered
    append/list-read/delete primitive, a key-expiry primitive and a
    publish/subscribe primitive.  The commands the queue issues are given
    their Redis meaning on a store without a clock: [expire] records the
    time to live of a key, and no key is ever evicted.  The listeners of
    the subscriber client are told apart: each call of [subscribe] is given
    a listener of its own. *)
Module Redis.
Section WithSerializer.
Context `{Serializer}.

Record t : Type := mk {
  lists : gmap string (list Bytes);      (* list keys *)
  expiry : gmap string Z;                (* seconds to live, per key *)
  published : gmap string (list Bytes);  (* messages sent on each channel *)
  subscribers : gmap string (list nat);  (* listeners of the subscriber client *)
  created : nat                          (* listeners created so far *)
}.

Definition empty : t := mk ∅ ∅ ∅ ∅ 0.

Definition rPush (key : string) (v : Bytes) (s : t) : t :=
  mk (<[key := default [] (lists s !! key) ++ [v]]> (lists s))
     (expiry s) (published s) (subscribers s) (created s).

Definition expire (key : string) (seconds : Z) (s : t) : t :=
  match lists s !! key with
  | Some _ => mk (lists s) (<[key := seconds]> (expiry s)) (published s)
                 (subscribers s) (created s)
  | None => s
  end.

Definition publish (channel : string) (v : Bytes) (s : t) : t :=
  mk (lists s) (expiry s)
     (<[channel := default [] (published s !! channel) ++ [v]]> (published s))
     (subscribers s) (created s).

(** [lRange key 0 -1]. *)
Definition lRange_all (key : string) (s : t) : list Bytes :=
  default [] (lists s !! key).

Definition del (key : string) (s : t) : t :=
  mk (delete key (lists s)) (delete key (expiry s)) (published s)
     (subscribers s) (created s).

Definition exists_ (key : string) (s : t) : Z :=
  match lists s !! key with
  | Some _ => 1%Z
  | None => 0%Z
  end.

(** [COPY source destination] without REPLACE: nothing happens when the
    source is missing or the destination exists. *)
Definition copy (source destination : string) (s : t) : t :=
  match lists s !! source, lists s !! destination with
  | Some l, None =>
      mk (<[destination := l]> (lists s))
         (match expiry s !! source with
          | Some e => <[destination := e]> (expiry s)
          | None => expiry s
          end)
         (published s) (subscribers s) (created s)
  | _, _ => s
  end.

(** [subscribe(channel, listener)] with a new function as [listener]. *)
Definition subscribe (channel : string) (s : t) : nat * t :=
  (created s,
   mk (lists s) (expiry s) (published s)
      (<[channel := default [] (subscribers s !! channel) ++ [created s]]>
         (subscribers s))
      (S (created s))).

(** [unsubscribe(channel)] drops every listener of the channel. *)
Definition unsubscribe (channel : string) (s : t) : t :=
  mk (lists s) (expiry s) (published s) (delete channel (subscribers s))
     (created s).

(** The listeners the subscriber client calls for a message of [channel]. *)
Definition listening (channel : string) (s : t) : list nat :=
  default [] (subscribers s !! channel).
End WithSerializer.
End Redis.

(* ===================================================================== *)
(** ** 6. RedisStreamQueue                                                *)
(* ===================================================================== *)

Module RedisStreamQueue.
Section WithSerializer.
Context `{Serializer} `{CancelMarker}.

(** [static isQueueExist(id)]. *)
Definition isQueueExist (id : string) (s : Redis.t) : bool :=
  (0 <? Redis.exists_ ("queue:" +:+ id) s)%Z.

Record t : Type := mk {
  id : string;
  compressMessages : bool;
  ttl : Z;
  queueKey : string;
  channelKey : string;
  isConnected : bool;
  aborted : bool;              (* cancelSignal.signal.aborted *)
  emitted : list Bytes;        (* 'dataChange' emissions of the local emitter *)
  abortListeners : nat
}.

Definition set_aborted (b : bool) (q : t) : t :=
  mk (id q) (compressMessages q) (ttl q) (queueKey q) (channelKey q)
     (isConnected q) b (emitted q) (abortListeners q).
Definition set_emitted (e : list Bytes) (q : t) : t :=
  mk (id q) (compressMessages q) (ttl q) (queueKey q) (channelKey q)
     (isConnected q) (aborted q) e (abortListeners q).
Definition set_abortListeners (n : nat) (q : t) : t :=
  mk (id q) (compressMessages q) (ttl q) (queueKey q) (channelKey q)
     (isConnected q) (aborted q) (emitted q) n.

(** The call [super(id, true, ttl)] of the constructor: what the base
    class receives, whatever [compressMessages] the constructor was given. *)
Definition super_call (id : string) (compressMessages : bool) (ttl : Z)
  : BaseFields :=
  BaseStreamQueue_new id true ttl.

(** [new RedisStreamQueue(id, compressMessages, ttl)].  The parameter
    properties [readonly id], [readonly compressMessages], [readonly ttl]
    are assigned to [this] once [super(...)] has returned, over the fields
    the base class has set. *)
Definition new (id : string) (compressMessages : bool) (ttl : Z) : t :=
  let b := super_call id compressMessages ttl in
  let b := {| base_id := id;
              base_compressMessages := compressMessages;
              base_ttl := ttl |} in
  mk (base_id b) (base_compressMessages b) (base_ttl b)
     ("queue:" +:+ base_id b) ("channel:" +:+ base_id b)
     true false [] 0.

Definition emit (d : Bytes) (q : t) : t := set_emitted (emitted q ++ [d]) q.

(** [push(item)]. *)
Definition push (item : EventMessage) (q : t) (s : Redis.t) : t * Redis.t :=
  let data := encodeData item in
  let serializedData := data in                       (* Buffer.from(data) *)
  let s := Redis.rPush (queueKey q) serializedData s in
  let s := Redis.expire (queueKey q) (ttl q) s in
  let s := Redis.publish (channelKey q) serializedData s in
  (emit data q, s).

Definition parseJSON (b : Bytes) : Result EventMessage :=
  match JSON_parse b with
  | Some m => Ok m
  | None => Err CorruptMessage
  end.

(** [getAll()]. *)
Definition getAll (q : t) (s : Redis.t) : Result (list EventMessage) :=
  let data := Redis.lRange_all (queueKey q) s in
  match data with
  | [] => Ok []
  | _ :: _ =>
      if compressMessages q then mapR decodeData data
      else mapR parseJSON data
  end.

(** [clear()]. *)
Definition clear (q : t) (s : Redis.t) : t * Redis.t :=
  if isConnected q then (q, Redis.del (queueKey q) s) else (q, s).

(** [cancel()]. *)
Definition cancel (q : t) (s : Redis.t) : t * Redis.t :=
  push CancelEventMessage (set_aborted true q) s.

(** [copyToQueue(toId, ttl?)]. *)
Definition copyToQueue (toId : string) (ttl' : option Z) (q : t) (s : Redis.t)
  : t * Redis.t :=
  let queue := new toId (compressMessages q) (default (ttl q) ttl') in
  let s := Redis.copy (queueKey q) (queueKey queue) s in
  let s := Redis.expire (queueKey queue) (default (ttl q) ttl') s in
  (queue, s).

(** *** onDataReceive *)

(** The [finally] block. *)
Definition finish (q : t) (s : Redis.t) (tl : Tail)
  : NextResult * t * Redis.t * Tail :=
  (Returned,
   set_abortListeners (pred (abortListeners q)) q,
   Redis.unsubscribe (channelKey q) s,
   set_phase Finished tl).

Definition loop (q : t) (s : Redis.t) (tl : Tail)
  : NextResult * t * Redis.t * Tail :=
  match loopHead (aborted q) tl with
  | LoopExit => finish q s tl
  | LoopYield item tl' => (Yielded item, q, s, tl')
  | LoopAwait tl' => (Pending, q, s, tl')
  end.

(** One call of [next()] on a generator of the queue.  The messages a
    listener is called for are those published from its subscription
    on. *)
Definition onDataReceive_next (q : t) (s : Redis.t) (tl : Tail)
  : NextResult * t * Redis.t * Tail :=
  match phase tl with
  | AtStart =>
      if aborted q then (Returned, q, s, set_phase Finished tl)
      else
        let '(l, s') := Redis.subscribe (channelKey q) s in
        let tl' := set_listener (Some l)
                     (set_cursor
                        (List.length (default [] (Redis.published s !! channelKey q)))
                        tl) in
        let q' := set_abortListeners (S (abortListeners q)) q in
        loop q' s' tl'
  | AtAwait =>
      if pendingResolve tl then (Pending, q, s, tl) else loop q s tl
  | AtYield i =>
      match queue tl !! i with
      | Some item => (Yielded item, q, s, set_phase (AtYield (S i)) tl)
      | None => loop q s (set_queue [] tl)
      end
  | Finished => (Returned, q, s, tl)
  end.

(** The listener of the generator is one the subscriber client calls for
    the channel of the queue. *)
Definition subscribed (q : t) (s : Redis.t) (tl : Tail) : bool :=
  match listener tl with
  | Some l => bool_decide (l ∈ Redis.listening (channelKey q) s)
  | None => false
  end.

(** The subscriber client calls the listener of the generator with the
    next message of the channel: [handleMessage(message)] runs up to
    [await this.decodeData(message)]. *)
Definition deliver (q : t) (s : Redis.t) (tl : Tail) : Tail :=
  if subscribed q s tl then
    match default [] (Redis.published s !! channelKey q) !! cursor tl with
    | None => tl
    | Some message => awaitDecode (Enc message) (set_cursor (S (cursor tl)) tl)
    end
  else tl.

(** The decoding awaited by the [k]-th waiting call of [handleMessage] is
    done.  On a cancel event the call runs [this.cancel()], whose
    [abort()] calls the [abortHandler] of this generator if the signal was
    not aborted and the generator has its listener on the signal. *)
Definition handleMessage (k : nat) (q : t) (s : Redis.t) (tl : Tail)
  : t * Redis.t * Tail :=
  match decoding tl !! k with
  | None => (q, s, tl)
  | Some item =>
      let tl0 := set_decoding (delete k (decoding tl)) tl in
      match decodeItem item with
      | Err _ => (q, s, tl0)
      | Ok d =>
          let tl1 := bufferItem d tl0 in
          if item_is_cancel d then
            let '(q', s') := cancel q s in
            let tl2 := if aborted q || negb (running tl1) then tl1
                       else abortHandler tl1 in
            (q', s', awaitCancel tl2)
          else (q, s, resolvePending tl1)
      end
  end.
End WithSerializer.
End RedisStreamQueue.

(* ===================================================================== *)
(** ** 7. StreamQueueManager                                              *)
(* ===================================================================== *)

(** [BaseStreamQueueInterface] together with [QueueConstructor<Q>]: what the
    manager needs of a queue class.  [W] is the store the queues of the
    class live in; [q_isQueueExist] is the optional static method. *)
Class StreamQueueInterface `{Serializer} (Q W : Type) : Type := {
  q_new : string -> bool -> Z -> W -> Q * W;
  q_isQueueExist : option (string -> W -> bool);
  q_push : EventMessage -> Q -> W -> Q * W;
  q_getAll : Q -> W -> Result (list Item);
  q_clear : Q -> W -> Q * W;
  q_cancel : Q -> W -> Q * W;
  q_copyToQueue : string -> option Z -> Q -> W -> Q * W
}.

#[export] Instance MemoryStreamQueue_interface `{Serializer} `{CancelMarker}
  : StreamQueueInterface MemoryStreamQueue.t MemoryStreamQueue.Heap := {
  q_new := MemoryStreamQueue.new;
  q_isQueueExist := None;
  q_push := MemoryStreamQueue.push;
  q_getAll := MemoryStreamQueue.getAll;
  q_clear := MemoryStreamQueue.clear;
  q_cancel := MemoryStreamQueue.cancel;
  q_copyToQueue := MemoryStreamQueue.copyToQueue
}.

#[export] Instance RedisStreamQueue_interface `{Serializer} `{CancelMarker}
  : StreamQueueInterface RedisStreamQueue.t Redis.t := {
  q_new := fun id c ttl s => (RedisStreamQueue.new id c ttl, s);
  q_isQueueExist := Some RedisStreamQueue.isQueueExist;
  q_push := RedisStreamQueue.push;
  q_getAll := fun q s => let* ms := RedisStreamQueue.getAll q s in Ok (map Raw ms);
  q_clear := RedisStreamQueue.clear;
  q_cancel := RedisStreamQueue.cancel;
  q_copyToQueue := RedisStreamQueue.copyToQueue
}.

Module StreamQueueManager.
Section Manager.
Context `{Serializer} {Q W : Type} `{!StreamQueueInterface Q W}.

(** [queues] is the registry; [removals] are the ids whose deletion a
    [setTimeout(..., 500)] of [removeQueue] has scheduled and not run. *)
Record t : Type := mk {
  queues : gmap string Q;
  defaultCompressMessages : bool;
  removals : list string
}.

Definition set_queues (qs : gmap string Q) (m : t) : t :=
  mk qs (defaultCompressMessages m) (removals m).

(** [new StreamQueueManager(queueConstructor, options)]. *)
Definition new (defaultCompress : option bool) : t :=
  mk ∅ (default true defaultCompress) [].

(** [createQueue(id, ttl = 300)]. *)
Definition createQueue (id : string) (ttl : option Z) (m : t) (w : W)
  : Q * t * W :=
  let '(q, w') := q_new id (defaultCompressMessages m) (default 300%Z ttl) w in
  (q, set_queues (<[id := q]> (queues m)) m, w').

(** [this.queueConstructor?.isQueueExist?.(id)] as a condition. *)
Definition backendExists (id : string) (w : W) : bool :=
  match q_isQueueExist with
  | Some isQueueExist => isQueueExist id w
  | None => false
  end.

(** [getQueue(id)]. *)
Definition getQueue (id : string) (m : t) (w : W) : Result (Q * t * W) :=
  match queues m !! id with
  | Some queue => Ok (queue, m, w)
  | None =>
      if backendExists id w then Ok (createQueue id None m w)
      else Err QueueNotFound
  end.

(** [removeQueue(id)] only arms the timer. *)
Definition removeQueue (id : string) (m : t) : t :=
  mk (queues m) (defaultCompressMessages m) (removals m ++ [id]).

(** The timer callback: [this.queues.delete(id)]. *)
Definition removeQueue_timeout (m : t) : t :=
  match removals m with
  | [] => m
  | id :: rest => mk (delete id (queues m)) (defaultCompressMessages m) rest
  end.

(** [cancelQueue(id)]. *)
Definition cancelQueue (id : string) (m : t) (w : W) : t * W :=
  match queues m !! id with
  | Some queue =>
      let '(queue', w') := q_cancel queue w in
      (removeQueue id (set_queues (<[id := queue']> (queues m)) m), w')
  | None => (m, w)
  end.

(** [pushToQueue(id, item)]. *)
Definition pushToQueue (id : string) (item : EventMessage) (m : t) (w : W)
  : Result (t * W) :=
  let* r := getQueue id m w in
  let '(queue, m', w') := r in
  let '(queue', w'') := q_push item queue w' in
  Ok (set_queues (<[id := queue']> (queues m')) m', w'').

(** [getQueueData(id)]. *)
Definition getQueueData (id : string) (m : t) (w : W) : Result (list Item) :=
  match queues m !! id with
  | None => Err QueueNotFound
  | Some queue => q_getAll queue w
  end.

(** [clearQueue(id)]. *)
Definition clearQueue (id : string) (m : t) (w : W) : t * W :=
  match queues m !! id with
  | Some queue =>
      let '(queue', w') := q_clear queue w in
      (set_queues (<[id := queue']> (queues m)) m, w')
  | None => (m, w)
  end.

(** [getAllQueueIds()]. *)
Definition getAllQueueIds (m : t) : list string :=
  (map_to_list (queues m)).*1.

(** [copyQueue(fromId, toId, ttl?)]. *)
Definition copyQueue (fromId toId : string) (ttl : option Z) (m : t) (w : W)
  : Result (Q * t * W) :=
  let* r := getQueue fromId m w in
  let '(sourceQueue, m', w') := r in
  let '(queue, w'') := q_copyToQueue toId ttl sourceQueue w' in
  Ok (queue, set_queues (<[toId := queue]> (queues m')) m', w'').
End Manager.
End StreamQueueManager.

(* ===================================================================== *)
(** ** 8. A serializer and a cancel message to run the model on           *)
(* ===================================================================== *)

(** Byte strings, up to what [loadsTyped] and [JSON.parse] can tell apart:
    the JSON text of a message, or bytes that are not JSON. *)
Inductive Wire : Type :=
  | JsonText (m : EventMessage)
  | Malformed.

(** [JSON.parse] accepts JSON text and throws a SyntaxError on the rest. *)
Definition Wire_JSON_parse (b : Wire) : option EventMessage :=
  match b with
  | JsonText m => Some m
  | Malformed => None
  end.

(** A serializer that writes plain JSON text. *)
Definition jsonSerializer : Serializer := {|
  Bytes := Wire;
  dumpsTyped := JsonText;
  loadsTyped := Wire_JSON_parse;
  JSON_parse := Wire_JSON_parse
|}.

(** A cancel message with a discriminant of its own. *)
Definition systemCancel : CancelMarker := {|
  CancelEventMessage := {| event := "__system_cancel__"%string; payload := JNull |};
  CancelEventMessage_event := eq_refl
|}.

Definition token (text : string) : EventMessage :=
  {| event := "token"%string; payload := JStr text |}.
Definition streamEnd : EventMessage :=
  {| event := "__stream_end__"%string; payload := JNull |}.
(** The [__stream_cancel__] control event, as a producer may push it. *)
Definition streamCancel : EventMessage :=
  {| event := "__stream_cancel__"%string; payload := JNull |}.

(* ===================================================================== *)
(** ** 9. One queue, its store and its live-tail consumers                *)
(* ===================================================================== *)

(** What can happen to a queue within one process: a call of one of its
    methods; a consumer obtaining a generator or calling [next()] on it;
    and, for the [i]-th generator, the subscriber client calling its
    listener with the next message of the channel ([Deliver], Redis queue
    only: the emitter of a memory queue calls the handlers inside [push]),
    the decoding awaited by the [k]-th waiting call of its handler being
    done ([HandleData]), a call of its handler going on after
    [await this.cancel()] ([Resume]), and a grace timer firing. *)
Inductive Action : Type :=
  | Push (item : EventMessage)
  | GetAll
  | Clear
  | Cancel
  | CopyToQueue (toId : string) (ttl : option Z)
  | OnDataReceive
  | Next (i : nat)
  | Deliver (i : nat)
  | HandleData (i k : nat)
  | Resume (i : nat)
  | Timeout (i : nat).

(** The last entry of a log is a terminal control event. *)
Definition endsInTerminal (events : list (option string)) : bool :=
  match last events with
  | Some (Some e) => is_terminal_event e
  | _ => false
  end.

Module MemorySystem.
Section WithSerializer.
Context `{Serializer} `{CancelMarker}.

Record t : Type := mk {
  q : MemoryStreamQueue.t;
  heap : MemoryStreamQueue.Heap
}.

Definition tails (s : t) : list Tail := MemoryStreamQueue.tails (q s).

Definition init (id : string) (compressMessages : bool) (ttl : Z) : t :=
  let '(q0, h0) := MemoryStreamQueue.new id compressMessages ttl [] in
  mk q0 h0.

Definition step (a : Action) (s : t) : t :=
  match a with
  | Push item =>
      let '(q', h') := MemoryStreamQueue.push item (q s) (heap s) in mk q' h'
  | GetAll => s
  | Clear =>
      let '(q', h') := MemoryStreamQueue.clear (q s) (heap s) in mk q' h'
  | Cancel =>
      let '(q', h') := MemoryStreamQueue.cancel (q s) (heap s) in mk q' h'
  | CopyToQueue toId ttl =>
      let '(_, h') := MemoryStreamQueue.copyToQueue toId ttl (q s) (heap s) in
      mk (q s) h'
  | OnDataReceive => mk (MemoryStreamQueue.onDataReceive (q s)).2 (heap s)
  | Next i =>
      match MemoryStreamQueue.onDataReceive_next i (q s) with
      | Some (_, q') => mk q' (heap s)
      | None => s
      end
  | Deliver _ => s
  | HandleData i k =>
      let '(q', h') := MemoryStreamQueue.handleData_decoded i k (q s) (heap s) in
      mk q' h'
  | Resume i => mk (MemoryStreamQueue.handleData_resumed i (q s)) (heap s)
  | Timeout i => mk (MemoryStreamQueue.timeout i (q s)) (heap s)
  end.

Definition run (acts : list Action) (s : t) : t :=
  foldl (fun s a => step a s) s acts.

(** The array behind [this.data]. *)
Definition stored (s : t) : list Item :=
  MemoryStreamQueue.array_read (MemoryStreamQueue.data (q s)) (heap s).

(** The log as [getAll()] reads it. *)
Definition log (s : t) : Result (list Item) :=
  MemoryStreamQueue.getAll (q s) (heap s).

Definition signalSet (s : t) : bool := MemoryStreamQueue.aborted (q s).

(** A [__stream_cancel__] event is in the log. *)
Definition cancelLogged (s : t) : bool :=
  match log s with
  | Ok items => existsb item_is_cancel items
  | Err _ => false
  end.

(** The log ends in [__stream_end__], [__stream_error__] or
    [__stream_cancel__]. *)
Definition logTerminated (s : t) : bool :=
  match log s with
  | Ok items => endsInTerminal (map item_event items)
  | Err _ => false
  end.

(** What [next()] on the [i]-th generator would answer in state [s]. *)
Definition nextResult (i : nat) (s : t) : option NextResult :=
  fst <$> MemoryStreamQueue.onDataReceive_next i (q s).

(** The [data] field of the queue object refers to an array of the heap. *)
Definition dataValid (s : t) : Prop :=
  (MemoryStreamQueue.data (q s) < List.length (heap s))%nat.
End WithSerializer.
End MemorySystem.

Module RedisSystem.
Section WithSerializer.
Context `{Serializer} `{CancelMarker}.

Record t : Type := mk {
  q : RedisStreamQueue.t;
  store : Redis.t;
  tails : list Tail
}.

Definition init (id : string) (compressMessages : bool) (ttl : Z) : t :=
  mk (RedisStreamQueue.new id compressMessages ttl) Redis.empty [].

(** The dispatch of the ['abort'] event: it happens at the first
    [abort()] only and runs the [abortHandler] of each generator that has
    added its listener. *)
Definition dispatchAbort (before : bool) (tls : list Tail) : list Tail :=
  if before then tls
  else map (fun tl => if running tl then abortHandler tl else tl) tls.

Definition step (a : Action) (s : t) : t :=
  match a with
  | Push item =>
      let '(q', r') := RedisStreamQueue.push item (q s) (store s) in
      mk q' r' (tails s)
  | GetAll => s
  | Clear =>
      let '(q', r') := RedisStreamQueue.clear (q s) (store s) in
      mk q' r' (tails s)
  | Cancel =>
      let '(q', r') := RedisStreamQueue.cancel (q s) (store s) in
      mk q' r' (dispatchAbort (RedisStreamQueue.aborted (q s)) (tails s))
  | CopyToQueue toId ttl =>
      let '(_, r') := RedisStreamQueue.copyToQueue toId ttl (q s) (store s) in
      mk (q s) r' (tails s)
  | OnDataReceive => mk (q s) (store s) (tails s ++ [newTail])
  | Next i =>
      match tails s !! i with
      | Some tl =>
          let '(_, q', r', tl') :=
            RedisStreamQueue.onDataReceive_next (q s) (store s) tl in
          mk q' r' (<[i := tl']> (tails s))
      | None => s
      end
  | Deliver i =>
      mk (q s) (store s) (alter (RedisStreamQueue.deliver (q s) (store s)) i (tails s))
  | HandleData i k =>
      match tails s !! i with
      | Some tl =>
          let '(q', r', tl') := RedisStreamQueue.handleMessage k (q s) (store s) tl in
          let others :=
            if RedisStreamQueue.aborted q'
            then dispatchAbort (RedisStreamQueue.aborted (q s)) (tails s)
            else tails s in
          mk q' r' (<[i := tl']> others)
      | None => s
      end
  | Resume i => mk (q s) (store s) (alter afterCancel i (tails s))
  | Timeout i => mk (q s) (store s) (alter onTimeout i (tails s))
  end.

Definition run (acts : list Action) (s : t) : t :=
  foldl (fun s a => step a s) s acts.

Definition log (s : t) : Result (list EventMessage) :=
  RedisStreamQueue.getAll (q s) (store s).

Definition signalSet (s : t) : bool := RedisStreamQueue.aborted (q s).

Definition logTerminated (s : t) : bool :=
  match log s with
  | Ok ms => endsInTerminal (map (fun m => Some (event m)) ms)
  | Err _ => false
  end.

Definition nextResult (i : nat) (s : t) : option NextResult :=
  match tails s !! i with
  | Some tl =>
      Some (RedisStreamQueue.onDataReceive_next (q s) (store s) tl).1.1.1
  | None => None
  end.
End WithSerializer.
End RedisSystem.

(* ===================================================================== *)
(** ** 10. Scenarios of the specification                                 *)
(* ===================================================================== *)

Section Scenarios.
Context `{Serializer} `{CancelMarker}.

(** Push [a], [b], [c] to a new queue [fromId], copy it to [toId], push [d]
    to the source and [e] to the copy, and read both with [getAll()]. *)
Definition memoryCopyScenario (compressMessages : bool) (fromId toId : string)
    (a b c d e : EventMessage) : Result (list Item) * Result (list Item) :=
  let '(src, h) := MemoryStreamQueue.new fromId compressMessages 300%Z [] in
  let '(src, h) := MemoryStreamQueue.push a src h in
  let '(src, h) := MemoryStreamQueue.push b src h in
  let '(src, h) := MemoryStreamQueue.push c src h in
  let '(cpy, h) := MemoryStreamQueue.copyToQueue toId None src h in
  let '(src, h) := MemoryStreamQueue.push d src h in
  let '(cpy, h) := MemoryStreamQueue.push e cpy h in
  (MemoryStreamQueue.getAll src h, MemoryStreamQueue.getAll cpy h).

Definition redisCopyScenario (compressMessages : bool) (fromId toId : string)
    (a b c d e : EventMessage)
    : Result (list EventMessage) * Result (list EventMessage) :=
  let src := RedisStreamQueue.new fromId compressMessages 300%Z in
  let s := Redis.empty in
  let '(src, s) := RedisStreamQueue.push a src s in
  let '(src, s) := RedisStreamQueue.push b src s in
  let '(src, s) := RedisStreamQueue.push c src s in
  let '(cpy, s) := RedisStreamQueue.copyToQueue toId None src s in
  let '(src, s) := RedisStreamQueue.push d src s in
  let '(cpy, s) := RedisStreamQueue.push e cpy s in
  (RedisStreamQueue.getAll src s, RedisStreamQueue.getAll cpy s).


(** What [push] stores for [item] in a memory queue. *)
Definition memoryStored (compressMessages : bool) (item : EventMessage) : Item :=
  if compressMessages then Enc (encodeData item) else Raw item.

Definition redisPushAll (items : list EventMessage)
    (q : RedisStreamQueue.t) (s : Redis.t) : RedisStreamQueue.t * Redis.t :=
  foldl (fun st item => RedisStreamQueue.push item st.1 st.2) (q, s) items.
End Scenarios.

(* ===================================================================== *)
(** ** 11. Sequences of operations and consumers                          *)
(* ===================================================================== *)

(** An action other than a handler going on with a decoded message, which
    is where it may call [cancel()]. *)
Definition notHandler (a : Action) : bool :=
  match a with
  | HandleData _ _ => false
  | _ => true
  end.

(** An action that does not push a [__stream_cancel__] event. *)
Definition noCancelEvent (a : Action) : bool :=
  match a with
  | Push item => negb (is_cancel_event (event item))
  | _ => true
  end.

(** The log as a plain list of messages: [push] appends its item,
    [cancel()] appends the cancel message, [clear()] empties the log, and
    nothing else touches it.  This is the reference the queues are compared
    with. *)
Definition abstractLog `{CancelMarker} (acts : list Action)
    (log : list EventMessage) : list EventMessage :=
  foldl (fun log a =>
           match a with
           | Push item => log ++ [item]
           | Cancel => log ++ [CancelEventMessage]
           | Clear => []
           | _ => log
           end) log acts.

(** A Redis queue with key [key] and flag [c] whose list holds the encoded
    messages [L]. *)
Definition redisLogIs `{Serializer} `{CancelMarker} (c : bool) (key : string)
    (L : list EventMessage) (s : RedisSystem.t) : Prop :=
  RedisStreamQueue.queueKey (RedisSystem.q s) = key
  /\ RedisStreamQueue.compressMessages (RedisSystem.q s) = c
  /\ RedisStreamQueue.isConnected (RedisSystem.q s) = true
  /\ Redis.lRange_all key (RedisSystem.store s) = map encodeData L.

(** A generator that is not blocked: if it is in its [await], the promise
    it awaits has been resolved. *)
Definition released `{Serializer} (tl : Tail) : Prop :=
  phase tl = AtAwait -> pendingResolve tl = false.

(** What the handlers, the timers and the abort listener may do to the
    variables of a generator: they leave it where it is suspended and do
    not make it wait. *)
Definition tailStep `{Serializer} (tl tl' : Tail) : Prop :=
  phase tl' = phase tl
  /\ (pendingResolve tl' = true -> pendingResolve tl = true).

(** What [push], [cancel] and the handlers may do to a queue object: its
    fields, its registered handlers and the suspension points of its
    generators stay, and the signal is not reset. *)
Definition sameObject `{Serializer} (q q' : MemoryStreamQueue.t) : Prop :=
  MemoryStreamQueue.id q' = MemoryStreamQueue.id q
  /\ MemoryStreamQueue.compressMessages q' = MemoryStreamQueue.compressMessages q
  /\ MemoryStreamQueue.ttl q' = MemoryStreamQueue.ttl q
  /\ MemoryStreamQueue.data q' = MemoryStreamQueue.data q
  /\ MemoryStreamQueue.handlers q' = MemoryStreamQueue.handlers q
  /\ MemoryStreamQueue.abortHandlers q' = MemoryStreamQueue.abortHandlers q
  /\ (MemoryStreamQueue.aborted q = true -> MemoryStreamQueue.aborted q' = true)
  /\ Forall2 tailStep (MemoryStreamQueue.tails q) (MemoryStreamQueue.tails q').

(** The array [r] of [h'] is the one of [h] with entries appended, and the
    other arrays are the same. *)
Definition appended `{Serializer} (r : nat) (h h' : MemoryStreamQueue.Heap)
  : Prop :=
  exists added : list Item, h' = alter (fun arr => arr ++ added) r h.

(** The functions registered are those of the running generators, each
    once. *)
Definition registered `{Serializer} (hs : list nat) (tls : list Tail) : Prop :=
  NoDup hs /\ forall i, i ∈ hs <-> running <$> tls !! i = Some true.

(** The handlers on the emitter and the listeners on the signal are those
    of the running generators, and no generator waits once the signal is
    set. *)
Definition MemoryInv `{Serializer} (q : MemoryStreamQueue.t) : Prop :=
  registered (MemoryStreamQueue.handlers q) (MemoryStreamQueue.tails q)
  /\ registered (MemoryStreamQueue.abortHandlers q) (MemoryStreamQueue.tails q)
  /\ (MemoryStreamQueue.aborted q = true ->
      Forall released (MemoryStreamQueue.tails q)).

(** What a function put in the place of [cancel] has to be like. *)
Definition cancelLike `{Serializer}
    (k : MemoryStreamQueue.t -> MemoryStreamQueue.Heap
         -> MemoryStreamQueue.t * MemoryStreamQueue.Heap) : Prop :=
  forall q h,
    sameObject q (k q h).1
    /\ appended (MemoryStreamQueue.data q) h (k q h).2
    /\ (MemoryInv q -> MemoryInv (k q h).1).

(** What a handler does with a message it is called with when the message
    is no cancel event: on a queue that decodes, the call waits for the
    decoding; otherwise the message is buffered and the pending promise
    resolved. *)
Definition receive `{Serializer} (compressMessages : bool) (d : Item) (tl : Tail)
  : Tail :=
  if compressMessages then awaitDecode d tl
  else resolvePending (bufferItem d tl).

(** The message that the [k]-th call of the handler of a generator which
    waits for [decodeData] goes on with, if the decoding succeeds. *)
Definition decodedAt `{Serializer} (k : nat) (tl : Tail) : option Item :=
  match decoding tl !! k with
  | Some item =>
      match decodeItem item with
      | Ok d => Some d
      | Err _ => None
      end
  | None => None
  end.

(** The call is given a [__stream_cancel__] event. *)
Definition cancelEventAt `{Serializer} (k : nat) (tl : option Tail) : bool :=
  match tl ≫= decodedAt k with
  | Some d => item_is_cancel d
  | None => false
  end.

(** [item] is what a handler makes of an entry of [trace] at position [n]
    or later: the entry itself, or the message decoded from it. *)
Definition handedFrom `{Serializer} (n : nat) (trace : list Item) (item : Item)
  : Prop :=
  exists d, d ∈ drop n trace /\ (item = d \/ decodeItem d = Ok item).

(** Everything a generator holds, in its buffer or in the calls of its
    handler that wait for the decoding, comes from the entries of [trace]
    at position [n] or later. *)
Definition receivedFrom `{Serializer} (n : nat) (trace : list Item) (tl : Tail)
  : Prop :=
  (forall item, item ∈ queue tl -> handedFrom n trace item)
  /\ (forall d, d ∈ decoding tl -> d ∈ drop n trace).

(** Generator [i] of a memory queue holds only what the queue has emitted
    from its [n]-th emission on. *)
Definition memoryReceivedFrom `{Serializer} (n i : nat) (q : MemoryStreamQueue.t)
  : Prop :=
  (n <= List.length (MemoryStreamQueue.emitted q))%nat
  /\ exists tl, MemoryStreamQueue.tails q !! i = Some tl
                /\ receivedFrom n (MemoryStreamQueue.emitted q) tl.

(** The messages published so far on the channel of a Redis queue. *)
Definition channelMessages `{Serializer} `{CancelMarker} (r : RedisSystem.t)
  : list Item :=
  Enc <$> default [] (Redis.published (RedisSystem.store r)
                      !! RedisStreamQueue.channelKey (RedisSystem.q r)).

(** A generator of a Redis queue that has left its start, whose listener,
    if it has given one to the subscriber client, is called for the
    messages of the channel from the [n]-th on, and that holds only what
    comes from these. *)
Definition listensFrom `{Serializer} (n : nat) (trace : list Item) (tl : Tail)
  : Prop :=
  phase tl <> AtStart
  /\ (listener tl = None \/ (n <= cursor tl)%nat)
  /\ receivedFrom n trace tl.

Definition redisReceivedFrom `{Serializer} `{CancelMarker} (n i : nat)
    (r : RedisSystem.t) : Prop :=
  exists tl, RedisSystem.tails r !! i = Some tl
             /\ listensFrom n (channelMessages r) tl.

(** What the timers, the abort listener and the ends of the handler do to
    a generator: they leave alone its buffer, the waiting calls, the place
    where it is suspended and its position in the channel. *)
Definition keepsContents `{Serializer} (f : Tail -> Tail) : Prop :=
  forall tl, queue (f tl) = queue tl /\ decoding (f tl) = decoding tl
             /\ phase (f tl) = phase tl /\ cursor (f tl) = cursor tl
             /\ listener (f tl) = listener tl.

(** What a function put in the place of [cancel] has to be like for
    generator [i] to go on holding only what was emitted from the [n]-th
    emission on: it only adds to the trace of emissions. *)
Definition emitLike `{Serializer} (n i : nat)
    (k : MemoryStreamQueue.t -> MemoryStreamQueue.Heap
         -> MemoryStreamQueue.t * MemoryStreamQueue.Heap) : Prop :=
  forall q h,
    (exists added,
       MemoryStreamQueue.emitted (k q h).1 = MemoryStreamQueue.emitted q ++ added)
    /\ (memoryReceivedFrom n i q -> memoryReceivedFrom n i (k q h).1).

(** An entry that no handler takes for a [__stream_cancel__] event once it
    has decoded it. *)
Definition harmless `{Serializer} (d : Item) : Prop :=
  forall d', decodeItem d = Ok d' -> item_is_cancel d' = false.

(** No call of a handler of the queue waits for the decoding of a
    [__stream_cancel__] event. *)
Definition noCancelWaiting `{Serializer} (q : MemoryStreamQueue.t) : Prop :=
  Forall (fun tl => Forall harmless (decoding tl)) (MemoryStreamQueue.tails q).

Module MemoryConsumer.
Section WithSerializer.
Context `{Serializer}.

(** The generators that have their handler on the emitter. *)
Definition countSubscribed (tls : list Tail) : nat :=
  List.length (List.filter MemoryStreamQueue.subscribed tls).

(** [for await (const item of generator)] on generator [i] of a queue: the
    consumer calls [next()] as long as items are yielded.  The answer that
    stops it is returned with the items; [None] when [fuel] calls were not
    enough or the queue has no such generator. *)
Fixpoint pull (fuel : nat) (i : nat) (q : MemoryStreamQueue.t)
  : list Item * option NextResult * MemoryStreamQueue.t :=
  match fuel with
  | O => ([], None, q)
  | S fuel' =>
      match MemoryStreamQueue.onDataReceive_next i q with
      | Some (Yielded item, q') =>
          let '(items, r, q'') := pull fuel' i q' in
          (item :: items, r, q'')
      | Some (r, q') => ([], Some r, q')
      | None => ([], None, q)
      end
  end.
End WithSerializer.
End MemoryConsumer.

(** The messages pushed by a sequence of actions, in order. *)
Definition pushed (acts : list Action) : list EventMessage :=
  omap (fun a => match a with Push m => Some m | _ => None end) acts.

(** A push of a message that is no [__stream_cancel__] event, or a handler
    going on after the decoding. *)
Definition pushOrHandler (a : Action) : bool :=
  match a with
  | Push m => negb (is_cancel_event (event m))
  | HandleData _ _ => true
  | _ => false
  end.

(** What the handler of generator [i] of a memory queue has buffered, in
    order, and the messages it still waits to decode, in the order of the
    calls.  On a queue that stores messages as they are a pushed message is
    buffered within the [push]; on a queue that encodes, a call of the
    handler waits, and the message is buffered when its decoding is done,
    which need not be in the order of the calls. *)
Definition handedStep (c : bool) (i : nat)
    (st : list EventMessage * list EventMessage) (a : Action)
  : list EventMessage * list EventMessage :=
  match a with
  | Push m => if c then (st.1, st.2 ++ [m]) else (st.1 ++ [m], st.2)
  | HandleData j k =>
      if Nat.eqb j i then
        match st.2 !! k with
        | Some m => (st.1 ++ [m], delete k st.2)
        | None => st
        end
      else st
  | _ => st
  end.

Definition handed (c : bool) (i : nat) (acts : list Action)
  : list EventMessage * list EventMessage :=
  foldl (handedStep c i) ([], []) acts.

(** A generator suspended in its [await] that has buffered [done] and
    whose handler waits for the decoding of [waiting]. *)
Definition suspendedWith `{Serializer} (done waiting : list EventMessage)
    (tl : Tail) : Prop :=
  phase tl = AtAwait
  /\ isStreamEnded tl = false
  /\ queue tl = map Raw done
  /\ decoding tl = map (fun m => Enc (encodeData m)) waiting
  /\ pendingResolve tl = match done with [] => true | _ :: _ => false end.


Module RedisConsumer.
Section WithSerializer.
Context `{Serializer} `{CancelMarker}.

(** [for await (const item of queue.onDataReceive())] on a Redis queue. *)
Fixpoint pull (fuel : nat) (q : RedisStreamQueue.t) (s : Redis.t) (tl : Tail)
  : list Item * option NextResult * RedisStreamQueue.t * Redis.t * Tail :=
  match fuel with
  | O => ([], None, q, s, tl)
  | S fuel' =>
      match RedisStreamQueue.onDataReceive_next q s tl with
      | (Yielded item, q', s', tl') =>
          let '(items, r, q'', s'', tl'') := pull fuel' q' s' tl' in
          (item :: items, r, q'', s'', tl'')
      | (r, q', s', tl') => ([], Some r, q', s', tl')
      end
  end.

(** What happens to the handler of one generator: the subscriber client
    calls its listener with the next message of the channel, or the
    [k]-th of its calls that wait for the decoding goes on. *)
Inductive HandlerStep : Type :=
  | Called
  | Decoded (k : nat).

Definition handlerStep (e : HandlerStep)
    (st : RedisStreamQueue.t * Redis.t * Tail)
  : RedisStreamQueue.t * Redis.t * Tail :=
  match e with
  | Called => (st.1.1, st.1.2, RedisStreamQueue.deliver st.1.1 st.1.2 st.2)
  | Decoded k => RedisStreamQueue.handleMessage k st.1.1 st.1.2 st.2
  end.

Definition handlerRun (evs : list HandlerStep)
    (st : RedisStreamQueue.t * Redis.t * Tail)
  : RedisStreamQueue.t * Redis.t * Tail :=
  foldl (fun st e => handlerStep e st) st evs.

(** What the handler has buffered, in order, the messages it still waits
    to decode, and the messages of the channel its listener has not been
    called with yet. *)
Definition handedStep
    (st : list EventMessage * list EventMessage * list EventMessage)
    (e : HandlerStep)
  : list EventMessage * list EventMessage * list EventMessage :=
  match e with
  | Called =>
      match st.2 with
      | m :: rest => (st.1.1, st.1.2 ++ [m], rest)
      | [] => st
      end
  | Decoded k =>
      match st.1.2 !! k with
      | Some m => (st.1.1 ++ [m], delete k st.1.2, st.2)
      | None => st
      end
  end.

Definition handed (ms : list EventMessage) (evs : list HandlerStep)
  : list EventMessage * list EventMessage * list EventMessage :=
  foldl handedStep ([], [], ms) evs.
End WithSerializer.
End RedisConsumer.

(* ===================================================================== *)
(** ** 12. MemoryStreamQueue.onDataChange                                 *)
(* ===================================================================== *)

(** The listeners of ['dataChange'] as function objects.  [on] appends a
    function and [off(event, fn)] removes the entries that are [fn] itself;
    two function objects are the same only if they were created by the
    same evaluation.  A function is either one the caller holds, or the
    [async (item) => listener(...)] arrow that call number [k] of
    [onDataChange] created around the caller's [listener]. *)
Module Emitter.
Inductive Fn : Type :=
  | Callback (listener : nat)
  | Arrow (k : nat) (listener : nat).

Definition Fn_eqb (f g : Fn) : bool :=
  match f, g with
  | Callback a, Callback b => Nat.eqb a b
  | Arrow k a, Arrow k' b => Nat.eqb k k' && Nat.eqb a b
  | _, _ => false
  end.

Record t : Type := mk {
  handlers : list Fn;   (* in registration order *)
  created : nat         (* arrows created so far *)
}.

Definition on (fn : Fn) (e : t) : t := mk (handlers e ++ [fn]) (created e).

Definition off (fn : Fn) (e : t) : t :=
  mk (List.filter (fun g => negb (Fn_eqb g fn)) (handlers e)) (created e).

(** [emit]: the caller's functions that end up being called with the
    item, in order (an arrow calls the listener it wraps). *)
Definition notified (e : t) : list nat :=
  map (fun fn => match fn with Callback l => l | Arrow _ l => l end) (handlers e).

(** [onDataChange(listener)]: registers a new arrow around [listener] and
    returns [() => this.off('dataChange', listener)]. *)
Definition onDataChange (listener : nat) (e : t) : t * (t -> t) :=
  (mk (handlers e ++ [Arrow (created e) listener]) (S (created e)),
   off (Callback listener)).
End Emitter.

(* ===================================================================== *)
(** * Properties                                                          *)
(* ===================================================================== *)

(** ** What push, cancel and the handlers of a memory queue keep *)

Section MemoryFrame.
Context `{Serializer} `{CancelMarker}.

Lemma tailStep_refl (tl : Tail) : tailStep tl tl.
Proof. split; auto. Qed.

Lemma tailStep_trans (a b c : Tail) : tailStep a b -> tailStep b c -> tailStep a c.
Proof. intros [H1 H2] [H3 H4]. split; [congruence|auto]. Qed.

Lemma tailSteps_refl (tls : list Tail) : Forall2 tailStep tls tls.
Proof.
  apply Forall2_same_length_lookup. split; [reflexivity|].
  intros i x y Hx Hy. rewrite Hx in Hy. injection Hy as <-. apply tailStep_refl.
Qed.

Lemma tailSteps_trans (a b c : list Tail) :
  Forall2 tailStep a b -> Forall2 tailStep b c -> Forall2 tailStep a c.
Proof.
  intros Hab Hbc. eapply Forall2_trans; [|exact Hab|exact Hbc].
  intros x y z. apply tailStep_trans.
Qed.

Lemma tailSteps_alter (f : Tail -> Tail) (i : nat) (tls : list Tail) :
  (forall tl, tailStep tl (f tl)) -> Forall2 tailStep tls (alter f i tls).
Proof.
  intros Hf. apply Forall2_alter_r; [apply tailSteps_refl|].
  intros x y _ _ Hxy. eapply tailStep_trans; [exact Hxy|apply Hf].
Qed.

Lemma tailSteps_insert (i : nat) (tl tl' : Tail) (tls : list Tail) :
  tls !! i = Some tl -> tailStep tl tl' -> Forall2 tailStep tls (<[i := tl']> tls).
Proof.
  intros Hi Hstep. rewrite list_insert_alter.
  apply Forall2_alter_r; [apply tailSteps_refl|].
  intros x y Hx _ _. rewrite Hi in Hx. injection Hx as <-. exact Hstep.
Qed.

Lemma tailStep_bufferItem (d : Item) (tl : Tail) : tailStep tl (bufferItem d tl).
Proof.
  unfold bufferItem. destruct (item_event d) as [e|]; [|split; auto].
  destruct (is_terminal_event e); split; auto.
Qed.

Lemma tailStep_resolvePending (tl : Tail) : tailStep tl (resolvePending tl).
Proof. split; [reflexivity|]. cbn. discriminate. Qed.

Lemma tailStep_awaitDecode (d : Item) (tl : Tail) : tailStep tl (awaitDecode d tl).
Proof. split; auto. Qed.

Lemma tailStep_awaitCancel (tl : Tail) : tailStep tl (awaitCancel tl).
Proof. split; auto. Qed.

Lemma tailStep_afterCancel (tl : Tail) : tailStep tl (afterCancel tl).
Proof.
  unfold afterCancel. destruct (resuming tl); [apply tailStep_refl|].
  split; [reflexivity|]. cbn. discriminate.
Qed.

Lemma tailStep_abortHandler (tl : Tail) : tailStep tl (abortHandler tl).
Proof. split; [reflexivity|]. cbn. discriminate. Qed.

Lemma tailStep_onTimeout (tl : Tail) : tailStep tl (onTimeout tl).
Proof.
  unfold onTimeout. destruct (timers tl); [apply tailStep_refl|].
  split; [reflexivity|]. cbn. discriminate.
Qed.

Lemma tailStep_receive (c : bool) (d : Item) (tl : Tail) :
  tailStep tl (receive c d tl).
Proof.
  unfold receive. destruct c; [apply tailStep_awaitDecode|].
  eapply tailStep_trans; [apply tailStep_bufferItem|apply tailStep_resolvePending].
Qed.

Lemma tailStep_released (tl tl' : Tail) :
  tailStep tl tl' -> released tl -> released tl'.
Proof.
  intros [Hph Hpr] Hrel Hp. rewrite Hph in Hp.
  destruct (pendingResolve tl') eqn:E; [|reflexivity].
  rewrite <- (Hrel Hp). symmetry. apply Hpr. reflexivity.
Qed.

Lemma tailStep_running (tl tl' : Tail) :
  tailStep tl tl' -> running tl' = running tl.
Proof. intros [Hph _]. unfold running. rewrite Hph. reflexivity. Qed.

Lemma sameObject_refl (q : MemoryStreamQueue.t) : sameObject q q.
Proof. unfold sameObject. repeat split; auto. apply tailSteps_refl. Qed.

Lemma sameObject_trans (a b c : MemoryStreamQueue.t) :
  sameObject a b -> sameObject b c -> sameObject a c.
Proof.
  intros (A1 & A2 & A3 & A4 & A5 & A6 & A7 & A8)
         (B1 & B2 & B3 & B4 & B5 & B6 & B7 & B8).
  unfold sameObject. repeat split; try congruence; [auto|].
  eapply tailSteps_trans; eassumption.
Qed.

Lemma update_tail_sameObject (i : nat) (f : Tail -> Tail) (q : MemoryStreamQueue.t) :
  (forall tl, tailStep tl (f tl)) ->
  sameObject q (MemoryStreamQueue.update_tail i f q).
Proof.
  intros Hf. unfold sameObject. repeat split; auto.
  apply tailSteps_alter. exact Hf.
Qed.

Lemma put_tail_sameObject (i : nat) (tl tl' : Tail) (q : MemoryStreamQueue.t) :
  MemoryStreamQueue.tails q !! i = Some tl ->
  tailStep tl tl' ->
  sameObject q (MemoryStreamQueue.put_tail i tl' q).
Proof.
  intros Hi Hstep. unfold sameObject. repeat split; auto.
  eapply tailSteps_insert; eassumption.
Qed.

Lemma foldl_update_tail_sameObject (f : Tail -> Tail) (hs : list nat) :
  (forall tl, tailStep tl (f tl)) ->
  forall q : MemoryStreamQueue.t,
  sameObject q (foldl (fun q i => MemoryStreamQueue.update_tail i f q) q hs).
Proof.
  intros Hf. induction hs as [|i hs IH]; intros q; [apply sameObject_refl|].
  cbn [foldl]. eapply sameObject_trans; [|apply IH].
  apply update_tail_sameObject. exact Hf.
Qed.

Lemma abort_sameObject (q : MemoryStreamQueue.t) :
  sameObject q (MemoryStreamQueue.abort q).
Proof.
  unfold MemoryStreamQueue.abort.
  destruct (MemoryStreamQueue.aborted q) eqn:Ha; [apply sameObject_refl|].
  eapply sameObject_trans;
    [|apply foldl_update_tail_sameObject; apply tailStep_abortHandler].
  unfold sameObject. repeat split; auto. apply tailSteps_refl.
Qed.

Lemma appended_refl (r : nat) (h : MemoryStreamQueue.Heap) : appended r h h.
Proof.
  exists []. symmetry. apply list_alter_id. intros arr. apply app_nil_r.
Qed.

Lemma appended_trans (r : nat) (h1 h2 h3 : MemoryStreamQueue.Heap) :
  appended r h1 h2 -> appended r h2 h3 -> appended r h1 h3.
Proof.
  intros [a ->] [b ->]. exists (a ++ b).
  rewrite list_alter_alter_eq. apply list_alter_ext; [|reflexivity].
  intros arr _. cbn. rewrite app_assoc. reflexivity.
Qed.

Lemma appended_push (r : nat) (x : Item) (h : MemoryStreamQueue.Heap) :
  appended r h (MemoryStreamQueue.array_push r x h).
Proof. exists [x]. reflexivity. Qed.

Lemma appended_length (r : nat) (h h' : MemoryStreamQueue.Heap) :
  appended r h h' -> List.length h' = List.length h.
Proof. intros [a ->]. apply length_alter. Qed.

Lemma appended_other (r r' : nat) (h h' : MemoryStreamQueue.Heap) :
  appended r h h' -> r' <> r -> h' !! r' = h !! r'.
Proof. intros [a ->] Hne. apply list_lookup_alter_ne. congruence. Qed.

(** The registrations follow the suspension points only. *)
Lemma registered_tailSteps (hs : list nat) (tls tls' : list Tail) :
  Forall2 tailStep tls tls' -> registered hs tls -> registered hs tls'.
Proof.
  intros Hsteps [Hnd Hiff]. split; [exact Hnd|]. intros i. rewrite Hiff.
  destruct (tls !! i) as [tl|] eqn:Hi.
  - destruct (Forall2_lookup_l _ _ _ _ _ Hsteps Hi) as (tl' & Hi' & Hstep).
    rewrite Hi'. cbn. rewrite (tailStep_running _ _ Hstep). reflexivity.
  - assert (Hn : tls' !! i = None).
    { apply lookup_ge_None. rewrite <- (Forall2_length _ _ _ Hsteps).
      apply lookup_ge_None. exact Hi. }
    rewrite Hn. reflexivity.
Qed.

Lemma released_tailSteps (tls tls' : list Tail) :
  Forall2 tailStep tls tls' -> Forall released tls -> Forall released tls'.
Proof.
  intros Hsteps Hrel. apply Forall_lookup. intros i tl' Hi'.
  destruct (Forall2_lookup_r _ _ _ _ _ Hsteps Hi') as (tl & Hi & Hstep).
  eapply tailStep_released; [exact Hstep|].
  eapply Forall_lookup_1; eassumption.
Qed.

Lemma sameObject_inv (q q' : MemoryStreamQueue.t) :
  sameObject q q' ->
  (MemoryStreamQueue.aborted q' = true -> MemoryStreamQueue.aborted q = true) ->
  MemoryInv q -> MemoryInv q'.
Proof.
  intros (_ & _ & _ & _ & Hh & Ha & _ & Hsteps) Hab (I1 & I2 & I3).
  unfold MemoryInv. rewrite Hh, Ha.
  split; [eapply registered_tailSteps; eassumption|].
  split; [eapply registered_tailSteps; eassumption|].
  intros Hq'. eapply released_tailSteps; [exact Hsteps|]. auto.
Qed.

Lemma sameObject_inv_aborted (q q' : MemoryStreamQueue.t) :
  sameObject q q' ->
  MemoryStreamQueue.aborted q = true ->
  MemoryInv q -> MemoryInv q'.
Proof.
  intros Hso Ha. apply sameObject_inv; [exact Hso|]. intros _. exact Ha.
Qed.

Lemma foldl_update_tail_length (f : Tail -> Tail) (hs : list nat) :
  forall q : MemoryStreamQueue.t,
  List.length (MemoryStreamQueue.tails
                 (foldl (fun q i => MemoryStreamQueue.update_tail i f q) q hs))
  = List.length (MemoryStreamQueue.tails q).
Proof.
  induction hs as [|a hs IH]; intros q; [reflexivity|].
  cbn [foldl]. rewrite IH. cbn. apply length_alter.
Qed.

(** After the handlers [hs] have each applied [f], the generators named
    in [hs] are as [f] leaves them. *)
Lemma foldl_update_tail_post (P : Tail -> Prop) (f : Tail -> Tail) :
  (forall tl, P (f tl)) ->
  forall (hs : list nat) (q : MemoryStreamQueue.t) (j : nat) (tl' : Tail),
  j ∈ hs \/ (exists tl, MemoryStreamQueue.tails q !! j = Some tl /\ P tl) ->
  MemoryStreamQueue.tails
    (foldl (fun q i => MemoryStreamQueue.update_tail i f q) q hs) !! j = Some tl' ->
  P tl'.
Proof.
  intros Hf. induction hs as [|a hs IH]; intros q j tl' Hj Hlook.
  - cbn in Hlook. destruct Hj as [Hj|(tl & Hi & Hp)]; [inversion Hj|].
    rewrite Hi in Hlook. injection Hlook as <-. exact Hp.
  - assert (Hsome : is_Some (MemoryStreamQueue.tails q !! j)).
    { apply lookup_lt_is_Some. apply lookup_lt_Some in Hlook.
      rewrite foldl_update_tail_length in Hlook. exact Hlook. }
    cbn [foldl] in Hlook.
    apply (IH (MemoryStreamQueue.update_tail a f q) j tl'); [|exact Hlook].
    destruct Hsome as [tl Htl].
    destruct (decide (j = a)) as [->|Hne].
    + right. exists (f tl). split; [|apply Hf].
      cbn. rewrite list_lookup_alter_eq, Htl. reflexivity.
    + destruct Hj as [Hj|(tl0 & Hi & Hp)].
      * left. apply elem_of_cons in Hj. destruct Hj as [Hj|Hj]; [contradiction|exact Hj].
      * right. exists tl0. split; [|exact Hp].
        cbn. rewrite list_lookup_alter_ne by congruence. exact Hi.
Qed.

(** [abort()] sets the signal and releases every generator. *)
Lemma abort_inv (q : MemoryStreamQueue.t) :
  MemoryInv q ->
  MemoryInv (MemoryStreamQueue.abort q)
  /\ MemoryStreamQueue.aborted (MemoryStreamQueue.abort q) = true.
Proof.
  intros Hinv. pose proof (abort_sameObject q) as Hso.
  unfold MemoryStreamQueue.abort in *.
  destruct (MemoryStreamQueue.aborted q) eqn:Ha; [split; assumption|].
  set (q1 := MemoryStreamQueue.set_aborted true q) in *.
  set (q2 := foldl (fun q i => MemoryStreamQueue.update_tail i abortHandler q)
                   q1 (MemoryStreamQueue.abortHandlers q)) in *.
  assert (Hso12 : sameObject q1 q2)
    by (apply foldl_update_tail_sameObject; apply tailStep_abortHandler).
  assert (Ha2 : MemoryStreamQueue.aborted q2 = true)
    by (destruct Hso12 as (_ & _ & _ & _ & _ & _ & Hab & _); apply Hab; reflexivity).
  split; [|exact Ha2].
  destruct Hinv as (I1 & I2 & _).
  destruct Hso as (_ & _ & _ & _ & Hh & Hah & _ & Hsteps).
  unfold MemoryInv. rewrite Hh, Hah.
  split; [eapply registered_tailSteps; eassumption|].
  split; [eapply registered_tailSteps; eassumption|].
  intros _. apply Forall_lookup. intros j tl' Hj Hph.
  destruct (Forall2_lookup_r _ _ _ _ _ Hsteps Hj) as (tl & Hjq & Hstep).
  apply (foldl_update_tail_post (fun tl => pendingResolve tl = false) abortHandler
           (fun _ => eq_refl) (MemoryStreamQueue.abortHandlers q) q1 j tl');
    [|exact Hj].
  left. apply (proj2 I2). rewrite Hjq. cbn. unfold running.
  destruct Hstep as [Hp _]. rewrite <- Hp, Hph. reflexivity.
Qed.

Lemma cancelLike_id : cancelLike (fun q h => (q, h)).
Proof.
  intros q h. cbn. split; [apply sameObject_refl|].
  split; [apply appended_refl|auto].
Qed.

Lemma cancelLike_compose
    (k1 k2 : MemoryStreamQueue.t -> MemoryStreamQueue.Heap
             -> MemoryStreamQueue.t * MemoryStreamQueue.Heap) :
  cancelLike k1 -> cancelLike k2 ->
  cancelLike (fun q h => k2 (k1 q h).1 (k1 q h).2).
Proof.
  intros H1 H2 q h. destruct (H1 q h) as (S1 & A1 & I1).
  destruct (H2 (k1 q h).1 (k1 q h).2) as (S2 & A2 & I2).
  split; [eapply sameObject_trans; eassumption|]. split; [|auto].
  eapply appended_trans; [exact A1|].
  destruct S1 as (_ & _ & _ & Hd & _). rewrite <- Hd. exact A2.
Qed.

Lemma cancelLike_update_tail (i : nat) (f : Tail -> Tail) :
  (forall tl, tailStep tl (f tl)) ->
  cancelLike (fun q h => (MemoryStreamQueue.update_tail i f q, h)).
Proof.
  intros Hf q h. cbn. split; [apply update_tail_sameObject; exact Hf|].
  split; [apply appended_refl|].
  apply sameObject_inv; [apply update_tail_sameObject; exact Hf|auto].
Qed.

Lemma cancelLike_foldl
    (F : nat -> MemoryStreamQueue.t -> MemoryStreamQueue.Heap
         -> MemoryStreamQueue.t * MemoryStreamQueue.Heap) (hs : list nat) :
  (forall i, cancelLike (F i)) ->
  cancelLike (fun q h => foldl (fun st i => F i st.1 st.2) (q, h) hs).
Proof.
  intros HF. induction hs as [|i hs IH]; [apply cancelLike_id|].
  intros q h. cbn [foldl fst snd].
  pose proof (cancelLike_compose (F i) _ (HF i) IH q h) as Hc. cbn in Hc.
  destruct (F i q h) as [q1 h1]. exact Hc.
Qed.

Section WithCancel.
Variable k : MemoryStreamQueue.t -> MemoryStreamQueue.Heap
             -> MemoryStreamQueue.t * MemoryStreamQueue.Heap.
Hypothesis Hk : cancelLike k.

Lemma handleData_body_with_like (i : nat) (d : Item) :
  cancelLike (MemoryStreamQueue.handleData_body_with k i d).
Proof.
  unfold MemoryStreamQueue.handleData_body_with.
  destruct (item_is_cancel d).
  - intros q h.
    pose proof (cancelLike_compose _ _
                  (cancelLike_update_tail i (bufferItem d) (tailStep_bufferItem d))
                  (cancelLike_compose _ _ Hk
                     (cancelLike_update_tail i awaitCancel tailStep_awaitCancel))
                  q h) as Hc.
    cbn in Hc.
    destruct (k (MemoryStreamQueue.update_tail i (bufferItem d) q) h) as [q2 h2].
    exact Hc.
  - apply (cancelLike_compose _ _
             (cancelLike_update_tail i (bufferItem d) (tailStep_bufferItem d))
             (cancelLike_update_tail i resolvePending tailStep_resolvePending)).
Qed.

Lemma handleData_with_like (i : nat) (d : Item) :
  cancelLike (MemoryStreamQueue.handleData_with k i d).
Proof.
  intros q h. unfold MemoryStreamQueue.handleData_with.
  destruct (MemoryStreamQueue.compressMessages q).
  - apply (cancelLike_update_tail i (awaitDecode d) (tailStep_awaitDecode d)).
  - apply handleData_body_with_like.
Qed.

Lemma emit_with_like (d : Item) : cancelLike (MemoryStreamQueue.emit_with k d).
Proof.
  intros q h. unfold MemoryStreamQueue.emit_with.
  set (q0 := MemoryStreamQueue.set_emitted (MemoryStreamQueue.emitted q ++ [d]) q).
  assert (Hso : sameObject q q0)
    by (unfold sameObject; repeat split; auto; apply tailSteps_refl).
  destruct (cancelLike_foldl (fun i => MemoryStreamQueue.handleData_with k i d)
              (MemoryStreamQueue.handlers q) (fun i => handleData_with_like i d) q0 h)
    as (S1 & A1 & I1).
  cbn beta in S1, A1, I1.
  split; [exact (sameObject_trans _ _ _ Hso S1)|]. split; [exact A1|].
  intros Hinv. apply I1. revert Hinv. apply sameObject_inv; [exact Hso|auto].
Qed.

Lemma push_with_like (item : EventMessage) :
  cancelLike (MemoryStreamQueue.push_with k item).
Proof.
  intros q h. unfold MemoryStreamQueue.push_with.
  set (d := if MemoryStreamQueue.compressMessages q
            then Enc (encodeData item) else Raw item).
  destruct (emit_with_like d q
              (MemoryStreamQueue.array_push (MemoryStreamQueue.data q) d h))
    as (S1 & A1 & I1).
  split; [exact S1|]. split; [|exact I1].
  eapply appended_trans; [apply appended_push|exact A1].
Qed.
End WithCancel.

(** [cancel()] keeps the queue object and its generators as they are
    suspended, appends to the array of the queue only, and leaves the
    signal set with every generator released. *)
Lemma cancel_like : cancelLike MemoryStreamQueue.cancel.
Proof.
  intros q h. unfold MemoryStreamQueue.cancel.
  destruct (push_with_like _ cancelLike_id CancelEventMessage
              (MemoryStreamQueue.abort q) h) as (S1 & A1 & I1).
  pose proof (abort_sameObject q) as S0.
  split; [eapply sameObject_trans; eassumption|]. split.
  - destruct S0 as (_ & _ & _ & Hd & _). rewrite <- Hd. exact A1.
  - intros Hinv. apply I1. apply abort_inv. exact Hinv.
Qed.

Lemma cancel_aborted (q : MemoryStreamQueue.t) (h : MemoryStreamQueue.Heap) :
  MemoryStreamQueue.aborted (MemoryStreamQueue.cancel q h).1 = true.
Proof.
  unfold MemoryStreamQueue.cancel.
  destruct (push_with_like _ cancelLike_id CancelEventMessage
              (MemoryStreamQueue.abort q) h) as ((_ & _ & _ & _ & _ & _ & Hab & _) & _).
  apply Hab. unfold MemoryStreamQueue.abort.
  destruct (MemoryStreamQueue.aborted q) eqn:Ha; [exact Ha|].
  destruct (foldl_update_tail_sameObject abortHandler
              (MemoryStreamQueue.abortHandlers q) tailStep_abortHandler
              (MemoryStreamQueue.set_aborted true q))
    as (_ & _ & _ & _ & _ & _ & Hab' & _).
  apply Hab'. reflexivity.
Qed.

Lemma push_like (item : EventMessage) : cancelLike (MemoryStreamQueue.push item).
Proof. apply push_with_like. apply cancel_like. Qed.

Lemma handleData_body_like (i : nat) (d : Item) :
  cancelLike (MemoryStreamQueue.handleData_body i d).
Proof. apply handleData_body_with_like. apply cancel_like. Qed.

Lemma handleData_decoded_like (i k : nat) :
  cancelLike (MemoryStreamQueue.handleData_decoded i k).
Proof.
  intros q h. unfold MemoryStreamQueue.handleData_decoded.
  destruct (MemoryStreamQueue.tails q !! i) as [tl|] eqn:Hi; [|apply cancelLike_id].
  destruct (decoding tl !! k) as [item|]; [|apply cancelLike_id].
  set (q0 := MemoryStreamQueue.put_tail i
               (set_decoding (delete k (decoding tl)) tl) q).
  assert (Hso : sameObject q q0).
  { apply (put_tail_sameObject i tl); [exact Hi|]. split; auto. }
  assert (Hinv : MemoryInv q -> MemoryInv q0)
    by (apply sameObject_inv; [exact Hso|auto]).
  destruct (decodeItem item) as [d|e].
  - destruct (handleData_body_like i d q0 h) as (S1 & A1 & I1).
    split; [eapply sameObject_trans; eassumption|]. split; [exact A1|auto].
  - cbn. split; [exact Hso|]. split; [apply appended_refl|exact Hinv].
Qed.
End MemoryFrame.

(** ** What push and cancel of a memory queue do *)

Section MemoryEffects.
Context `{Serializer} `{CancelMarker}.

Lemma update_tail_update_tail (i : nat) (f g : Tail -> Tail)
    (q : MemoryStreamQueue.t) :
  MemoryStreamQueue.update_tail i f (MemoryStreamQueue.update_tail i g q)
  = MemoryStreamQueue.update_tail i (fun tl => f (g tl)) q.
Proof.
  unfold MemoryStreamQueue.update_tail, MemoryStreamQueue.set_tails. cbn.
  rewrite list_alter_alter_eq. reflexivity.
Qed.

(** A handler called with a message that is no cancel event, or on a queue
    that decodes, touches the variables of its generator only. *)
Lemma handleData_with_plain
    (k : MemoryStreamQueue.t -> MemoryStreamQueue.Heap
         -> MemoryStreamQueue.t * MemoryStreamQueue.Heap)
    (i : nat) (d : Item) (q : MemoryStreamQueue.t) (h : MemoryStreamQueue.Heap) :
  MemoryStreamQueue.compressMessages q = true \/ item_is_cancel d = false ->
  MemoryStreamQueue.handleData_with k i d q h
  = (MemoryStreamQueue.update_tail i
       (receive (MemoryStreamQueue.compressMessages q) d) q, h).
Proof.
  intros Hplain. unfold MemoryStreamQueue.handleData_with.
  destruct (MemoryStreamQueue.compressMessages q) eqn:Hc; [reflexivity|].
  destruct Hplain as [Hp|Hp]; [discriminate|].
  unfold MemoryStreamQueue.handleData_body_with. rewrite Hp.
  rewrite update_tail_update_tail. reflexivity.
Qed.

Lemma foldl_handleData_with_plain
    (k : MemoryStreamQueue.t -> MemoryStreamQueue.Heap
         -> MemoryStreamQueue.t * MemoryStreamQueue.Heap)
    (d : Item) (c : bool) (hs : list nat) :
  c = true \/ item_is_cancel d = false ->
  forall (q : MemoryStreamQueue.t) (h : MemoryStreamQueue.Heap),
  MemoryStreamQueue.compressMessages q = c ->
  foldl (fun st i => MemoryStreamQueue.handleData_with k i d st.1 st.2) (q, h) hs
  = (foldl (fun q i => MemoryStreamQueue.update_tail i (receive c d) q) q hs, h).
Proof.
  intros Hplain. induction hs as [|i hs IH]; intros q h Hc; [reflexivity|].
  cbn [foldl fst snd]. rewrite handleData_with_plain by (rewrite Hc; exact Hplain).
  rewrite Hc. apply IH. exact Hc.
Qed.

Lemma emit_with_plain
    (k : MemoryStreamQueue.t -> MemoryStreamQueue.Heap
         -> MemoryStreamQueue.t * MemoryStreamQueue.Heap)
    (d : Item) (q : MemoryStreamQueue.t) (h : MemoryStreamQueue.Heap) :
  MemoryStreamQueue.compressMessages q = true \/ item_is_cancel d = false ->
  MemoryStreamQueue.emit_with k d q h
  = (foldl (fun q0 i => MemoryStreamQueue.update_tail i
                          (receive (MemoryStreamQueue.compressMessages q) d) q0)
           (MemoryStreamQueue.set_emitted (MemoryStreamQueue.emitted q ++ [d]) q)
           (MemoryStreamQueue.handlers q), h).
Proof.
  intros Hplain. unfold MemoryStreamQueue.emit_with.
  rewrite (foldl_handleData_with_plain k d (MemoryStreamQueue.compressMessages q))
    by (exact Hplain || reflexivity).
  reflexivity.
Qed.

Lemma stored_plain (c : bool) (item : EventMessage) :
  is_cancel_event (event item) = false ->
  c = true \/ item_is_cancel (memoryStored c item) = false.
Proof. intros Hn. destruct c; [left; reflexivity|right; exact Hn]. Qed.

Lemma marker_plain (c : bool) :
  c = true \/ item_is_cancel (memoryStored c CancelEventMessage) = false.
Proof. apply stored_plain. apply CancelEventMessage_event. Qed.

Lemma foldl_update_tail_set (f : Tail -> Tail) (hs : list nat) :
  forall q : MemoryStreamQueue.t,
  foldl (fun q i => MemoryStreamQueue.update_tail i f q) q hs
  = MemoryStreamQueue.set_tails
      (foldl (fun tls i => alter f i tls) (MemoryStreamQueue.tails q) hs) q.
Proof.
  induction hs as [|a hs IH]; intros q; [destruct q; reflexivity|].
  cbn [foldl]. rewrite IH. reflexivity.
Qed.

Lemma foldl_alter_lookup (f : Tail -> Tail) (hs : list nat) :
  NoDup hs ->
  forall (tls : list Tail) (j : nat),
  foldl (fun tls i => alter f i tls) tls hs !! j
  = (if decide (j ∈ hs) then f else fun tl => tl) <$> tls !! j.
Proof.
  induction 1 as [|a hs Hnotin Hnd IH]; intros tls j.
  - cbn. destruct (tls !! j); reflexivity.
  - cbn [foldl]. rewrite IH.
    destruct (decide (j = a)) as [->|Hne].
    + rewrite list_lookup_alter_eq.
      destruct (decide (a ∈ hs)) as [Hin|_]; [contradiction|].
      destruct (decide (a ∈ a :: hs)) as [_|Hout];
        [|exfalso; apply Hout; left].
      destruct (tls !! a); reflexivity.
    + rewrite list_lookup_alter_ne by congruence.
      destruct (decide (j ∈ hs)) as [Hin|Hout];
        destruct (decide (j ∈ a :: hs)) as [Hin'|Hout']; try reflexivity.
      * exfalso. apply Hout'. right. exact Hin.
      * exfalso. apply elem_of_cons in Hin'. destruct Hin'; [contradiction|auto].
Qed.

(** Functions registered for the running generators, each applying [f] to
    the variables of its generator: every running generator gets [f]. *)
Lemma foldl_alter_registered (f : Tail -> Tail) (hs : list nat) (tls : list Tail) :
  registered hs tls ->
  foldl (fun tls i => alter f i tls) tls hs
  = map (fun tl => if running tl then f tl else tl) tls.
Proof.
  intros [Hnd Hiff]. apply list_eq. intros j.
  rewrite foldl_alter_lookup by exact Hnd. rewrite list_lookup_fmap.
  destruct (tls !! j) as [tl|] eqn:Hj; [|reflexivity]. cbn.
  destruct (decide (j ∈ hs)) as [Hin|Hout].
  - apply Hiff in Hin. rewrite Hj in Hin. injection Hin as ->. reflexivity.
  - destruct (running tl) eqn:Hr; [|reflexivity].
    exfalso. apply Hout. apply Hiff. rewrite Hj. cbn. rewrite Hr. reflexivity.
Qed.

(** [abort()] on a queue whose listeners are those of its running
    generators. *)
Lemma abort_registered (q : MemoryStreamQueue.t) :
  registered (MemoryStreamQueue.abortHandlers q) (MemoryStreamQueue.tails q) ->
  MemoryStreamQueue.abort q
  = if MemoryStreamQueue.aborted q then q
    else MemoryStreamQueue.set_tails
           (map (fun tl => if running tl then abortHandler tl else tl)
                (MemoryStreamQueue.tails q))
           (MemoryStreamQueue.set_aborted true q).
Proof.
  intros Hreg. unfold MemoryStreamQueue.abort.
  destruct (MemoryStreamQueue.aborted q); [reflexivity|].
  rewrite foldl_update_tail_set. cbn [MemoryStreamQueue.tails MemoryStreamQueue.set_aborted].
  rewrite foldl_alter_registered by exact Hreg. reflexivity.
Qed.

(** [push] of a message that is no [__stream_cancel__] event, or on a
    queue that encodes: the entry is appended to the array, the emission is
    recorded and every running generator receives the entry. *)
Lemma push_plain (item : EventMessage) (q : MemoryStreamQueue.t)
    (h : MemoryStreamQueue.Heap) :
  MemoryStreamQueue.compressMessages q = true
  \/ is_cancel_event (event item) = false ->
  registered (MemoryStreamQueue.handlers q) (MemoryStreamQueue.tails q) ->
  let c := MemoryStreamQueue.compressMessages q in
  let d := memoryStored c item in
  MemoryStreamQueue.push item q h
  = (MemoryStreamQueue.set_tails
       (map (fun tl => if running tl then receive c d tl else tl)
            (MemoryStreamQueue.tails q))
       (MemoryStreamQueue.set_emitted (MemoryStreamQueue.emitted q ++ [d]) q),
     MemoryStreamQueue.array_push (MemoryStreamQueue.data q) d h).
Proof.
  intros Hplain Hreg c d. unfold MemoryStreamQueue.push, MemoryStreamQueue.push_with.
  fold c. change (if c then Enc (encodeData item) else Raw item) with d.
  rewrite emit_with_plain.
  - rewrite foldl_update_tail_set.
    cbn [MemoryStreamQueue.tails MemoryStreamQueue.set_emitted
         MemoryStreamQueue.handlers MemoryStreamQueue.compressMessages].
    rewrite foldl_alter_registered by exact Hreg. reflexivity.
  - fold c. subst d. destruct Hplain as [Hc|Hn]; [left; exact Hc|].
    destruct c; [left; reflexivity|right; exact Hn].
Qed.

(** The source's [cancel()]: abort the signal, then [push] the cancel
    message. *)
Lemma cancel_unfold (q : MemoryStreamQueue.t) (h : MemoryStreamQueue.Heap) :
  MemoryStreamQueue.cancel q h
  = MemoryStreamQueue.push CancelEventMessage (MemoryStreamQueue.abort q) h.
Proof.
  unfold MemoryStreamQueue.cancel, MemoryStreamQueue.push,
    MemoryStreamQueue.push_with.
  rewrite !emit_with_plain; [reflexivity| |];
    apply (marker_plain (MemoryStreamQueue.compressMessages (MemoryStreamQueue.abort q))).
Qed.

(** [cancel()] on a queue whose handlers and listeners are those of its
    running generators: the signal is set, the cancel message is appended
    to the array and its emission recorded; every running generator is
    given the [abortHandler] (unless the signal was set already) and then
    receives the cancel message. *)
Lemma cancel_registered (q : MemoryStreamQueue.t) (h : MemoryStreamQueue.Heap) :
  registered (MemoryStreamQueue.handlers q) (MemoryStreamQueue.tails q) ->
  registered (MemoryStreamQueue.abortHandlers q) (MemoryStreamQueue.tails q) ->
  let c := MemoryStreamQueue.compressMessages q in
  let d := memoryStored c CancelEventMessage in
  MemoryStreamQueue.cancel q h
  = (MemoryStreamQueue.set_tails
       (map (fun tl =>
               if running tl
               then receive c d (if MemoryStreamQueue.aborted q then tl
                                 else abortHandler tl)
               else tl)
            (MemoryStreamQueue.tails q))
       (MemoryStreamQueue.set_emitted (MemoryStreamQueue.emitted q ++ [d])
          (MemoryStreamQueue.set_aborted true q)),
     MemoryStreamQueue.array_push (MemoryStreamQueue.data q) d h).
Proof.
  intros Hh Hah c d. rewrite cancel_unfold.
  pose proof (abort_sameObject q) as (_ & Hc & _ & _ & Hhs & _ & _ & Hsteps).
  rewrite push_plain.
  - rewrite abort_registered by exact Hah. fold c.
    destruct (MemoryStreamQueue.aborted q) eqn:Ha.
    + fold c d. destruct q; cbn in *. subst. reflexivity.
    + cbn [MemoryStreamQueue.tails MemoryStreamQueue.set_tails
           MemoryStreamQueue.set_aborted MemoryStreamQueue.compressMessages
           MemoryStreamQueue.emitted MemoryStreamQueue.data
           MemoryStreamQueue.set_emitted].
      fold c d. rewrite map_map. unfold MemoryStreamQueue.set_tails,
        MemoryStreamQueue.set_emitted, MemoryStreamQueue.set_aborted. cbn.
      f_equal. f_equal. apply map_ext. intros tl.
      destruct (running tl) eqn:Hr.
      * assert (Hr' : running (abortHandler tl) = true) by exact Hr.
        rewrite Hr'. reflexivity.
      * rewrite Hr. reflexivity.
  - right. apply CancelEventMessage_event.
  - rewrite Hhs. eapply registered_tailSteps; eassumption.
Qed.
End MemoryEffects.

(** ** A [__stream_cancel__] event pushed to a memory queue that stores
    messages as they are *)

Section MemoryCancelEvent.
Context `{Serializer} `{CancelMarker}.

Lemma cancel_heap (q : MemoryStreamQueue.t) (h : MemoryStreamQueue.Heap) :
  (MemoryStreamQueue.cancel q h).2
  = MemoryStreamQueue.array_push (MemoryStreamQueue.data q)
      (memoryStored (MemoryStreamQueue.compressMessages q) CancelEventMessage) h.
Proof.
  destruct (abort_sameObject q) as (_ & Hc & _ & Hd & _).
  unfold MemoryStreamQueue.cancel, MemoryStreamQueue.push_with.
  rewrite emit_with_plain
    by apply (marker_plain (MemoryStreamQueue.compressMessages (MemoryStreamQueue.abort q))).
  cbn [snd]. rewrite Hc, Hd. reflexivity.
Qed.

(** Each handler that is called with the event calls [cancel()]: the
    signal is set and one cancel message is appended per handler. *)
Lemma foldl_handleData_cancel_event (d : Item) (hs : list nat) :
  item_is_cancel d = true ->
  forall (q : MemoryStreamQueue.t) (h : MemoryStreamQueue.Heap),
  MemoryStreamQueue.compressMessages q = false ->
  let r := foldl (fun st i => MemoryStreamQueue.handleData i d st.1 st.2) (q, h) hs in
  r.2 = alter (fun arr => arr ++ replicate (List.length hs) (Raw CancelEventMessage))
              (MemoryStreamQueue.data q) h
  /\ MemoryStreamQueue.aborted r.1
     = MemoryStreamQueue.aborted q || negb (Nat.eqb (List.length hs) 0).
Proof.
  intros Hd. induction hs as [|i hs IH]; intros q h Hc.
  - cbn. split; [|symmetry; apply orb_false_r].
    symmetry. apply list_alter_id. intros arr. apply app_nil_r.
  - cbn [foldl fst snd List.length].
    destruct (handleData_with_like _ cancel_like i d q h)
      as ((_ & Hc1 & _ & Hd1 & _) & _ & _).
    fold (MemoryStreamQueue.handleData i d q h) in Hc1, Hd1.
    assert (Hheap : (MemoryStreamQueue.handleData i d q h).2
                    = MemoryStreamQueue.array_push (MemoryStreamQueue.data q)
                        (Raw CancelEventMessage) h
                    /\ MemoryStreamQueue.aborted (MemoryStreamQueue.handleData i d q h).1
                       = true).
    { unfold MemoryStreamQueue.handleData, MemoryStreamQueue.handleData_with.
      rewrite Hc. unfold MemoryStreamQueue.handleData_body_with. rewrite Hd.
      pose proof (cancel_heap
                    (MemoryStreamQueue.update_tail i (bufferItem d) q) h) as Hh.
      pose proof (cancel_aborted
                    (MemoryStreamQueue.update_tail i (bufferItem d) q) h) as Ha.
      destruct (MemoryStreamQueue.cancel
                  (MemoryStreamQueue.update_tail i (bufferItem d) q) h) as [q2 h2].
      cbn [fst snd] in *. split; [|exact Ha].
      rewrite Hh. cbn [MemoryStreamQueue.update_tail MemoryStreamQueue.set_tails
                       MemoryStreamQueue.data MemoryStreamQueue.compressMessages].
      rewrite Hc. reflexivity. }
    destruct Hheap as [Hheap Hab].
    destruct (MemoryStreamQueue.handleData i d q h) as [q1 h1].
    cbn [fst snd] in *. rewrite Hc in Hc1.
    destruct (IH q1 h1 Hc1) as [IH1 IH2]. split.
    + rewrite IH1, Hd1, Hheap. unfold MemoryStreamQueue.array_push.
      rewrite list_alter_alter_eq. apply list_alter_ext; [|reflexivity].
      intros arr _. cbn. rewrite <- app_assoc. reflexivity.
    + rewrite IH2, Hab. cbn. symmetry. apply orb_true_r.
Qed.

(** [push] of a [__stream_cancel__] event on a queue that stores messages
    as they are: every registered handler calls [cancel()] before [push]
    returns. *)
Lemma push_cancel_event (item : EventMessage) (q : MemoryStreamQueue.t)
    (h : MemoryStreamQueue.Heap) :
  MemoryStreamQueue.compressMessages q = false ->
  is_cancel_event (event item) = true ->
  let r := MemoryStreamQueue.push item q h in
  r.2 = alter (fun arr => arr ++ Raw item
                 :: replicate (MemoryStreamQueue.listeners q) (Raw CancelEventMessage))
              (MemoryStreamQueue.data q) h
  /\ MemoryStreamQueue.aborted r.1
     = MemoryStreamQueue.aborted q
       || negb (Nat.eqb (MemoryStreamQueue.listeners q) 0).
Proof.
  intros Hc Hd r. subst r.
  unfold MemoryStreamQueue.push, MemoryStreamQueue.push_with,
    MemoryStreamQueue.emit_with. rewrite Hc.
  destruct (foldl_handleData_cancel_event (Raw item) (MemoryStreamQueue.handlers q) Hd
              (MemoryStreamQueue.set_emitted
                 (MemoryStreamQueue.emitted q ++ [Raw item]) q)
              (MemoryStreamQueue.array_push (MemoryStreamQueue.data q) (Raw item) h) Hc)
    as [E1 E2].
  split; [|exact E2].
  etransitivity; [exact E1|]. cbn [MemoryStreamQueue.data MemoryStreamQueue.set_emitted].
  unfold MemoryStreamQueue.array_push, MemoryStreamQueue.listeners.
  rewrite list_alter_alter_eq. apply list_alter_ext; [|reflexivity].
  intros arr _. cbn. rewrite <- app_assoc. reflexivity.
Qed.
End MemoryCancelEvent.

(** ** The states a memory queue reaches *)

Section MemoryReachable.
Context `{Serializer} `{CancelMarker}.

Lemma registered_keep (hs : list nat) (tls : list Tail) (i : nat) (tl tl' : Tail) :
  tls !! i = Some tl -> running tl' = running tl ->
  registered hs tls -> registered hs (<[i := tl']> tls).
Proof.
  intros Hi Hr [Hnd Hiff]. split; [exact Hnd|]. intros j. rewrite Hiff.
  destruct (decide (j = i)) as [->|Hne].
  - rewrite list_lookup_insert_eq by (eapply lookup_lt_Some; exact Hi).
    rewrite Hi. cbn. rewrite Hr. reflexivity.
  - rewrite list_lookup_insert_ne by congruence. reflexivity.
Qed.

Lemma registered_start (hs : list nat) (tls : list Tail) (i : nat) (tl tl' : Tail) :
  tls !! i = Some tl -> running tl = false -> running tl' = true ->
  registered hs tls -> registered (hs ++ [i]) (<[i := tl']> tls).
Proof.
  intros Hi Hr Hr' [Hnd Hiff].
  assert (Hnotin : i ∉ hs).
  { intros Hin. apply Hiff in Hin. rewrite Hi in Hin. cbn in Hin. congruence. }
  split.
  - apply NoDup_app. split; [exact Hnd|]. split; [|apply NoDup_singleton].
    intros x Hx Hx'. apply list_elem_of_singleton in Hx'. subst. contradiction.
  - intros j. rewrite elem_of_app, list_elem_of_singleton, Hiff.
    destruct (decide (j = i)) as [->|Hne].
    + rewrite list_lookup_insert_eq by (eapply lookup_lt_Some; exact Hi).
      cbn. rewrite Hr'. split; auto.
    + rewrite list_lookup_insert_ne by congruence. split; [|auto].
      intros [Hj|Hj]; [exact Hj|contradiction].
Qed.

Lemma registered_stop (hs : list nat) (tls : list Tail) (i : nat) (tl' : Tail) :
  running tl' = false ->
  registered hs tls ->
  registered (filter (fun j => j <> i) hs) (<[i := tl']> tls).
Proof.
  intros Hr' [Hnd Hiff]. split; [apply NoDup_filter; exact Hnd|].
  intros j. rewrite list_elem_of_filter, Hiff.
  destruct (decide (j = i)) as [->|Hne].
  - split; [intros [Hn _]; contradiction|]. intros Hrun.
    destruct (decide (i < List.length tls)%nat) as [Hlt|Hge].
    + rewrite list_lookup_insert_eq in Hrun by exact Hlt. cbn in Hrun. congruence.
    + rewrite list_insert_ge in Hrun by lia.
      rewrite lookup_ge_None_2 in Hrun by lia. discriminate.
  - rewrite list_lookup_insert_ne by congruence. split; [intros [_ Hj]; exact Hj|auto].
Qed.

Lemma registered_snoc (hs : list nat) (tls : list Tail) (tl : Tail) :
  running tl = false -> registered hs tls -> registered hs (tls ++ [tl]).
Proof.
  intros Hr [Hnd Hiff]. split; [exact Hnd|]. intros j. rewrite Hiff.
  destruct (decide (j < List.length tls)%nat) as [Hlt|Hge].
  - rewrite lookup_app_l by exact Hlt. reflexivity.
  - rewrite (lookup_ge_None_2 tls j) by lia.
    destruct (decide (j = List.length tls)) as [->|Hne].
    + rewrite list_lookup_middle by reflexivity. cbn. rewrite Hr. split; discriminate.
    + rewrite lookup_ge_None_2 by (rewrite length_app; cbn; lia). reflexivity.
Qed.

Lemma filter_snoc_same (hs : list nat) (i : nat) :
  i ∉ hs -> filter (fun j => j <> i) (hs ++ [i]) = hs.
Proof.
  intros Hnotin. rewrite filter_app.
  assert (H1 : filter (fun j => j <> i) [i] = []).
  { rewrite filter_cons. destruct (decide (i <> i)); [contradiction|reflexivity]. }
  rewrite H1, app_nil_r. clear H1.
  induction hs as [|a hs IH]; [reflexivity|].
  rewrite filter_cons. destruct (decide (a <> i)) as [_|Hn].
  - f_equal. apply IH. intros Hin. apply Hnotin. right. exact Hin.
  - exfalso. apply Hnotin. apply dec_stable in Hn. subst. left.
Qed.

Lemma filter_absent (hs : list nat) (i : nat) :
  i ∉ hs -> filter (fun j => j <> i) hs = hs.
Proof.
  intros Hnotin. induction hs as [|a hs IH]; [reflexivity|].
  rewrite filter_cons. destruct (decide (a <> i)) as [_|Hn].
  - f_equal. apply IH. intros Hin. apply Hnotin. right. exact Hin.
  - exfalso. apply Hnotin. apply dec_stable in Hn. subst. left.
Qed.

(** What [next()] keeps of the queue object. *)
Lemma next_fields (i : nat) (q q' : MemoryStreamQueue.t) (r : NextResult) :
  MemoryStreamQueue.onDataReceive_next i q = Some (r, q') ->
  MemoryStreamQueue.id q' = MemoryStreamQueue.id q
  /\ MemoryStreamQueue.compressMessages q' = MemoryStreamQueue.compressMessages q
  /\ MemoryStreamQueue.ttl q' = MemoryStreamQueue.ttl q
  /\ MemoryStreamQueue.data q' = MemoryStreamQueue.data q
  /\ MemoryStreamQueue.aborted q' = MemoryStreamQueue.aborted q
  /\ MemoryStreamQueue.emitted q' = MemoryStreamQueue.emitted q
  /\ List.length (MemoryStreamQueue.tails q') = List.length (MemoryStreamQueue.tails q)
  /\ (forall j, j <> i ->
        MemoryStreamQueue.tails q' !! j = MemoryStreamQueue.tails q !! j).
Proof.
  unfold MemoryStreamQueue.onDataReceive_next.
  destruct (MemoryStreamQueue.tails q !! i) as [tl|] eqn:Hi; [|discriminate].
  intros Heq. injection Heq as Heq.
  assert (Hput : forall tl' q0,
            MemoryStreamQueue.tails q0 = MemoryStreamQueue.tails q ->
            List.length (MemoryStreamQueue.tails (MemoryStreamQueue.put_tail i tl' q0))
            = List.length (MemoryStreamQueue.tails q)
            /\ (forall j, j <> i ->
                  MemoryStreamQueue.tails (MemoryStreamQueue.put_tail i tl' q0) !! j
                  = MemoryStreamQueue.tails q !! j)).
  { intros tl' q0 Hq0. cbn. rewrite Hq0, length_insert. split; [reflexivity|].
    intros j Hne. apply list_lookup_insert_ne. congruence. }
  assert (Hloop : forall tl0 q0 r0 q1,
            MemoryStreamQueue.tails q0 = MemoryStreamQueue.tails q ->
            MemoryStreamQueue.loop i tl0 q0 = (r0, q1) ->
            MemoryStreamQueue.id q1 = MemoryStreamQueue.id q0
            /\ MemoryStreamQueue.compressMessages q1
               = MemoryStreamQueue.compressMessages q0
            /\ MemoryStreamQueue.ttl q1 = MemoryStreamQueue.ttl q0
            /\ MemoryStreamQueue.data q1 = MemoryStreamQueue.data q0
            /\ MemoryStreamQueue.aborted q1 = MemoryStreamQueue.aborted q0
            /\ MemoryStreamQueue.emitted q1 = MemoryStreamQueue.emitted q0
            /\ List.length (MemoryStreamQueue.tails q1)
               = List.length (MemoryStreamQueue.tails q)
            /\ (forall j, j <> i ->
                  MemoryStreamQueue.tails q1 !! j = MemoryStreamQueue.tails q !! j)).
  { intros tl0 q0 r0 q1 Hq0. unfold MemoryStreamQueue.loop, MemoryStreamQueue.finish.
    destruct (loopHead (MemoryStreamQueue.aborted q0) tl0) as [|item tl1|tl1];
      intros Hl; injection Hl as _ <-;
      (repeat (split; [reflexivity|])); apply Hput; cbn; exact Hq0. }
  destruct (phase tl).
  - destruct (MemoryStreamQueue.aborted q) eqn:Ha.
    + injection Heq as _ <-.
      repeat (split; [first [reflexivity|cbn; symmetry; exact Ha|cbn; exact Ha]|]).
      apply Hput. reflexivity.
    + apply Hloop in Heq; [|reflexivity]. cbn in Heq. rewrite Ha in Heq. exact Heq.
  - destruct (pendingResolve tl).
    + injection Heq as _ <-. repeat (split; [reflexivity|]). auto.
    + apply Hloop in Heq; [exact Heq|reflexivity].
  - destruct (queue tl !! next).
    + injection Heq as _ <-. repeat (split; [reflexivity|]). apply Hput. reflexivity.
    + apply Hloop in Heq; [exact Heq|reflexivity].
  - injection Heq as _ <-. repeat (split; [reflexivity|]). auto.
Qed.

Lemma released_not_await (tl : Tail) : phase tl <> AtAwait -> released tl.
Proof. intros Hne Hp. contradiction. Qed.

Lemma loop_inv (i : nat) (tl0 tl : Tail) (q q' : MemoryStreamQueue.t) (r : NextResult) :
  MemoryStreamQueue.tails q !! i = Some tl ->
  running tl = true ->
  MemoryInv q ->
  MemoryStreamQueue.loop i tl0 q = (r, q') ->
  MemoryInv q'.
Proof.
  intros Hi Hrun (I1 & I2 & I3).
  unfold MemoryStreamQueue.loop, MemoryStreamQueue.finish, loopHead.
  destruct (isStreamEnded tl0); cbn [negb andb].
  - intros Heq. injection Heq as _ <-. unfold MemoryInv. cbn.
    split; [apply registered_stop; [reflexivity|exact I1]|].
    split; [apply registered_stop; [reflexivity|exact I2]|].
    intros Ha. apply Forall_insert; [auto|]. apply released_not_await. discriminate.
  - destruct (MemoryStreamQueue.aborted q) eqn:Ha; cbn [negb].
    + intros Heq. injection Heq as _ <-. unfold MemoryInv. cbn.
      split; [apply registered_stop; [reflexivity|exact I1]|].
      split; [apply registered_stop; [reflexivity|exact I2]|].
      intros _. apply Forall_insert; [auto|]. apply released_not_await. discriminate.
    + destruct (queue tl0) as [|item rest]; intros Heq; injection Heq as _ <-;
        unfold MemoryInv; cbn; rewrite Ha;
        (split; [eapply registered_keep; [exact Hi|rewrite Hrun; reflexivity|exact I1]|]);
        (split; [eapply registered_keep; [exact Hi|rewrite Hrun; reflexivity|exact I2]|]);
        discriminate.
Qed.

Lemma next_inv (i : nat) (q q' : MemoryStreamQueue.t) (r : NextResult) :
  MemoryInv q ->
  MemoryStreamQueue.onDataReceive_next i q = Some (r, q') ->
  MemoryInv q'.
Proof.
  intros Hinv. pose proof Hinv as (I1 & I2 & I3).
  unfold MemoryStreamQueue.onDataReceive_next.
  destruct (MemoryStreamQueue.tails q !! i) as [tl|] eqn:Hi; [|discriminate].
  intros Heq. injection Heq as Heq.
  destruct (phase tl) eqn:Hph.
  - assert (Hnr : running tl = false) by (unfold running; rewrite Hph; reflexivity).
    destruct (MemoryStreamQueue.aborted q) eqn:Ha.
    + injection Heq as _ <-. unfold MemoryInv. cbn. rewrite Ha.
      split; [eapply registered_keep; [exact Hi|rewrite Hnr; reflexivity|exact I1]|].
      split; [eapply registered_keep; [exact Hi|rewrite Hnr; reflexivity|exact I2]|].
      intros _. apply Forall_insert; [auto|]. apply released_not_await. discriminate.
    + assert (Hn1 : i ∉ MemoryStreamQueue.handlers q).
      { intros Hin. apply (proj2 I1) in Hin. rewrite Hi in Hin. cbn in Hin. congruence. }
      assert (Hn2 : i ∉ MemoryStreamQueue.abortHandlers q).
      { intros Hin. apply (proj2 I2) in Hin. rewrite Hi in Hin. cbn in Hin. congruence. }
      revert Heq.
      unfold MemoryStreamQueue.loop, MemoryStreamQueue.finish, loopHead.
      cbn [MemoryStreamQueue.aborted MemoryStreamQueue.set_handlers
           MemoryStreamQueue.handlers MemoryStreamQueue.abortHandlers].
      rewrite Ha.
      destruct (isStreamEnded tl); cbn [negb andb].
      * intros Heq. injection Heq as _ <-. unfold MemoryInv. cbn.
        rewrite !filter_snoc_same by assumption. rewrite Ha.
        split; [eapply registered_keep; [exact Hi|rewrite Hnr; reflexivity|exact I1]|].
        split; [eapply registered_keep; [exact Hi|rewrite Hnr; reflexivity|exact I2]|].
        discriminate.
      * destruct (queue tl) as [|item rest]; intros Heq; injection Heq as _ <-;
          unfold MemoryInv; cbn; rewrite Ha;
          (split; [eapply registered_start; [exact Hi|exact Hnr|reflexivity|exact I1]|]);
          (split; [eapply registered_start; [exact Hi|exact Hnr|reflexivity|exact I2]|]);
          discriminate.
  - assert (Hrun : running tl = true) by (unfold running; rewrite Hph; reflexivity).
    destruct (pendingResolve tl).
    + injection Heq as _ <-. exact Hinv.
    + eapply loop_inv; eassumption.
  - assert (Hrun : running tl = true) by (unfold running; rewrite Hph; reflexivity).
    destruct (queue tl !! next).
    + injection Heq as _ <-. unfold MemoryInv. cbn.
      split; [eapply registered_keep; [exact Hi|rewrite Hrun; reflexivity|exact I1]|].
      split; [eapply registered_keep; [exact Hi|rewrite Hrun; reflexivity|exact I2]|].
      intros Ha. apply Forall_insert; [auto|]. apply released_not_await. discriminate.
    + eapply loop_inv; eassumption.
  - injection Heq as _ <-. exact Hinv.
Qed.

Lemma new_inv (id : string) (c : bool) (ttl : Z) (h : MemoryStreamQueue.Heap) :
  MemoryInv (MemoryStreamQueue.new id c ttl h).1.
Proof.
  unfold MemoryInv. cbn.
  assert (Hreg : registered [] ([] : list Tail)).
  { split; [apply NoDup_nil_2|]. intros i. split; [intros Hin; inversion Hin|].
    rewrite lookup_nil. discriminate. }
  split; [exact Hreg|]. split; [exact Hreg|]. intros _. constructor.
Qed.

Lemma memory_step_inv (a : Action) (s : MemorySystem.t) :
  MemoryInv (MemorySystem.q s) -> MemoryInv (MemorySystem.q (MemorySystem.step a s)).
Proof.
  intros Hinv. destruct a as [item| | | |toId ttl| |i|i|i k|i|i];
    cbn [MemorySystem.step].
  - destruct (push_like item (MemorySystem.q s) (MemorySystem.heap s)) as (_ & _ & I).
    destruct (MemoryStreamQueue.push item (MemorySystem.q s) (MemorySystem.heap s)).
    cbn in *. auto.
  - exact Hinv.
  - exact Hinv.
  - destruct (cancel_like (MemorySystem.q s) (MemorySystem.heap s)) as (_ & _ & I).
    destruct (MemoryStreamQueue.cancel (MemorySystem.q s) (MemorySystem.heap s)).
    cbn in *. auto.
  - exact Hinv.
  - destruct Hinv as (I1 & I2 & I3). unfold MemoryInv. cbn.
    split; [apply registered_snoc; [reflexivity|exact I1]|].
    split; [apply registered_snoc; [reflexivity|exact I2]|].
    intros Ha. apply Forall_app. split; [auto|]. constructor; [|constructor].
    apply released_not_await. discriminate.
  - destruct (MemoryStreamQueue.onDataReceive_next i (MemorySystem.q s))
      as [[r q']|] eqn:Hn; [|exact Hinv].
    cbn. eapply next_inv; eassumption.
  - exact Hinv.
  - destruct (handleData_decoded_like i k (MemorySystem.q s) (MemorySystem.heap s))
      as (_ & _ & I).
    destruct (MemoryStreamQueue.handleData_decoded i k
                (MemorySystem.q s) (MemorySystem.heap s)).
    cbn in *. auto.
  - cbn. apply (cancelLike_update_tail i afterCancel tailStep_afterCancel
                  (MemorySystem.q s) (MemorySystem.heap s)). exact Hinv.
  - cbn. apply (cancelLike_update_tail i onTimeout tailStep_onTimeout
                  (MemorySystem.q s) (MemorySystem.heap s)). exact Hinv.
Qed.

Lemma memory_run_inv (acts : list Action) :
  forall s : MemorySystem.t,
  MemoryInv (MemorySystem.q s) -> MemoryInv (MemorySystem.q (MemorySystem.run acts s)).
Proof.
  induction acts as [|a acts IH]; intros s Hinv; [exact Hinv|].
  apply IH. apply memory_step_inv. exact Hinv.
Qed.

Lemma memory_reachable_inv (id : string) (c : bool) (ttl : Z) (acts : list Action) :
  MemoryInv (MemorySystem.q (MemorySystem.run acts (MemorySystem.init id c ttl))).
Proof. apply memory_run_inv. apply (new_inv id c ttl []). Qed.

(** What a step keeps of the queue object: its [compressMessages], and
    that [data] refers to an array of the heap. *)
Lemma memory_step_dataValid (a : Action) (s : MemorySystem.t) :
  MemorySystem.dataValid s ->
  MemorySystem.dataValid (MemorySystem.step a s)
  /\ MemoryStreamQueue.compressMessages (MemorySystem.q (MemorySystem.step a s))
     = MemoryStreamQueue.compressMessages (MemorySystem.q s).
Proof.
  unfold MemorySystem.dataValid. intros Hv.
  assert (Hlike : forall k, cancelLike k ->
            (MemoryStreamQueue.data (k (MemorySystem.q s) (MemorySystem.heap s)).1
             < List.length (k (MemorySystem.q s) (MemorySystem.heap s)).2)%nat
            /\ MemoryStreamQueue.compressMessages
                 (k (MemorySystem.q s) (MemorySystem.heap s)).1
               = MemoryStreamQueue.compressMessages (MemorySystem.q s)).
  { intros k Hk.
    destruct (Hk (MemorySystem.q s) (MemorySystem.heap s))
      as ((_ & Hc & _ & Hd & _) & Happ & _).
    rewrite Hd, (appended_length _ _ _ Happ). auto. }
  destruct a as [item| | | |toId ttl| |i|i|i k|i|i]; cbn [MemorySystem.step].
  - specialize (Hlike _ (push_like item)).
    destruct (MemoryStreamQueue.push item (MemorySystem.q s) (MemorySystem.heap s)).
    exact Hlike.
  - auto.
  - cbn. rewrite length_app. cbn. split; [lia|reflexivity].
  - specialize (Hlike _ cancel_like).
    destruct (MemoryStreamQueue.cancel (MemorySystem.q s) (MemorySystem.heap s)).
    exact Hlike.
  - cbn. rewrite length_app. cbn. split; [lia|reflexivity].
  - cbn. auto.
  - destruct (MemoryStreamQueue.onDataReceive_next i (MemorySystem.q s))
      as [[r q']|] eqn:Hn; [|auto].
    destruct (next_fields _ _ _ _ Hn) as (_ & Hc & _ & Hd & _).
    cbn. rewrite Hd. auto.
  - auto.
  - specialize (Hlike _ (handleData_decoded_like i k)).
    destruct (MemoryStreamQueue.handleData_decoded i k
                (MemorySystem.q s) (MemorySystem.heap s)).
    exact Hlike.
  - cbn. auto.
  - cbn. auto.
Qed.

Lemma memory_run_dataValid (acts : list Action) :
  forall s : MemorySystem.t,
  MemorySystem.dataValid s ->
  MemorySystem.dataValid (MemorySystem.run acts s)
  /\ MemoryStreamQueue.compressMessages (MemorySystem.q (MemorySystem.run acts s))
     = MemoryStreamQueue.compressMessages (MemorySystem.q s).
Proof.
  induction acts as [|a acts IH]; intros s Hv; [auto|].
  cbn [MemorySystem.run foldl].
  destruct (memory_step_dataValid a s Hv) as [Hv' Hc'].
  destruct (IH _ Hv') as [Hv'' Hc'']. fold (MemorySystem.run acts (MemorySystem.step a s)).
  split; [exact Hv''|]. rewrite Hc''. exact Hc'.
Qed.

Lemma memory_reachable_dataValid (id : string) (c : bool) (ttl : Z)
    (acts : list Action) :
  MemorySystem.dataValid (MemorySystem.run acts (MemorySystem.init id c ttl))
  /\ MemoryStreamQueue.compressMessages
       (MemorySystem.q (MemorySystem.run acts (MemorySystem.init id c ttl))) = c.
Proof.
  destruct (memory_run_dataValid acts (MemorySystem.init id c ttl)) as [Hv Hc].
  - unfold MemorySystem.dataValid. cbn. lia.
  - split; [exact Hv|]. rewrite Hc. reflexivity.
Qed.
End MemoryReachable.

(** ** The nested calls of cancel() *)

Section NestedCalls.
Context `{Serializer}.



(** A handler that is handed a message which is no [__stream_cancel__]
    event does not call [cancel()]. *)
Lemma emit_nested_plain
    (kn : MemoryStreamQueue.t -> MemoryStreamQueue.Heap
          -> option (MemoryStreamQueue.t * MemoryStreamQueue.Heap))
    (k : MemoryStreamQueue.t -> MemoryStreamQueue.Heap
         -> MemoryStreamQueue.t * MemoryStreamQueue.Heap)
    (d : Item) (q : MemoryStreamQueue.t) (h : MemoryStreamQueue.Heap) :
  item_is_cancel d = false ->
  MemoryStreamQueue.emit_nested kn d q h = Some (MemoryStreamQueue.emit_with k d q h).
Proof.
  intros Hd. unfold MemoryStreamQueue.emit_nested, MemoryStreamQueue.emit_with.
  generalize (MemoryStreamQueue.set_emitted (MemoryStreamQueue.emitted q ++ [d]) q).
  generalize h. induction (MemoryStreamQueue.handlers q) as [|i hs IH];
    intros h0 q0; [reflexivity|].
  cbn [foldl fst snd].
  unfold MemoryStreamQueue.handleData_nested at 2,
    MemoryStreamQueue.handleData_body_nested.
  unfold MemoryStreamQueue.handleData_with at 2,
    MemoryStreamQueue.handleData_body_with.
  rewrite Hd. destruct (MemoryStreamQueue.compressMessages q0); apply IH.
Qed.

(** Handlers whose calls of [cancel()] return. *)
Lemma emit_nested_returns
    (kn : MemoryStreamQueue.t -> MemoryStreamQueue.Heap
          -> option (MemoryStreamQueue.t * MemoryStreamQueue.Heap))
    (k : MemoryStreamQueue.t -> MemoryStreamQueue.Heap
         -> MemoryStreamQueue.t * MemoryStreamQueue.Heap)
    (d : Item) (q : MemoryStreamQueue.t) (h : MemoryStreamQueue.Heap) :
  (forall q' h', kn q' h' = Some (k q' h')) ->
  MemoryStreamQueue.emit_nested kn d q h = Some (MemoryStreamQueue.emit_with k d q h).
Proof.
  intros Hk. unfold MemoryStreamQueue.emit_nested, MemoryStreamQueue.emit_with.
  generalize (MemoryStreamQueue.set_emitted (MemoryStreamQueue.emitted q ++ [d]) q).
  generalize h. induction (MemoryStreamQueue.handlers q) as [|i hs IH];
    intros h0 q0; [reflexivity|].
  cbn [foldl fst snd].
  unfold MemoryStreamQueue.handleData_nested at 2,
    MemoryStreamQueue.handleData_body_nested.
  unfold MemoryStreamQueue.handleData_with at 2,
    MemoryStreamQueue.handleData_body_with.
  destruct (MemoryStreamQueue.compressMessages q0); [apply IH|].
  destruct (item_is_cancel d); [|apply IH].
  rewrite Hk.
  destruct (k (MemoryStreamQueue.update_tail i (bufferItem d) q0) h0) as [q2 h2].
  apply IH.
Qed.

Section WithMarker.
Context `{CancelMarker}.

Lemma marker_not_cancel (c : bool) :
  item_is_cancel (if c then Enc (encodeData CancelEventMessage)
                  else Raw CancelEventMessage) = false.
Proof. destruct c; [reflexivity|]. cbn. apply CancelEventMessage_event. Qed.

(** With a cancel message that the handlers do not take for
    [__stream_cancel__], the nested calls end at depth one: [cancel] and
    [push] are what the calls of the source return. *)
Lemma cancel_nested_returns (fuel : nat) (q : MemoryStreamQueue.t)
    (h : MemoryStreamQueue.Heap) :
  MemoryStreamQueue.cancel_nested CancelEventMessage (S fuel) q h
  = Some (MemoryStreamQueue.cancel q h).
Proof.
  cbn [MemoryStreamQueue.cancel_nested].
  unfold MemoryStreamQueue.push_nested, MemoryStreamQueue.cancel,
    MemoryStreamQueue.push_with.
  apply emit_nested_plain, marker_not_cancel.
Qed.

Lemma push_nested_returns (fuel : nat) (item : EventMessage)
    (q : MemoryStreamQueue.t) (h : MemoryStreamQueue.Heap) :
  MemoryStreamQueue.push_nested
    (MemoryStreamQueue.cancel_nested CancelEventMessage (S fuel)) item q h
  = Some (MemoryStreamQueue.push item q h).
Proof.
  unfold MemoryStreamQueue.push_nested, MemoryStreamQueue.push,
    MemoryStreamQueue.push_with.
  apply emit_nested_returns. intros q' h'. apply cancel_nested_returns.
Qed.
End WithMarker.
End NestedCalls.

(** ** Copying a queue *)

Section CopyProperties.
Context `{Serializer} `{CancelMarker}.

Lemma decodeData_encodeData (m : EventMessage) :
  loadsTyped (dumpsTyped m) = Some m -> decodeData (encodeData m) = Ok m.
Proof. intros Hrt. unfold decodeData, encodeData. rewrite Hrt. reflexivity. Qed.

(** C1 (memory queue): [copyToQueue] hands the source's [data] array itself
    to the new queue.  After pushing [a], [b], [c], copying, then pushing
    [d] to the source and [e] to the copy, [getAll()] returns
    [a, b, c, d, e] on the source and on the copy alike: neither
    [a, b, c, d] nor [a, b, c, e].  This holds for either value of
    [compressMessages], the serializer being reversible. *)
Theorem C1_memory_copy_aliases_source (compressMessages : bool)
    (fromId toId : string) (a b c d e : EventMessage) :
  (forall m, loadsTyped (dumpsTyped m) = Some m) ->
  memoryCopyScenario compressMessages fromId toId a b c d e
  = (Ok [Raw a; Raw b; Raw c; Raw d; Raw e],
     Ok [Raw a; Raw b; Raw c; Raw d; Raw e]).
Proof.
  intros Hrt. destruct compressMessages.
  - unfold memoryCopyScenario, MemoryStreamQueue.getAll. simpl.
    rewrite !decodeData_encodeData by apply Hrt. reflexivity.
  - reflexivity.
Qed.

Lemma queueKey_inj (x y : string) :
  ("queue:" +:+ x)%string = ("queue:" +:+ y)%string -> x = y.
Proof. simpl. intros Heq. injection Heq. auto. Qed.

Lemma redis_empty_lookup (k : string) : Redis.lists Redis.empty !! k = None.
Proof. apply lookup_empty. Qed.

Lemma redis_push_lookup (m : EventMessage) (q : RedisStreamQueue.t) (s : Redis.t) :
  let st := RedisStreamQueue.push m q s in
  Redis.lists st.2 !! RedisStreamQueue.queueKey q
  = Some (Redis.lRange_all (RedisStreamQueue.queueKey q) s ++ [encodeData m])
  /\ (forall k, k <> RedisStreamQueue.queueKey q ->
        Redis.lists st.2 !! k = Redis.lists s !! k)
  /\ RedisStreamQueue.queueKey st.1 = RedisStreamQueue.queueKey q
  /\ RedisStreamQueue.compressMessages st.1 = RedisStreamQueue.compressMessages q.
Proof.
  unfold RedisStreamQueue.push, Redis.publish, Redis.expire, Redis.rPush,
    Redis.lRange_all.
  cbn [fst snd Redis.lists RedisStreamQueue.queueKey RedisStreamQueue.emit
       RedisStreamQueue.set_emitted RedisStreamQueue.compressMessages].
  rewrite lookup_insert_eq.
  cbn [fst snd Redis.lists].
  rewrite lookup_insert_eq.
  split; [reflexivity|]. split; [|auto].
  intros k Hne. rewrite lookup_insert_ne by congruence. reflexivity.
Qed.

Lemma redis_copyToQueue_lookup (toId : string) (ttl' : option Z)
    (q : RedisStreamQueue.t) (s : Redis.t) (l : list Bytes) :
  Redis.lists s !! RedisStreamQueue.queueKey q = Some l ->
  Redis.lists s !! ("queue:" +:+ toId)%string = None ->
  let st := RedisStreamQueue.copyToQueue toId ttl' q s in
  Redis.lists st.2 !! ("queue:" +:+ toId)%string = Some l
  /\ (forall k, k <> ("queue:" +:+ toId)%string ->
        Redis.lists st.2 !! k = Redis.lists s !! k)
  /\ RedisStreamQueue.queueKey st.1 = ("queue:" +:+ toId)%string
  /\ RedisStreamQueue.compressMessages st.1 = RedisStreamQueue.compressMessages q.
Proof.
  intros Hsrc Hdst.
  unfold RedisStreamQueue.copyToQueue, RedisStreamQueue.new, Redis.copy,
    Redis.expire.
  cbn [fst snd RedisStreamQueue.queueKey RedisStreamQueue.compressMessages
       base_id base_compressMessages base_ttl].
  rewrite Hsrc, Hdst.
  cbn [Redis.lists]. rewrite lookup_insert_eq. cbn [Redis.lists].
  rewrite lookup_insert_eq.
  split; [reflexivity|]. split; [|auto].
  intros k Hne. rewrite lookup_insert_ne by congruence. reflexivity.
Qed.

(** The Redis queue copies the list on the server: there the two logs are
    independent, as the specification asks. *)
Lemma redis_copy_independent (fromId toId : string) (a b c d e : EventMessage) :
  fromId <> toId ->
  (forall m, loadsTyped (dumpsTyped m) = Some m) ->
  redisCopyScenario true fromId toId a b c d e = (Ok [a; b; c; d], Ok [a; b; c; e]).
Proof.
  intros Hne Hrt.
  set (kf := ("queue:" +:+ fromId)%string).
  set (kt := ("queue:" +:+ toId)%string).
  assert (Hk : kt <> kf)
    by (intros Heq; apply Hne; symmetry; apply queueKey_inj, Heq).
  unfold redisCopyScenario.
  set (q0 := RedisStreamQueue.new fromId true 300%Z).
  assert (Hq0 : RedisStreamQueue.queueKey q0 = kf) by reflexivity.
  pose proof (redis_push_lookup a q0 Redis.empty) as (H1 & O1 & K1 & C1).
  destruct (RedisStreamQueue.push a q0 Redis.empty) as [q1 s1].
  cbn [fst snd] in *. rewrite Hq0 in *.
  unfold Redis.lRange_all in H1. rewrite (redis_empty_lookup kf) in H1.
  pose proof (redis_push_lookup b q1 s1) as (H2 & O2 & K2 & C2).
  destruct (RedisStreamQueue.push b q1 s1) as [q2 s2].
  cbn [fst snd] in *. rewrite K1 in *.
  unfold Redis.lRange_all in H2. rewrite H1 in H2.
  pose proof (redis_push_lookup c q2 s2) as (H3 & O3 & K3 & C3).
  destruct (RedisStreamQueue.push c q2 s2) as [q3 s3].
  cbn [fst snd] in *. rewrite K2 in *.
  unfold Redis.lRange_all in H3. rewrite H2 in H3.
  assert (Hkt3 : Redis.lists s3 !! kt = None).
  { rewrite O3, O2, O1 by exact Hk. apply redis_empty_lookup. }
  rewrite <- K3 in H3.
  pose proof (redis_copyToQueue_lookup toId None q3 s3 _ H3 Hkt3)
    as (H4 & O4 & K4 & C4).
  destruct (RedisStreamQueue.copyToQueue toId None q3 s3) as [cpy s4].
  cbn [fst snd] in *. fold kt in H4, O4, K4. rewrite K3 in H3.
  pose proof (redis_push_lookup d q3 s4) as (H5 & O5 & K5 & C5).
  destruct (RedisStreamQueue.push d q3 s4) as [q5 s5].
  cbn [fst snd] in *. rewrite K3 in *.
  unfold Redis.lRange_all in H5. rewrite (O4 kf) in H5 by congruence.
  rewrite H3 in H5.
  pose proof (redis_push_lookup e cpy s5) as (H6 & O6 & K6 & C6).
  destruct (RedisStreamQueue.push e cpy s5) as [q6 s6].
  cbn [fst snd] in *. rewrite K4 in *.
  unfold Redis.lRange_all in H6. rewrite (O5 kt) in H6 by exact Hk.
  rewrite H4 in H6.
  unfold RedisStreamQueue.getAll, Redis.lRange_all.
  rewrite K5, K6, C5, C6, C4, C3, C2, C1.
  rewrite (O6 kf) by congruence. rewrite H5, H6.
  simpl.
  rewrite !decodeData_encodeData by apply Hrt.
  reflexivity.
Qed.
End CopyProperties.

Section CopySample.
#[local] Existing Instance jsonSerializer.
#[local] Existing Instance systemCancel.

(** The copy scenario on a compressing queue with the JSON serializer. *)
Lemma C1_memory_copy_aliases_source_witness :
  memoryCopyScenario true "run-1" "run-2"
    (token "a") (token "b") (token "c") (token "d") (token "e")
  = (Ok [Raw (token "a"); Raw (token "b"); Raw (token "c"); Raw (token "d");
         Raw (token "e")],
     Ok [Raw (token "a"); Raw (token "b"); Raw (token "c"); Raw (token "d");
         Raw (token "e")]).
Proof.
  apply (C1_memory_copy_aliases_source true).
  intros m. reflexivity.
Defined.
End CopySample.

(** ** Append order is read order *)

Section FifoProperties.
Context `{Serializer} `{CancelMarker}.

Lemma memory_new_data (id : string) (c : bool) (ttl : Z)
    (h0 : MemoryStreamQueue.Heap) :
  let st := MemoryStreamQueue.new id c ttl h0 in
  (MemoryStreamQueue.data st.1 < List.length st.2)%nat
  /\ MemoryStreamQueue.array_read (MemoryStreamQueue.data st.1) st.2 = []
  /\ MemoryStreamQueue.compressMessages st.1 = c
  /\ MemoryStreamQueue.aborted st.1 = false
  /\ MemoryStreamQueue.handlers st.1 = [].
Proof.
  unfold MemoryStreamQueue.new, MemoryStreamQueue.alloc,
    MemoryStreamQueue.array_read; simpl.
  rewrite length_app; simpl. split; [lia|].
  rewrite lookup_app_r by lia. rewrite Nat.sub_diag. auto.
Qed.

Lemma array_read_push (r : nat) (x : Item) (h : MemoryStreamQueue.Heap) :
  (r < List.length h)%nat ->
  MemoryStreamQueue.array_read r (MemoryStreamQueue.array_push r x h)
  = MemoryStreamQueue.array_read r h ++ [x].
Proof.
  intros Hlt. unfold MemoryStreamQueue.array_push, MemoryStreamQueue.array_read.
  rewrite list_lookup_alter_eq.
  destruct (lookup_lt_is_Some_2 h _ Hlt) as [arr Harr].
  rewrite Harr. reflexivity.
Qed.

Lemma array_read_appended (r : nat) (added : list Item) (h : MemoryStreamQueue.Heap) :
  (r < List.length h)%nat ->
  MemoryStreamQueue.array_read r (alter (fun arr => arr ++ added) r h)
  = MemoryStreamQueue.array_read r h ++ added.
Proof.
  intros Hlt. unfold MemoryStreamQueue.array_read.
  rewrite list_lookup_alter_eq.
  destruct (lookup_lt_is_Some_2 h _ Hlt) as [arr Harr].
  rewrite Harr. reflexivity.
Qed.

(** With no handler to call, or with handlers that do not call
    [cancel()], [push] appends one entry. *)
Lemma push_heap_plain (m : EventMessage) (q : MemoryStreamQueue.t)
    (h : MemoryStreamQueue.Heap) :
  MemoryStreamQueue.handlers q = []
  \/ MemoryStreamQueue.compressMessages q = true
  \/ is_cancel_event (event m) = false ->
  (MemoryStreamQueue.push m q h).2
  = MemoryStreamQueue.array_push (MemoryStreamQueue.data q)
      (memoryStored (MemoryStreamQueue.compressMessages q) m) h.
Proof.
  intros [Hnil|Hplain].
  - unfold MemoryStreamQueue.push, MemoryStreamQueue.push_with,
      MemoryStreamQueue.emit_with. rewrite Hnil. reflexivity.
  - unfold MemoryStreamQueue.push, MemoryStreamQueue.push_with.
    rewrite emit_with_plain; [reflexivity|].
    destruct Hplain as [Hc|Hn]; [left; exact Hc|].
    destruct (MemoryStreamQueue.compressMessages q); [left; reflexivity|right; exact Hn].
Qed.

Lemma memory_push_read (m : EventMessage) (q : MemoryStreamQueue.t)
    (h : MemoryStreamQueue.Heap) :
  MemoryStreamQueue.handlers q = []
  \/ MemoryStreamQueue.compressMessages q = true
  \/ is_cancel_event (event m) = false ->
  (MemoryStreamQueue.data q < List.length h)%nat ->
  let st := MemoryStreamQueue.push m q h in
  MemoryStreamQueue.array_read (MemoryStreamQueue.data q) st.2
  = MemoryStreamQueue.array_read (MemoryStreamQueue.data q) h
    ++ [memoryStored (MemoryStreamQueue.compressMessages q) m]
  /\ MemoryStreamQueue.data st.1 = MemoryStreamQueue.data q
  /\ MemoryStreamQueue.compressMessages st.1 = MemoryStreamQueue.compressMessages q
  /\ MemoryStreamQueue.handlers st.1 = MemoryStreamQueue.handlers q
  /\ List.length st.2 = List.length h.
Proof.
  intros Hplain Hlt st.
  destruct (push_like m q h) as ((_ & Hc & _ & Hd & Hh & _) & Happ & _).
  fold st in Hc, Hd, Hh, Happ.
  split; [|split; [exact Hd|split; [exact Hc|split; [exact Hh|]]]].
  - subst st. rewrite push_heap_plain by exact Hplain.
    apply array_read_push. exact Hlt.
  - apply (appended_length _ _ _ Happ).
Qed.


Lemma mapR_decodeItem_stored (ms : list EventMessage) :
  (forall m, loadsTyped (dumpsTyped m) = Some m) ->
  mapR decodeItem (map (memoryStored true) ms) = Ok (map Raw ms).
Proof.
  intros Hrt. induction ms as [|m ms IH]; simpl; [reflexivity|].
  rewrite decodeData_encodeData by apply Hrt. simpl. rewrite IH. reflexivity.
Qed.


Lemma redis_push_fields (m : EventMessage) (q : RedisStreamQueue.t) (s : Redis.t) :
  let st := RedisStreamQueue.push m q s in
  Redis.lRange_all (RedisStreamQueue.queueKey q) st.2
  = Redis.lRange_all (RedisStreamQueue.queueKey q) s ++ [encodeData m]
  /\ RedisStreamQueue.queueKey st.1 = RedisStreamQueue.queueKey q
  /\ RedisStreamQueue.compressMessages st.1 = RedisStreamQueue.compressMessages q
  /\ RedisStreamQueue.aborted st.1 = RedisStreamQueue.aborted q.
Proof.
  unfold RedisStreamQueue.push, Redis.publish, Redis.expire, Redis.rPush,
    Redis.lRange_all; simpl.
  rewrite lookup_insert_eq; simpl. rewrite lookup_insert_eq; simpl. auto.
Qed.

Lemma redisPushAll_read (ms : list EventMessage) :
  forall (q : RedisStreamQueue.t) (s : Redis.t),
  let st := redisPushAll ms q s in
  Redis.lRange_all (RedisStreamQueue.queueKey q) st.2
  = Redis.lRange_all (RedisStreamQueue.queueKey q) s ++ map encodeData ms
  /\ RedisStreamQueue.queueKey st.1 = RedisStreamQueue.queueKey q
  /\ RedisStreamQueue.compressMessages st.1 = RedisStreamQueue.compressMessages q.
Proof.
  induction ms as [|m ms IH]; intros q s; simpl.
  - rewrite app_nil_r. auto.
  - destruct (redis_push_fields m q s) as (Hr & Hk & Hc & _).
    unfold redisPushAll in *; simpl.
    destruct (RedisStreamQueue.push m q s) as [q1 s1]; simpl in *.
    destruct (IH q1 s1) as (Hr' & Hk' & Hc').
    rewrite Hk in Hr', Hk'. rewrite Hc in Hc'.
    rewrite Hr', Hr, <- app_assoc. auto.
Qed.

Lemma mapR_decodeData_encodeData (ms : list EventMessage) :
  (forall m, loadsTyped (dumpsTyped m) = Some m) ->
  mapR decodeData (map encodeData ms) = Ok ms.
Proof.
  intros Hrt. induction ms as [|m ms IH]; simpl; [reflexivity|].
  rewrite decodeData_encodeData by apply Hrt. simpl. rewrite IH. reflexivity.
Qed.

Lemma mapR_parseJSON_encodeData (ms : list EventMessage) :
  (forall m, In m ms -> JSON_parse (dumpsTyped m) = Some m) ->
  mapR RedisStreamQueue.parseJSON (map encodeData ms) = Ok ms.
Proof.
  induction ms as [|m ms IH]; intros Hjs; simpl; [reflexivity|].
  unfold RedisStreamQueue.parseJSON at 1, encodeData at 1.
  rewrite Hjs by (left; reflexivity). simpl.
  rewrite IH by (intros; apply Hjs; right; assumption). reflexivity.
Qed.

Lemma mapR_parseJSON_encodeData_inv (ms : list EventMessage) :
  mapR RedisStreamQueue.parseJSON (map encodeData ms) = Ok ms ->
  forall m, In m ms -> JSON_parse (dumpsTyped m) = Some m.
Proof.
  induction ms as [|m0 ms IH]; intros Hall m Hin; [destruct Hin|].
  simpl in Hall. unfold RedisStreamQueue.parseJSON at 1, encodeData at 1 in Hall.
  destruct (JSON_parse (dumpsTyped m0)) as [m0'|] eqn:Hp; simpl in Hall;
    [|discriminate Hall].
  destruct (mapR RedisStreamQueue.parseJSON (map encodeData ms)) as [ms'|err]
    eqn:Hrest; simpl in Hall; [|discriminate Hall].
  injection Hall as Hhd Htl. subst m0' ms'.
  destruct Hin as [<-|Hin]; [exact Hp|]. apply IH; [reflexivity|exact Hin].
Qed.

(** What [getAll()] of a Redis queue returns after [ms] were pushed to a
    new queue whose key held no list. *)
Lemma redis_getAll_pushAll (id : string) (c : bool) (ttl : Z) (s0 : Redis.t)
    (ms : list EventMessage) :
  Redis.lists s0 !! ("queue:" +:+ id)%string = None ->
  let '(q, s) := redisPushAll ms (RedisStreamQueue.new id c ttl) s0 in
  RedisStreamQueue.getAll q s
  = if c then mapR decodeData (map encodeData ms)
    else mapR RedisStreamQueue.parseJSON (map encodeData ms).
Proof.
  intros Hfresh.
  pose proof (redisPushAll_read ms (RedisStreamQueue.new id c ttl) s0)
    as (Hr & Hk & Hc).
  destruct (redisPushAll ms (RedisStreamQueue.new id c ttl) s0) as [q s].
  simpl in Hr, Hk, Hc.
  unfold RedisStreamQueue.getAll. rewrite Hk, Hc, Hr.
  unfold Redis.lRange_all. rewrite Hfresh. simpl.
  destruct ms; simpl; [destruct c|]; reflexivity.
Qed.
End FifoProperties.

Section FifoClaim.
Context `{Serializer} `{CancelMarker}.


(** On the Redis queue with [compressMessages] false the second
    assumption is needed: [getAll()] returns the pushed messages exactly
    when [JSON.parse] inverts the encoding of each of them. *)
Lemma redis_getAll_uncompressed (id : string) (ttl : Z) (ms : list EventMessage)
    (s0 : Redis.t) :
  Redis.lists s0 !! ("queue:" +:+ id)%string = None ->
  let '(q, s) := redisPushAll ms (RedisStreamQueue.new id false ttl) s0 in
  RedisStreamQueue.getAll q s = Ok ms
  <-> forall m, In m ms -> JSON_parse (dumpsTyped m) = Some m.
Proof.
  intros Hfresh.
  pose proof (redis_getAll_pushAll id false ttl s0 ms Hfresh) as Hg.
  destruct (redisPushAll ms (RedisStreamQueue.new id false ttl) s0) as [q s].
  rewrite Hg. split.
  - apply mapR_parseJSON_encodeData_inv.
  - apply mapR_parseJSON_encodeData.
Qed.
End FifoClaim.

Section FifoSample.
#[local] Existing Instance jsonSerializer.
#[local] Existing Instance systemCancel.

End FifoSample.

(** ** The cancellation signal *)

Section SignalProperties.
Context `{Serializer} `{CancelMarker}.

Lemma memory_step_signal (a : Action) (s : MemorySystem.t) :
  MemorySystem.signalSet s = true ->
  MemorySystem.signalSet (MemorySystem.step a s) = true.
Proof.
  unfold MemorySystem.signalSet. intros Hs.
  destruct a as [item| | | |toId ttl| |i|i|i k|i|i]; cbn [MemorySystem.step].
  - destruct (push_like item (MemorySystem.q s) (MemorySystem.heap s))
      as ((_ & _ & _ & _ & _ & _ & Ha & _) & _).
    destruct (MemoryStreamQueue.push item (MemorySystem.q s) (MemorySystem.heap s)).
    cbn in *. auto.
  - exact Hs.
  - exact Hs.
  - pose proof (cancel_aborted (MemorySystem.q s) (MemorySystem.heap s)) as Ha.
    destruct (MemoryStreamQueue.cancel (MemorySystem.q s) (MemorySystem.heap s)).
    exact Ha.
  - exact Hs.
  - exact Hs.
  - destruct (MemoryStreamQueue.onDataReceive_next i (MemorySystem.q s))
      as [[r q']|] eqn:Hn; [|exact Hs].
    cbn. destruct (next_fields _ _ _ _ Hn) as (_ & _ & _ & _ & Ha & _).
    rewrite Ha. exact Hs.
  - exact Hs.
  - destruct (handleData_decoded_like i k (MemorySystem.q s) (MemorySystem.heap s))
      as ((_ & _ & _ & _ & _ & _ & Ha & _) & _).
    destruct (MemoryStreamQueue.handleData_decoded i k
                (MemorySystem.q s) (MemorySystem.heap s)).
    cbn in *. auto.
  - exact Hs.
  - exact Hs.
Qed.

Lemma memory_run_signal (acts : list Action) :
  forall s : MemorySystem.t,
  MemorySystem.signalSet s = true ->
  MemorySystem.signalSet (MemorySystem.run acts s) = true.
Proof.
  induction acts as [|a acts IH]; intros s Hs; [exact Hs|].
  apply IH, memory_step_signal, Hs.
Qed.

Lemma redis_next_aborted (q : RedisStreamQueue.t) (s : Redis.t) (tl : Tail) :
  RedisStreamQueue.aborted (RedisStreamQueue.onDataReceive_next q s tl).1.1.2
  = RedisStreamQueue.aborted q.
Proof.
  unfold RedisStreamQueue.onDataReceive_next, RedisStreamQueue.loop,
    RedisStreamQueue.finish.
  destruct (phase tl); cbn.
  - destruct (RedisStreamQueue.aborted q) eqn:Ha; cbn; [exact Ha|].
    match goal with |- context [loopHead ?b ?t] => destruct (loopHead b t) end;
      cbn; exact Ha.
  - destruct (pendingResolve tl); [reflexivity|].
    destruct (loopHead (RedisStreamQueue.aborted q) tl); reflexivity.
  - destruct (queue tl !! next); [reflexivity|].
    destruct (loopHead (RedisStreamQueue.aborted q) (set_queue [] tl)); reflexivity.
  - reflexivity.
Qed.

(** A call of [handleMessage] that goes on after the decoding sets the
    signal when it was given a [__stream_cancel__] event, and only then. *)
Lemma redis_handleMessage_aborted (k : nat) (q : RedisStreamQueue.t) (s : Redis.t)
    (tl : Tail) :
  RedisStreamQueue.aborted (RedisStreamQueue.handleMessage k q s tl).1.1
  = RedisStreamQueue.aborted q || cancelEventAt k (Some tl).
Proof.
  unfold RedisStreamQueue.handleMessage, cancelEventAt, decodedAt. cbn.
  destruct (decoding tl !! k) as [item|]; cbn; [|rewrite orb_false_r; reflexivity].
  destruct (decodeItem item) as [d|e]; cbn; [|rewrite orb_false_r; reflexivity].
  destruct (item_is_cancel d); cbn.
  - rewrite orb_true_r. reflexivity.
  - rewrite orb_false_r. reflexivity.
Qed.

Lemma redis_step_signal (a : Action) (s : RedisSystem.t) :
  RedisSystem.signalSet s = true ->
  RedisSystem.signalSet (RedisSystem.step a s) = true.
Proof.
  unfold RedisSystem.signalSet. intros Hs.
  destruct a as [item| | | |toId ttl| |i|i|i k|i|i]; cbn [RedisSystem.step].
  - exact Hs.
  - exact Hs.
  - unfold RedisStreamQueue.clear. destruct (RedisStreamQueue.isConnected _); exact Hs.
  - reflexivity.
  - exact Hs.
  - exact Hs.
  - destruct (RedisSystem.tails s !! i) as [tl|]; [|exact Hs].
    pose proof (redis_next_aborted (RedisSystem.q s) (RedisSystem.store s) tl) as Ha.
    destruct (RedisStreamQueue.onDataReceive_next _ _ tl) as [[[r q'] st'] tl'].
    cbn in *. rewrite Ha. exact Hs.
  - exact Hs.
  - destruct (RedisSystem.tails s !! i) as [tl|]; [|exact Hs].
    pose proof (redis_handleMessage_aborted k (RedisSystem.q s) (RedisSystem.store s) tl)
      as Ha.
    destruct (RedisStreamQueue.handleMessage k _ _ tl) as [[q' st'] tl'].
    cbn in *. rewrite Ha, Hs. reflexivity.
  - exact Hs.
  - exact Hs.
Qed.

Lemma redis_run_signal (acts : list Action) :
  forall s : RedisSystem.t,
  RedisSystem.signalSet s = true ->
  RedisSystem.signalSet (RedisSystem.run acts s) = true.
Proof.
  induction acts as [|a acts IH]; intros s Hs; [exact Hs|].
  apply IH, redis_step_signal, Hs.
Qed.

(** Once set, the signal stays set (both queues, any later steps). *)
Lemma signal_is_permanent (acts : list Action)
    (s : MemorySystem.t) (r : RedisSystem.t) :
  (MemorySystem.signalSet s = true ->
   MemorySystem.signalSet (MemorySystem.run acts s) = true)
  /\ (RedisSystem.signalSet r = true ->
      RedisSystem.signalSet (RedisSystem.run acts r) = true).
Proof. split; [apply memory_run_signal | apply redis_run_signal]. Qed.

(** The call of a memory handler that goes on after the decoding sets the
    signal when it was given a [__stream_cancel__] event, and only then. *)
Lemma memory_handleData_decoded_aborted (i k : nat) (q : MemoryStreamQueue.t)
    (h : MemoryStreamQueue.Heap) :
  MemoryStreamQueue.aborted (MemoryStreamQueue.handleData_decoded i k q h).1
  = MemoryStreamQueue.aborted q
    || cancelEventAt k (MemoryStreamQueue.tails q !! i).
Proof.
  unfold MemoryStreamQueue.handleData_decoded, cancelEventAt, decodedAt.
  destruct (MemoryStreamQueue.tails q !! i) as [tl|]; cbn;
    [|rewrite orb_false_r; reflexivity].
  destruct (decoding tl !! k) as [item|]; cbn; [|rewrite orb_false_r; reflexivity].
  destruct (decodeItem item) as [d|e]; cbn; [|rewrite orb_false_r; reflexivity].
  unfold MemoryStreamQueue.handleData_body, MemoryStreamQueue.handleData_body_with.
  destruct (item_is_cancel d); cbn.
  - rewrite orb_true_r.
    match goal with |- context [MemoryStreamQueue.cancel ?q1 ?h1] =>
      pose proof (cancel_aborted q1 h1) as Ha;
      destruct (MemoryStreamQueue.cancel q1 h1) end.
    cbn in *. exact Ha.
  - rewrite orb_false_r. reflexivity.
Qed.
End SignalProperties.

Section CancelSignalClaim.
Context `{Serializer} `{CancelMarker}.

(** What [push] does to the signal and to the array of a memory queue in a
    reachable state. *)
Lemma memory_push_signal_and_log (id : string) (c : bool) (ttl : Z)
    (before : list Action) (item : EventMessage) :
  let s := MemorySystem.run before (MemorySystem.init id c ttl) in
  let s' := MemorySystem.step (Push item) s in
  let handled := negb c && is_cancel_event (event item) in
  MemorySystem.signalSet s'
  = MemorySystem.signalSet s
    || (handled && negb (Nat.eqb (MemoryStreamQueue.listeners (MemorySystem.q s)) 0))
  /\ MemorySystem.stored s'
     = MemorySystem.stored s
       ++ memoryStored c item
          :: (if handled
              then replicate (MemoryStreamQueue.listeners (MemorySystem.q s))
                     (Raw CancelEventMessage)
              else []).
Proof.
  intros s s' handled.
  destruct (memory_reachable_dataValid id c ttl before) as [Hv Hc].
  pose proof (memory_reachable_inv id c ttl before) as (Hreg & _).
  fold s in Hv, Hc, Hreg. unfold MemorySystem.dataValid in Hv.
  unfold MemorySystem.signalSet, MemorySystem.stored. subst s'. clearbody s.
  cbn [MemorySystem.step].
  destruct (push_like item (MemorySystem.q s) (MemorySystem.heap s))
    as ((_ & _ & _ & Hd & _) & _).
  destruct handled eqn:Hh.
  - apply andb_true_iff in Hh as [Hc' Hev]. apply negb_true_iff in Hc'. subst c.
    destruct (push_cancel_event item (MemorySystem.q s) (MemorySystem.heap s)
                Hc' Hev) as [Hheap Hab].
    destruct (MemoryStreamQueue.push item (MemorySystem.q s) (MemorySystem.heap s))
      as [q' h']. cbn in *. split; [exact Hab|].
    rewrite Hd, Hheap. rewrite array_read_appended by exact Hv.
    rewrite Hc'. reflexivity.
  - assert (Hplain : MemoryStreamQueue.compressMessages (MemorySystem.q s) = true
                     \/ is_cancel_event (event item) = false).
    { rewrite Hc. apply andb_false_iff in Hh as [Hc'|Hev]; [left|right; exact Hev].
      apply negb_false_iff. exact Hc'. }
    pose proof (push_plain item (MemorySystem.q s) (MemorySystem.heap s) Hplain Hreg)
      as Hp. cbn zeta in Hp. rewrite Hp. cbn.
    rewrite orb_false_r. split; [reflexivity|].
    change (MemoryStreamQueue.array_read (MemoryStreamQueue.data (MemorySystem.q s))
              (MemoryStreamQueue.array_push (MemoryStreamQueue.data (MemorySystem.q s))
                 (memoryStored (MemoryStreamQueue.compressMessages (MemorySystem.q s)) item)
                 (MemorySystem.heap s))
            = MemoryStreamQueue.array_read (MemoryStreamQueue.data (MemorySystem.q s))
                (MemorySystem.heap s) ++ [memoryStored c item]).
    rewrite array_read_push by exact Hv. rewrite Hc. reflexivity.
Qed.

(** C2 (as amended).  Over all queue operations and live-tail steps, on
    both queues: [cancel()] sets the cancellation signal, and the signal is
    set in every later state.  A [push] does not look at the event it is
    given: on the Redis queue it leaves the signal as it was, and on the
    memory queue it sets the signal only through the handlers it calls,
    that is, when the event is [__stream_cancel__], the queue stores
    messages as they are and a consumer is attached; each of these handlers
    then calls [cancel()], which appends a cancel message.  Otherwise the
    signal is set by the call of a handler that goes on, after the
    decoding, with a [__stream_cancel__] event, and by no other step. *)
Theorem C2_cancel_sets_signal_for_good (id : string) (c : bool) (ttl : Z)
    (before later : list Action) (item : EventMessage) (i k : nat) (a : Action) :
  let s := MemorySystem.run before (MemorySystem.init id c ttl) in
  let r := RedisSystem.run before (RedisSystem.init id c ttl) in
  let handled := negb c && is_cancel_event (event item) in
  (* cancel() *)
  MemorySystem.signalSet (MemorySystem.run later (MemorySystem.step Cancel s)) = true
  /\ RedisSystem.signalSet (RedisSystem.run later (RedisSystem.step Cancel r)) = true
  (* push *)
  /\ (let s' := MemorySystem.step (Push item) s in
      MemorySystem.signalSet s'
      = MemorySystem.signalSet s
        || (handled
            && negb (Nat.eqb (MemoryStreamQueue.listeners (MemorySystem.q s)) 0))
      /\ MemorySystem.stored s'
         = MemorySystem.stored s
           ++ memoryStored c item
              :: (if handled
                  then replicate (MemoryStreamQueue.listeners (MemorySystem.q s))
                         (Raw CancelEventMessage)
                  else []))
  /\ (let r' := RedisSystem.step (Push item) r in
      RedisSystem.signalSet r' = RedisSystem.signalSet r
      /\ Redis.lRange_all (RedisStreamQueue.queueKey (RedisSystem.q r'))
           (RedisSystem.store r')
         = Redis.lRange_all (RedisStreamQueue.queueKey (RedisSystem.q r))
             (RedisSystem.store r)
           ++ [encodeData item])
  (* the handlers, once the message is decoded *)
  /\ MemorySystem.signalSet (MemorySystem.step (HandleData i k) s)
     = MemorySystem.signalSet s || cancelEventAt k (MemorySystem.tails s !! i)
  /\ RedisSystem.signalSet (RedisSystem.step (HandleData i k) r)
     = RedisSystem.signalSet r || cancelEventAt k (RedisSystem.tails r !! i)
  (* the other steps *)
  /\ match a with
     | Cancel | Push _ | HandleData _ _ => True
     | _ => MemorySystem.signalSet (MemorySystem.step a s) = MemorySystem.signalSet s
            /\ RedisSystem.signalSet (RedisSystem.step a r) = RedisSystem.signalSet r
     end.
Proof.
  intros s r handled.
  split; [|split; [|split; [|split; [|split; [|split]]]]].
  - apply memory_run_signal. unfold MemorySystem.signalSet. cbn [MemorySystem.step].
    pose proof (cancel_aborted (MemorySystem.q s) (MemorySystem.heap s)) as Ha.
    destruct (MemoryStreamQueue.cancel (MemorySystem.q s) (MemorySystem.heap s)).
    exact Ha.
  - apply redis_run_signal. reflexivity.
  - apply memory_push_signal_and_log.
  - cbn. split; [reflexivity|].
    unfold Redis.lRange_all, Redis.expire, Redis.rPush. cbn.
    rewrite lookup_insert_eq. cbn. rewrite lookup_insert_eq. reflexivity.
  - unfold MemorySystem.signalSet, MemorySystem.tails. cbn [MemorySystem.step].
    pose proof (memory_handleData_decoded_aborted i k (MemorySystem.q s)
                  (MemorySystem.heap s)) as Ha.
    destruct (MemoryStreamQueue.handleData_decoded i k (MemorySystem.q s)
                (MemorySystem.heap s)). exact Ha.
  - unfold RedisSystem.signalSet. cbn [RedisSystem.step].
    destruct (RedisSystem.tails r !! i) as [tl|] eqn:Hi.
    + pose proof (redis_handleMessage_aborted k (RedisSystem.q r)
                    (RedisSystem.store r) tl) as Ha.
      destruct (RedisStreamQueue.handleMessage k _ _ tl) as [[q' st'] tl'].
      exact Ha.
    + cbn. rewrite orb_false_r. reflexivity.
  - clearbody s r.
    destruct a as [item'| | | |toId ttl'| |j|j|j k'|j|j]; try exact I;
      unfold MemorySystem.signalSet, RedisSystem.signalSet;
      cbn [MemorySystem.step RedisSystem.step].
    + split; reflexivity.
    + split; [reflexivity|].
      unfold RedisStreamQueue.clear.
      destruct (RedisStreamQueue.isConnected _); reflexivity.
    + split; reflexivity.
    + split; reflexivity.
    + split.
      * destruct (MemoryStreamQueue.onDataReceive_next j (MemorySystem.q s))
          as [[res q']|] eqn:Hn; [|reflexivity].
        cbn. destruct (next_fields _ _ _ _ Hn) as (_ & _ & _ & _ & Ha & _).
        exact Ha.
      * destruct (RedisSystem.tails r !! j) as [tl|]; [|reflexivity].
        pose proof (redis_next_aborted (RedisSystem.q r) (RedisSystem.store r) tl)
          as Ha.
        destruct (RedisStreamQueue.onDataReceive_next _ _ tl) as [[[res q'] st'] tl'].
        exact Ha.
    + split; reflexivity.
    + split; reflexivity.
    + split; reflexivity.
Qed.
End CancelSignalClaim.

Section CancelSignalSample.
#[local] Existing Instance jsonSerializer.
#[local] Existing Instance systemCancel.

(** C2 as stated fails: a plain [push] of the [__stream_cancel__] event to
    a new queue puts the event in the log and the signal is not set. *)
Lemma C2_counterexample_plain_push_of_cancel :
  ~ (forall acts : list Action,
       let s := MemorySystem.run acts (MemorySystem.init "run-1" true 300%Z) in
       MemorySystem.cancelLogged s = true -> MemorySystem.signalSet s = true).
Proof.
  intros Hall. specialize (Hall [Push streamCancel] eq_refl). discriminate Hall.
Qed.
End CancelSignalSample.

(** ** cancel() *)

Section CancelClaim.
Context `{Serializer} `{CancelMarker}.


End CancelClaim.

Section CancelSample.
#[local] Existing Instance jsonSerializer.

End CancelSample.

(** ** onDataReceive() on a queue that has already finished *)

Section ReceivedFrom.
Context `{Serializer}.

Lemma handedFrom_app (n : nat) (trace added : list Item) (item : Item) :
  handedFrom n trace item -> handedFrom n (trace ++ added) item.
Proof.
  intros (d & Hd & Hi). exists d. split; [|exact Hi].
  rewrite drop_app. apply elem_of_app. left. exact Hd.
Qed.

Lemma drop_elem_app (n : nat) (trace added : list Item) (d : Item) :
  d ∈ drop n trace -> d ∈ drop n (trace ++ added).
Proof. intros Hd. rewrite drop_app. apply elem_of_app. left. exact Hd. Qed.

Lemma drop_elem_last (n : nat) (trace : list Item) (d : Item) :
  (n <= List.length trace)%nat -> d ∈ drop n (trace ++ [d]).
Proof.
  intros Hn. rewrite drop_app. apply elem_of_app. right.
  replace (n - List.length trace)%nat with 0%nat by lia. cbn.
  apply list_elem_of_singleton. reflexivity.
Qed.

Lemma receivedFrom_app (n : nat) (trace added : list Item) (tl : Tail) :
  receivedFrom n trace tl -> receivedFrom n (trace ++ added) tl.
Proof.
  intros [Hq Hd]. split.
  - intros item Hi. apply handedFrom_app, Hq, Hi.
  - intros d Hi. apply drop_elem_app, Hd, Hi.
Qed.

Lemma keepsContents_receivedFrom (f : Tail -> Tail) (n : nat) (trace : list Item)
    (tl : Tail) :
  keepsContents f -> receivedFrom n trace tl -> receivedFrom n trace (f tl).
Proof.
  intros Hf [Hq Hd]. destruct (Hf tl) as (Eq & Ed & _).
  split; [rewrite Eq; exact Hq | rewrite Ed; exact Hd].
Qed.

Lemma keepsContents_resolvePending : keepsContents resolvePending.
Proof. intros tl. repeat split; reflexivity. Qed.

Lemma keepsContents_abortHandler : keepsContents abortHandler.
Proof. intros tl. repeat split; reflexivity. Qed.

Lemma keepsContents_awaitCancel : keepsContents awaitCancel.
Proof. intros tl. repeat split; reflexivity. Qed.

Lemma keepsContents_afterCancel : keepsContents afterCancel.
Proof.
  intros tl. unfold afterCancel. destruct (resuming tl); repeat split; reflexivity.
Qed.

Lemma keepsContents_onTimeout : keepsContents onTimeout.
Proof.
  intros tl. unfold onTimeout. destruct (timers tl); repeat split; reflexivity.
Qed.

Lemma bufferItem_contents (d : Item) (tl : Tail) :
  queue (bufferItem d tl) = queue tl ++ [d]
  /\ decoding (bufferItem d tl) = decoding tl
  /\ phase (bufferItem d tl) = phase tl
  /\ cursor (bufferItem d tl) = cursor tl
  /\ listener (bufferItem d tl) = listener tl.
Proof.
  unfold bufferItem. destruct (item_event d) as [e|]; [|repeat split; reflexivity].
  destruct (is_terminal_event e); repeat split; reflexivity.
Qed.

Lemma bufferItem_flags (d : Item) (tl : Tail) :
  isStreamEnded (bufferItem d tl) = isStreamEnded tl
  /\ pendingResolve (bufferItem d tl) = pendingResolve tl.
Proof.
  unfold bufferItem. destruct (item_event d) as [e|]; [|split; reflexivity].
  destruct (is_terminal_event e); split; reflexivity.
Qed.

Lemma receivedFrom_bufferItem (n : nat) (trace : list Item) (d : Item) (tl : Tail) :
  handedFrom n trace d -> receivedFrom n trace tl ->
  receivedFrom n trace (bufferItem d tl).
Proof.
  intros Hd [Hq Hdec]. destruct (bufferItem_contents d tl) as (Eq & Ed & _).
  split.
  - intros item. rewrite Eq, elem_of_app, list_elem_of_singleton.
    intros [Hi| ->]; [apply Hq, Hi|exact Hd].
  - rewrite Ed. exact Hdec.
Qed.

Lemma receivedFrom_awaitDecode (n : nat) (trace : list Item) (d : Item) (tl : Tail) :
  d ∈ drop n trace -> receivedFrom n trace tl ->
  receivedFrom n trace (awaitDecode d tl).
Proof.
  intros Hd [Hq Hdec]. split; [exact Hq|].
  intros d'. cbn. rewrite elem_of_app, list_elem_of_singleton.
  intros [Hi| ->]; [apply Hdec, Hi|exact Hd].
Qed.

(** The call that goes on after the decoding leaves the waiting calls. *)
Lemma receivedFrom_decoded (n : nat) (trace : list Item) (k : nat) (tl : Tail) :
  receivedFrom n trace tl ->
  receivedFrom n trace (set_decoding (delete k (decoding tl)) tl)
  /\ forall d, decodedAt k tl = Some d -> handedFrom n trace d.
Proof.
  intros [Hq Hdec]. split.
  - split; [exact Hq|]. intros d Hd. cbn in Hd. apply Hdec.
    eapply elem_of_sublist; [exact Hd|]. apply sublist_delete.
  - intros d. unfold decodedAt.
    destruct (decoding tl !! k) as [item|] eqn:Hk; [|discriminate].
    destruct (decodeItem item) as [d'|] eqn:Hdd; [|discriminate].
    intros [= ->]. exists item. split; [|right; exact Hdd].
    apply Hdec. eapply list_elem_of_lookup_2. exact Hk.
Qed.

(** A generator yields from its buffer. *)
Lemma loopHead_contents (aborted : bool) (tl : Tail) :
  match loopHead aborted tl with
  | LoopExit => True
  | LoopYield item tl' =>
      item ∈ queue tl /\ queue tl' = queue tl /\ decoding tl' = decoding tl
      /\ cursor tl' = cursor tl /\ listener tl' = listener tl
      /\ phase tl' <> AtStart
  | LoopAwait tl' =>
      queue tl' = queue tl /\ decoding tl' = decoding tl
      /\ cursor tl' = cursor tl /\ listener tl' = listener tl
      /\ phase tl' <> AtStart
  end.
Proof.
  unfold loopHead. destruct (negb (isStreamEnded tl) && negb aborted); [|exact I].
  destruct (queue tl) as [|item rest] eqn:Hq; cbn.
  - rewrite Hq. repeat split; discriminate.
  - rewrite Hq. split; [apply elem_of_cons; left; reflexivity|].
    repeat split; discriminate.
Qed.
End ReceivedFrom.

Section MemoryReceived.
Context `{Serializer} `{CancelMarker}.
Variables n i : nat.

Lemma received_update_tail (j : nat) (f : Tail -> Tail) (q : MemoryStreamQueue.t) :
  (j = i -> forall tl, receivedFrom n (MemoryStreamQueue.emitted q) tl ->
                       receivedFrom n (MemoryStreamQueue.emitted q) (f tl)) ->
  memoryReceivedFrom n i q ->
  memoryReceivedFrom n i (MemoryStreamQueue.update_tail j f q).
Proof.
  intros Hf (Hn & tl & Hi & Hr). split; [exact Hn|]. cbn.
  destruct (decide (j = i)) as [->|Hne].
  - exists (f tl). rewrite list_lookup_alter_eq, Hi. split; [reflexivity|auto].
  - exists tl. rewrite list_lookup_alter_ne by exact Hne. auto.
Qed.

Lemma received_put_tail (j : nat) (tl' : Tail) (q : MemoryStreamQueue.t) :
  (j = i -> receivedFrom n (MemoryStreamQueue.emitted q) tl') ->
  memoryReceivedFrom n i q ->
  memoryReceivedFrom n i (MemoryStreamQueue.put_tail j tl' q).
Proof.
  intros Hf (Hn & tl & Hi & Hr). split; [exact Hn|]. cbn.
  destruct (decide (j = i)) as [->|Hne].
  - exists tl'. split; [|auto].
    apply list_lookup_insert_eq. eapply lookup_lt_Some. exact Hi.
  - exists tl. rewrite list_lookup_insert_ne by exact Hne. auto.
Qed.

Lemma received_update_keep (j : nat) (f : Tail -> Tail) (q : MemoryStreamQueue.t) :
  keepsContents f ->
  memoryReceivedFrom n i q ->
  memoryReceivedFrom n i (MemoryStreamQueue.update_tail j f q).
Proof.
  intros Hf. apply received_update_tail. intros _ tl.
  apply keepsContents_receivedFrom, Hf.
Qed.

Lemma emitLike_id : emitLike n i (fun q h => (q, h)).
Proof. intros q h. split; [exists []; cbn; rewrite app_nil_r; reflexivity|auto]. Qed.

Lemma emitLike_update_keep (j : nat) (f : Tail -> Tail) :
  keepsContents f ->
  emitLike n i (fun q h => (MemoryStreamQueue.update_tail j f q, h)).
Proof.
  intros Hf q h. split; [exists []; cbn; rewrite app_nil_r; reflexivity|].
  apply received_update_keep, Hf.
Qed.

Lemma received_foldl_keep (f : Tail -> Tail) (hs : list nat) :
  keepsContents f ->
  forall q : MemoryStreamQueue.t,
  MemoryStreamQueue.emitted
    (foldl (fun q j => MemoryStreamQueue.update_tail j f q) q hs)
  = MemoryStreamQueue.emitted q
  /\ (memoryReceivedFrom n i q ->
      memoryReceivedFrom n i
        (foldl (fun q j => MemoryStreamQueue.update_tail j f q) q hs)).
Proof.
  intros Hf. induction hs as [|j hs IH]; intros q; cbn; [auto|].
  destruct (IH (MemoryStreamQueue.update_tail j f q)) as [He Hr].
  split; [rewrite He; reflexivity|].
  intros Hq. apply Hr, received_update_keep; assumption.
Qed.

Lemma abort_received (q : MemoryStreamQueue.t) :
  MemoryStreamQueue.emitted (MemoryStreamQueue.abort q) = MemoryStreamQueue.emitted q
  /\ (memoryReceivedFrom n i q -> memoryReceivedFrom n i (MemoryStreamQueue.abort q)).
Proof.
  unfold MemoryStreamQueue.abort.
  destruct (MemoryStreamQueue.aborted q); [auto|].
  destruct (received_foldl_keep abortHandler (MemoryStreamQueue.abortHandlers q)
              keepsContents_abortHandler (MemoryStreamQueue.set_aborted true q))
    as [He Hr].
  split; [rewrite He; reflexivity|]. intros Hq. apply Hr. exact Hq.
Qed.

Section WithCancel.
Variable k : MemoryStreamQueue.t -> MemoryStreamQueue.Heap
             -> MemoryStreamQueue.t * MemoryStreamQueue.Heap.
Hypothesis Hk : emitLike n i k.

Lemma handleData_body_with_received (j : nat) (d : Item)
    (q : MemoryStreamQueue.t) (h : MemoryStreamQueue.Heap) :
  let r := MemoryStreamQueue.handleData_body_with k j d q h in
  (exists added,
     MemoryStreamQueue.emitted r.1 = MemoryStreamQueue.emitted q ++ added)
  /\ (memoryReceivedFrom n i q ->
      (j = i -> handedFrom n (MemoryStreamQueue.emitted q) d) ->
      memoryReceivedFrom n i r.1).
Proof.
  unfold MemoryStreamQueue.handleData_body_with.
  set (q1 := MemoryStreamQueue.update_tail j (bufferItem d) q).
  assert (H1 : memoryReceivedFrom n i q ->
               (j = i -> handedFrom n (MemoryStreamQueue.emitted q) d) ->
               memoryReceivedFrom n i q1).
  { intros Hq Hd. apply received_update_tail; [|exact Hq].
    intros Hj tl. apply receivedFrom_bufferItem, Hd, Hj. }
  destruct (item_is_cancel d).
  - destruct (Hk q1 h) as [[added Ha] Hr].
    destruct (k q1 h) as [q2 h2]. cbn in *.
    split; [exists added; exact Ha|].
    intros Hq Hd. apply received_update_keep; [apply keepsContents_awaitCancel|].
    auto.
  - cbn. split; [exists []; rewrite app_nil_r; reflexivity|].
    intros Hq Hd. apply received_update_keep; [apply keepsContents_resolvePending|].
    auto.
Qed.

Lemma handleData_with_received (j : nat) (d : Item)
    (q : MemoryStreamQueue.t) (h : MemoryStreamQueue.Heap) :
  let r := MemoryStreamQueue.handleData_with k j d q h in
  (exists added,
     MemoryStreamQueue.emitted r.1 = MemoryStreamQueue.emitted q ++ added)
  /\ (memoryReceivedFrom n i q ->
      d ∈ drop n (MemoryStreamQueue.emitted q) ->
      memoryReceivedFrom n i r.1).
Proof.
  unfold MemoryStreamQueue.handleData_with.
  destruct (MemoryStreamQueue.compressMessages q).
  - cbn. split; [exists []; rewrite app_nil_r; reflexivity|].
    intros Hq Hd. apply received_update_tail; [|exact Hq].
    intros _ tl. apply receivedFrom_awaitDecode, Hd.
  - destruct (handleData_body_with_received j d q h) as [Ha Hr].
    split; [exact Ha|]. intros Hq Hd. apply Hr; [exact Hq|].
    intros _. exists d. auto.
Qed.

Lemma foldl_handleData_with_received (d : Item) (hs : list nat) :
  forall (q : MemoryStreamQueue.t) (h : MemoryStreamQueue.Heap),
  let r := foldl (fun st j => MemoryStreamQueue.handleData_with k j d st.1 st.2)
                 (q, h) hs in
  (exists added,
     MemoryStreamQueue.emitted r.1 = MemoryStreamQueue.emitted q ++ added)
  /\ (memoryReceivedFrom n i q ->
      d ∈ drop n (MemoryStreamQueue.emitted q) ->
      memoryReceivedFrom n i r.1).
Proof.
  induction hs as [|j hs IH]; intros q h; cbn.
  - split; [exists []; rewrite app_nil_r; reflexivity|auto].
  - destruct (handleData_with_received j d q h) as [[a1 Ha1] Hr1].
    destruct (MemoryStreamQueue.handleData_with k j d q h) as [q1 h1].
    cbn in Ha1, Hr1.
    destruct (IH q1 h1) as [[a2 Ha2] Hr2]. cbn in Ha2, Hr2.
    split.
    + exists (a1 ++ a2). rewrite Ha2, Ha1, app_assoc. reflexivity.
    + intros Hq Hd. apply Hr2; [auto|]. rewrite Ha1. apply drop_elem_app, Hd.
Qed.

Lemma emit_with_received (d : Item) : emitLike n i (MemoryStreamQueue.emit_with k d).
Proof.
  intros q h. unfold MemoryStreamQueue.emit_with.
  set (q0 := MemoryStreamQueue.set_emitted (MemoryStreamQueue.emitted q ++ [d]) q).
  destruct (foldl_handleData_with_received d (MemoryStreamQueue.handlers q) q0 h)
    as [[added Ha] Hr].
  cbn in Ha, Hr. split.
  - exists ([d] ++ added). rewrite Ha. cbn. rewrite <- app_assoc. reflexivity.
  - intros (Hn & tl & Hi & Hrec). apply Hr.
    + split; [cbn; rewrite length_app; lia|].
      exists tl. split; [exact Hi|]. cbn. apply receivedFrom_app, Hrec.
    + cbn. apply drop_elem_last, Hn.
Qed.

Lemma push_with_received (item : EventMessage) :
  emitLike n i (MemoryStreamQueue.push_with k item).
Proof. intros q h. unfold MemoryStreamQueue.push_with. apply emit_with_received. Qed.
End WithCancel.

Lemma cancel_received : emitLike n i MemoryStreamQueue.cancel.
Proof.
  intros q h. unfold MemoryStreamQueue.cancel.
  destruct (abort_received q) as [He Hr].
  destruct (push_with_received _ emitLike_id CancelEventMessage
              (MemoryStreamQueue.abort q) h) as [[added Ha] Hp].
  split.
  - exists added. rewrite Ha, He. reflexivity.
  - intros Hq. apply Hp, Hr, Hq.
Qed.

Lemma push_received (item : EventMessage) : emitLike n i (MemoryStreamQueue.push item).
Proof. apply push_with_received, cancel_received. Qed.

Lemma handleData_decoded_received (j k : nat) :
  emitLike n i (MemoryStreamQueue.handleData_decoded j k).
Proof.
  intros q h. unfold MemoryStreamQueue.handleData_decoded.
  destruct (MemoryStreamQueue.tails q !! j) as [tl|] eqn:Hj; [|apply emitLike_id].
  destruct (decoding tl !! k) as [item|] eqn:Hk; [|apply emitLike_id].
  set (q0 := MemoryStreamQueue.put_tail j
               (set_decoding (delete k (decoding tl)) tl) q).
  assert (Hq0 : memoryReceivedFrom n i q -> memoryReceivedFrom n i q0).
  { intros Hq. apply received_put_tail; [|exact Hq].
    intros ->. destruct Hq as (_ & tl0 & Hi & Hr).
    rewrite Hj in Hi. injection Hi as <-.
    apply receivedFrom_decoded, Hr. }
  destruct (decodeItem item) as [d|e] eqn:Hd.
  - destruct (handleData_body_with_received _ cancel_received j d q0 h)
      as [Ha Hr].
    split; [exact Ha|]. intros Hq. apply Hr; [auto|].
    intros ->. destruct Hq as (_ & tl0 & Hi & Hrec).
    rewrite Hj in Hi. injection Hi as <-.
    apply (receivedFrom_decoded n _ k tl Hrec).
    unfold decodedAt. rewrite Hk, Hd. reflexivity.
  - split; [exists []; cbn; rewrite app_nil_r; reflexivity|exact Hq0].
Qed.

(** A call of [next()]. *)
Lemma loop_received (j : nat) (tl : Tail) (q : MemoryStreamQueue.t) :
  memoryReceivedFrom n i q ->
  (j = i -> receivedFrom n (MemoryStreamQueue.emitted q) tl) ->
  let r := MemoryStreamQueue.loop j tl q in
  memoryReceivedFrom n i r.2
  /\ (j = i -> forall item, r.1 = Yielded item ->
                handedFrom n (MemoryStreamQueue.emitted q) item).
Proof.
  intros Hq Htl. unfold MemoryStreamQueue.loop, MemoryStreamQueue.finish.
  pose proof (loopHead_contents (MemoryStreamQueue.aborted q) tl) as Hc.
  destruct (loopHead (MemoryStreamQueue.aborted q) tl) as [|item tl'|tl']; cbn.
  - split; [|discriminate].
    apply received_put_tail; [|exact Hq]. intros Hj. cbn.
    destruct (Htl Hj) as [A B]. split; assumption.
  - destruct Hc as (Hin & Eq & Ed & _). split.
    + apply received_put_tail; [|exact Hq]. intros Hj.
      destruct (Htl Hj) as [A B]. split; [rewrite Eq; exact A|rewrite Ed; exact B].
    + intros Hj item' [= <-]. apply (Htl Hj). exact Hin.
  - destruct Hc as (Eq & Ed & _). split; [|discriminate].
    apply received_put_tail; [|exact Hq]. intros Hj.
    destruct (Htl Hj) as [A B]. split; [rewrite Eq; exact A|rewrite Ed; exact B].
Qed.

Lemma next_received (j : nat) (q q' : MemoryStreamQueue.t) (r : NextResult) :
  MemoryStreamQueue.onDataReceive_next j q = Some (r, q') ->
  memoryReceivedFrom n i q ->
  MemoryStreamQueue.emitted q' = MemoryStreamQueue.emitted q
  /\ memoryReceivedFrom n i q'
  /\ (j = i -> forall item, r = Yielded item ->
                handedFrom n (MemoryStreamQueue.emitted q) item).
Proof.
  intros Hn Hq.
  destruct (next_fields _ _ _ _ Hn) as (_ & _ & _ & _ & _ & He & _).
  split; [exact He|].
  unfold MemoryStreamQueue.onDataReceive_next in Hn.
  destruct (MemoryStreamQueue.tails q !! j) as [tl|] eqn:Hj; [|discriminate].
  assert (Htl : j = i -> receivedFrom n (MemoryStreamQueue.emitted q) tl).
  { intros ->. destruct Hq as (_ & tl0 & Hi & Hr). rewrite Hj in Hi.
    injection Hi as <-. exact Hr. }
  injection Hn as Hn.
  destruct (phase tl) eqn:Hp.
  - destruct (MemoryStreamQueue.aborted q).
    + injection Hn as <- <-. split; [|discriminate].
      apply received_put_tail; [|exact Hq]. intros Hji.
      destruct (Htl Hji) as [A B]. split; assumption.
    + set (q1 := MemoryStreamQueue.set_handlers
                   (MemoryStreamQueue.handlers q ++ [j])
                   (MemoryStreamQueue.abortHandlers q ++ [j]) q) in Hn.
      destruct (loop_received j tl q1 Hq Htl) as [A B].
      rewrite Hn in A, B. exact (conj A B).
  - destruct (pendingResolve tl).
    + injection Hn as <- <-. split; [exact Hq|discriminate].
    + destruct (loop_received j tl q Hq Htl) as [A B].
      rewrite Hn in A, B. exact (conj A B).
  - destruct (queue tl !! next) as [item|] eqn:Hnx.
    + injection Hn as <- <-. split.
      * apply received_put_tail; [|exact Hq]. intros Hji.
        destruct (Htl Hji) as [A B]. split; assumption.
      * intros Hji item' [= <-]. apply (Htl Hji).
        eapply list_elem_of_lookup_2. exact Hnx.
    + assert (Htl' : j = i ->
                     receivedFrom n (MemoryStreamQueue.emitted q) (set_queue [] tl)).
      { intros Hji. destruct (Htl Hji) as [A B]. split; [|exact B].
        intros item Hin. cbn in Hin. apply elem_of_nil in Hin. destruct Hin. }
      destruct (loop_received j (set_queue [] tl) q Hq Htl') as [A B].
      rewrite Hn in A, B. exact (conj A B).
  - injection Hn as <- <-. split; [exact Hq|discriminate].
Qed.

Lemma memory_step_received (a : Action) (s : MemorySystem.t) :
  memoryReceivedFrom n i (MemorySystem.q s) ->
  memoryReceivedFrom n i (MemorySystem.q (MemorySystem.step a s)).
Proof.
  intros Hq. destruct a as [item| | | |toId ttl| |j|j|j k|j|j];
    cbn [MemorySystem.step].
  - destruct (push_received item (MemorySystem.q s) (MemorySystem.heap s)) as [_ Hr].
    destruct (MemoryStreamQueue.push item (MemorySystem.q s) (MemorySystem.heap s)).
    cbn in *. auto.
  - exact Hq.
  - exact Hq.
  - destruct (cancel_received (MemorySystem.q s) (MemorySystem.heap s)) as [_ Hr].
    destruct (MemoryStreamQueue.cancel (MemorySystem.q s) (MemorySystem.heap s)).
    cbn in *. auto.
  - exact Hq.
  - destruct Hq as (Hn & tl & Hi & Hr). split; [exact Hn|].
    exists tl. split; [|exact Hr]. cbn. apply lookup_app_l_Some. exact Hi.
  - destruct (MemoryStreamQueue.onDataReceive_next j (MemorySystem.q s))
      as [[r q']|] eqn:Hn; [|exact Hq].
    cbn. eapply next_received; eassumption.
  - exact Hq.
  - destruct (handleData_decoded_received j k (MemorySystem.q s) (MemorySystem.heap s))
      as [_ Hr].
    destruct (MemoryStreamQueue.handleData_decoded j k
                (MemorySystem.q s) (MemorySystem.heap s)).
    cbn in *. auto.
  - cbn. apply received_update_keep; [apply keepsContents_afterCancel|exact Hq].
  - cbn. apply received_update_keep; [apply keepsContents_onTimeout|exact Hq].
Qed.

Lemma memory_run_received (acts : list Action) :
  forall s : MemorySystem.t,
  memoryReceivedFrom n i (MemorySystem.q s) ->
  memoryReceivedFrom n i (MemorySystem.q (MemorySystem.run acts s)).
Proof.
  induction acts as [|a acts IH]; intros s Hq; [exact Hq|].
  apply IH, memory_step_received, Hq.
Qed.

(** What generator [i] yields has been emitted from the [n]-th emission
    on. *)
Lemma memory_yield_received (s : MemorySystem.t) (item : Item) :
  memoryReceivedFrom n i (MemorySystem.q s) ->
  MemorySystem.nextResult i s = Some (Yielded item) ->
  handedFrom n (MemoryStreamQueue.emitted (MemorySystem.q s)) item.
Proof.
  intros Hq. unfold MemorySystem.nextResult.
  destruct (MemoryStreamQueue.onDataReceive_next i (MemorySystem.q s))
    as [[r q']|] eqn:Hn; [|discriminate].
  cbn. intros [= ->].
  destruct (next_received _ _ _ _ Hn Hq) as (_ & _ & Hy). apply Hy; reflexivity.
Qed.
End MemoryReceived.

Section RedisReceived.
Context `{Serializer} `{CancelMarker}.

Lemma redis_expire_published (key : string) (seconds : Z) (s : Redis.t) :
  Redis.published (Redis.expire key seconds s) = Redis.published s
  /\ Redis.subscribers (Redis.expire key seconds s) = Redis.subscribers s
  /\ Redis.created (Redis.expire key seconds s) = Redis.created s.
Proof. unfold Redis.expire. destruct (Redis.lists s !! key); auto. Qed.

Lemma redis_copy_published (source destination : string) (s : Redis.t) :
  Redis.published (Redis.copy source destination s) = Redis.published s
  /\ Redis.subscribers (Redis.copy source destination s) = Redis.subscribers s
  /\ Redis.created (Redis.copy source destination s) = Redis.created s.
Proof.
  unfold Redis.copy. destruct (Redis.lists s !! source); [|auto].
  destruct (Redis.lists s !! destination); auto.
Qed.

(** [push] adds its message to those of the channel. *)
Lemma redis_push_channel (item : EventMessage) (q : RedisStreamQueue.t) (s : Redis.t) :
  let r := RedisStreamQueue.push item q s in
  RedisStreamQueue.channelKey r.1 = RedisStreamQueue.channelKey q
  /\ default [] (Redis.published r.2 !! RedisStreamQueue.channelKey q)
     = default [] (Redis.published s !! RedisStreamQueue.channelKey q)
       ++ [encodeData item]
  /\ Redis.subscribers r.2 = Redis.subscribers s
  /\ Redis.created r.2 = Redis.created s.
Proof.
  unfold RedisStreamQueue.push. cbn [fst snd].
  split; [reflexivity|].
  unfold Redis.publish. cbn [Redis.published Redis.subscribers Redis.created].
  rewrite lookup_insert_eq.
  destruct (redis_expire_published (RedisStreamQueue.queueKey q)
              (RedisStreamQueue.ttl q)
              (Redis.rPush (RedisStreamQueue.queueKey q) (encodeData item) s))
    as (Ep & Es & Ec).
  rewrite Ep, Es, Ec. auto.
Qed.

Lemma redis_next_channel (q : RedisStreamQueue.t) (s : Redis.t) (tl : Tail) :
  let r := RedisStreamQueue.onDataReceive_next q s tl in
  RedisStreamQueue.channelKey r.1.1.2 = RedisStreamQueue.channelKey q
  /\ Redis.published r.1.2 = Redis.published s.
Proof.
  unfold RedisStreamQueue.onDataReceive_next, RedisStreamQueue.loop,
    RedisStreamQueue.finish.
  destruct (phase tl); cbn.
  - destruct (RedisStreamQueue.aborted q); cbn; [auto|].
    match goal with |- context [loopHead ?b ?t] => destruct (loopHead b t) end;
      cbn; auto.
  - destruct (pendingResolve tl); [auto|].
    destruct (loopHead (RedisStreamQueue.aborted q) tl); cbn; auto.
  - destruct (queue tl !! next); [auto|].
    destruct (loopHead (RedisStreamQueue.aborted q) (set_queue [] tl)); cbn; auto.
  - auto.
Qed.

Lemma redis_handleMessage_channel (k : nat) (q : RedisStreamQueue.t) (s : Redis.t)
    (tl : Tail) :
  let r := RedisStreamQueue.handleMessage k q s tl in
  RedisStreamQueue.channelKey r.1.1 = RedisStreamQueue.channelKey q
  /\ exists added,
       default [] (Redis.published r.1.2 !! RedisStreamQueue.channelKey q)
       = default [] (Redis.published s !! RedisStreamQueue.channelKey q) ++ added.
Proof.
  unfold RedisStreamQueue.handleMessage.
  destruct (decoding tl !! k) as [item|]; cbn;
    [|split; [reflexivity|exists []; rewrite app_nil_r; reflexivity]].
  destruct (decodeItem item) as [d|e]; cbn;
    [|split; [reflexivity|exists []; rewrite app_nil_r; reflexivity]].
  destruct (item_is_cancel d); cbn;
    [|split; [reflexivity|exists []; rewrite app_nil_r; reflexivity]].
  split; [reflexivity|].
  destruct (redis_push_channel CancelEventMessage
              (RedisStreamQueue.set_aborted true q) s) as (_ & Ep & _).
  eexists. exact Ep.
Qed.

(** The messages of the channel are only added to. *)
Lemma redis_step_channel (a : Action) (r : RedisSystem.t) :
  exists added, channelMessages (RedisSystem.step a r) = channelMessages r ++ added.
Proof.
  unfold channelMessages.
  assert (Hsame : forall l : list Bytes, exists added : list Item,
            Enc <$> l = (Enc <$> l) ++ added).
  { intros l. exists []. rewrite app_nil_r. reflexivity. }
  destruct a as [item| | | |toId ttl| |j|j|j k|j|j]; cbn [RedisSystem.step];
    try apply Hsame.
  - destruct (redis_push_channel item (RedisSystem.q r) (RedisSystem.store r))
      as (Ek & Ep & _).
    destruct (RedisStreamQueue.push item (RedisSystem.q r) (RedisSystem.store r))
      as [q' s']. cbn in *.
    rewrite Ek, Ep, fmap_app. eexists. reflexivity.
  - unfold RedisStreamQueue.clear.
    destruct (RedisStreamQueue.isConnected (RedisSystem.q r)); apply Hsame.
  - unfold RedisStreamQueue.cancel.
    destruct (redis_push_channel CancelEventMessage
                (RedisStreamQueue.set_aborted true (RedisSystem.q r))
                (RedisSystem.store r)) as (Ek & Ep & _).
    destruct (RedisStreamQueue.push CancelEventMessage
                (RedisStreamQueue.set_aborted true (RedisSystem.q r))
                (RedisSystem.store r)) as [q' s']. cbn in *.
    rewrite Ek, Ep, fmap_app. eexists. reflexivity.
  - unfold RedisStreamQueue.copyToQueue. cbn.
    destruct (redis_expire_published
                (RedisStreamQueue.queueKey
                   (RedisStreamQueue.new toId
                      (RedisStreamQueue.compressMessages (RedisSystem.q r))
                      (default (RedisStreamQueue.ttl (RedisSystem.q r)) ttl)))
                (default (RedisStreamQueue.ttl (RedisSystem.q r)) ttl)
                (Redis.copy (RedisStreamQueue.queueKey (RedisSystem.q r))
                   (RedisStreamQueue.queueKey
                      (RedisStreamQueue.new toId
                         (RedisStreamQueue.compressMessages (RedisSystem.q r))
                         (default (RedisStreamQueue.ttl (RedisSystem.q r)) ttl)))
                   (RedisSystem.store r))) as (Ep & _).
    destruct (redis_copy_published (RedisStreamQueue.queueKey (RedisSystem.q r))
                (RedisStreamQueue.queueKey
                   (RedisStreamQueue.new toId
                      (RedisStreamQueue.compressMessages (RedisSystem.q r))
                      (default (RedisStreamQueue.ttl (RedisSystem.q r)) ttl)))
                (RedisSystem.store r)) as (Ep' & _).
    cbn in Ep, Ep'. rewrite Ep, Ep'. apply Hsame.
  - destruct (RedisSystem.tails r !! j) as [tl|]; [|apply Hsame].
    destruct (redis_next_channel (RedisSystem.q r) (RedisSystem.store r) tl)
      as (Ek & Ep).
    destruct (RedisStreamQueue.onDataReceive_next _ _ tl) as [[[res q'] s'] tl'].
    cbn in *. rewrite Ek, Ep. apply Hsame.
  - destruct (RedisSystem.tails r !! j) as [tl|]; [|apply Hsame].
    destruct (redis_handleMessage_channel k (RedisSystem.q r) (RedisSystem.store r) tl)
      as (Ek & added & Ep).
    destruct (RedisStreamQueue.handleMessage k _ _ tl) as [[q' s'] tl'].
    cbn in *. rewrite Ek, Ep, fmap_app. eexists. reflexivity.
Qed.

Lemma listensFrom_app (n : nat) (trace added : list Item) (tl : Tail) :
  listensFrom n trace tl -> listensFrom n (trace ++ added) tl.
Proof.
  intros (Hp & Hc & Hr). split; [exact Hp|]. split; [exact Hc|].
  apply receivedFrom_app, Hr.
Qed.

Lemma listensFrom_keep (f : Tail -> Tail) (n : nat) (trace : list Item) (tl : Tail) :
  keepsContents f -> listensFrom n trace tl -> listensFrom n trace (f tl).
Proof.
  intros Hf (Hp & Hc & Hr). destruct (Hf tl) as (_ & _ & Ep & Ec & El).
  split; [rewrite Ep; exact Hp|]. split; [rewrite Ec, El; exact Hc|].
  apply keepsContents_receivedFrom; assumption.
Qed.

Lemma dispatchAbort_lookup (b : bool) (tls : list Tail) (i : nat) :
  RedisSystem.dispatchAbort b tls !! i
  = (fun tl => if b then tl else if running tl then abortHandler tl else tl)
      <$> tls !! i.
Proof.
  unfold RedisSystem.dispatchAbort. destruct b.
  - destruct (tls !! i); reflexivity.
  - apply list_lookup_fmap.
Qed.

Lemma listensFrom_dispatchAbort (n : nat) (trace : list Item) (b : bool)
    (tls : list Tail) (i : nat) (tl : Tail) :
  tls !! i = Some tl -> listensFrom n trace tl ->
  exists tl', RedisSystem.dispatchAbort b tls !! i = Some tl'
              /\ listensFrom n trace tl'.
Proof.
  intros Hi Hl. rewrite dispatchAbort_lookup, Hi. cbn. eexists. split; [reflexivity|].
  destruct b; [exact Hl|]. destruct (running tl); [|exact Hl].
  apply listensFrom_keep; [apply keepsContents_abortHandler|exact Hl].
Qed.

(** The listener is called with the message at the position of the
    generator in the channel. *)
Lemma deliver_listens (n : nat) (q : RedisStreamQueue.t) (s : Redis.t) (tl : Tail) :
  let trace := Enc <$> default [] (Redis.published s !! RedisStreamQueue.channelKey q) in
  listensFrom n trace tl -> listensFrom n trace (RedisStreamQueue.deliver q s tl).
Proof.
  intros trace (Hp & Hc & Hr). unfold RedisStreamQueue.deliver.
  destruct (RedisStreamQueue.subscribed q s tl) eqn:Hsub; [|split; auto].
  destruct (default [] (Redis.published s !! RedisStreamQueue.channelKey q)
            !! cursor tl) as [message|] eqn:Hm; [|split; auto].
  assert (Hc' : (n <= cursor tl)%nat).
  { destruct Hc as [Hnone|Hc]; [|exact Hc].
    unfold RedisStreamQueue.subscribed in Hsub. rewrite Hnone in Hsub.
    discriminate Hsub. }
  split; [exact Hp|]. split; [right; cbn; lia|].
  apply receivedFrom_awaitDecode.
  - apply (list_elem_of_lookup_2 _ (cursor tl - n)).
    rewrite lookup_drop. replace (n + (cursor tl - n))%nat with (cursor tl) by lia.
    unfold trace. rewrite list_lookup_fmap, Hm. reflexivity.
  - destruct Hr as [A B]. split; assumption.
Qed.

Lemma handleMessage_listens (n k : nat) (trace : list Item)
    (q : RedisStreamQueue.t) (s : Redis.t) (tl : Tail) :
  listensFrom n trace tl ->
  listensFrom n trace (RedisStreamQueue.handleMessage k q s tl).2.
Proof.
  intros (Hp & Hc & Hr). unfold RedisStreamQueue.handleMessage.
  destruct (receivedFrom_decoded n trace k tl Hr) as [Hr0 Hd].
  unfold decodedAt in Hd.
  destruct (decoding tl !! k) as [item|]; [|split; auto].
  set (tl0 := set_decoding (delete k (decoding tl)) tl) in *.
  assert (H0' : listensFrom n trace tl0) by (split; [exact Hp|split; [exact Hc|exact Hr0]]).
  destruct (decodeItem item) as [d|e]; [|exact H0'].
  assert (H1 : listensFrom n trace (bufferItem d tl0)).
  { destruct (bufferItem_contents d tl0) as (_ & _ & Ep & Ec & El).
    split; [rewrite Ep; exact Hp|]. split; [rewrite Ec, El; exact Hc|].
    apply receivedFrom_bufferItem; [apply Hd; reflexivity|exact Hr0]. }
  destruct (item_is_cancel d).
  - destruct (RedisStreamQueue.cancel q s) as [q' s']. cbn [snd].
    apply listensFrom_keep; [apply keepsContents_awaitCancel|].
    destruct (RedisStreamQueue.aborted q || negb (running (bufferItem d tl0)));
      [exact H1|].
    apply listensFrom_keep; [apply keepsContents_abortHandler|exact H1].
  - cbn [snd]. apply listensFrom_keep; [apply keepsContents_resolvePending|exact H1].
Qed.

Lemma redis_loop_listens (n : nat) (trace : list Item)
    (q : RedisStreamQueue.t) (s : Redis.t) (tl : Tail) :
  (listener tl = None \/ (n <= cursor tl)%nat) -> receivedFrom n trace tl ->
  let r := RedisStreamQueue.loop q s tl in
  listensFrom n trace r.2
  /\ forall item, r.1.1.1 = Yielded item -> handedFrom n trace item.
Proof.
  intros Hc [A B]. unfold RedisStreamQueue.loop, RedisStreamQueue.finish.
  pose proof (loopHead_contents (RedisStreamQueue.aborted q) tl) as Hl.
  destruct (loopHead (RedisStreamQueue.aborted q) tl) as [|item tl'|tl']; cbn.
  - split; [|discriminate]. split; [discriminate|]. split; [exact Hc|split; assumption].
  - destruct Hl as (Hin & Eq & Ed & Ec & El & Hp). split.
    + split; [exact Hp|]. split; [rewrite Ec, El; exact Hc|].
      split; [rewrite Eq; exact A|rewrite Ed; exact B].
    + intros item' [= <-]. apply A, Hin.
  - destruct Hl as (Eq & Ed & Ec & El & Hp). split; [|discriminate].
    split; [exact Hp|]. split; [rewrite Ec, El; exact Hc|].
    split; [rewrite Eq; exact A|rewrite Ed; exact B].
Qed.

Lemma redis_next_listens (n : nat) (trace : list Item)
    (q : RedisStreamQueue.t) (s : Redis.t) (tl : Tail) :
  listensFrom n trace tl ->
  let r := RedisStreamQueue.onDataReceive_next q s tl in
  listensFrom n trace r.2
  /\ forall item, r.1.1.1 = Yielded item -> handedFrom n trace item.
Proof.
  intros (Hp & Hc & Hr). unfold RedisStreamQueue.onDataReceive_next.
  destruct (phase tl) eqn:Hph; [congruence| | |].
  - destruct (pendingResolve tl).
    + cbn. split; [|discriminate]. split; [congruence|auto].
    + apply redis_loop_listens; assumption.
  - destruct (queue tl !! next) as [item|] eqn:Hnx.
    + cbn. split.
      * split; [discriminate|]. split; [exact Hc|]. destruct Hr. split; assumption.
      * intros item' [= <-]. apply Hr. eapply list_elem_of_lookup_2. exact Hnx.
    + apply redis_loop_listens; [exact Hc|]. destruct Hr as [A B].
      split; [|exact B]. intros item Hin. cbn in Hin. apply elem_of_nil in Hin.
      destruct Hin.
  - cbn. split; [|discriminate]. split; [congruence|auto].
Qed.

Section Invariant.
Variables n i : nat.

Lemma redis_step_received (a : Action) (r : RedisSystem.t) :
  redisReceivedFrom n i r -> redisReceivedFrom n i (RedisSystem.step a r).
Proof.
  intros (tl & Hi & Hl).
  destruct (redis_step_channel a r) as [added Hch].
  unfold redisReceivedFrom. rewrite Hch.
  assert (Hl' : listensFrom n (channelMessages r ++ added) tl)
    by apply listensFrom_app, Hl.
  destruct a as [item| | | |toId ttl| |j|j|j k|j|j]; cbn [RedisSystem.step].
  - destruct (RedisStreamQueue.push item (RedisSystem.q r) (RedisSystem.store r)).
    exists tl. auto.
  - exists tl. auto.
  - destruct (RedisStreamQueue.clear (RedisSystem.q r) (RedisSystem.store r)).
    exists tl. auto.
  - destruct (RedisStreamQueue.cancel (RedisSystem.q r) (RedisSystem.store r)).
    cbn [RedisSystem.tails]. eapply listensFrom_dispatchAbort; eassumption.
  - destruct (RedisStreamQueue.copyToQueue toId ttl (RedisSystem.q r)
                (RedisSystem.store r)).
    exists tl. auto.
  - exists tl. cbn. split; [apply lookup_app_l_Some, Hi|exact Hl'].
  - destruct (RedisSystem.tails r !! j) as [tlj|] eqn:Hj; [|exists tl; auto].
    pose proof (redis_next_listens n (channelMessages r)
                  (RedisSystem.q r) (RedisSystem.store r) tlj) as Hn.
    destruct (RedisStreamQueue.onDataReceive_next _ _ tlj) as [[[res q'] s'] tl'].
    cbn in *. destruct (decide (j = i)) as [->|Hne].
    + exists tl'. split; [apply list_lookup_insert_eq; eapply lookup_lt_Some, Hi|].
      rewrite Hi in Hj. injection Hj as <-.
      apply listensFrom_app, Hn, Hl.
    + exists tl. rewrite list_lookup_insert_ne by exact Hne. auto.
  - cbn. destruct (decide (j = i)) as [->|Hne].
    + eexists. rewrite list_lookup_alter_eq, Hi. split; [reflexivity|].
      apply listensFrom_app. apply deliver_listens. exact Hl.
    + exists tl. rewrite list_lookup_alter_ne by exact Hne. auto.
  - destruct (RedisSystem.tails r !! j) as [tlj|] eqn:Hj; [|exists tl; auto].
    pose proof (handleMessage_listens n k (channelMessages r)
                  (RedisSystem.q r) (RedisSystem.store r) tlj) as Hh.
    destruct (RedisStreamQueue.handleMessage k _ _ tlj) as [[q' s'] tl'].
    cbn in *. destruct (decide (j = i)) as [->|Hne].
    + exists tl'. split.
      * apply list_lookup_insert_eq.
        destruct (RedisStreamQueue.aborted q');
          [unfold RedisSystem.dispatchAbort;
           destruct (RedisStreamQueue.aborted (RedisSystem.q r));
           [|rewrite length_map]|]; eapply lookup_lt_Some, Hi.
      * rewrite Hi in Hj. injection Hj as <-. apply listensFrom_app, Hh, Hl.
    + rewrite list_lookup_insert_ne by exact Hne.
      destruct (RedisStreamQueue.aborted q'); [|exists tl; auto].
      eapply listensFrom_dispatchAbort; eassumption.
  - cbn. destruct (decide (j = i)) as [->|Hne].
    + eexists. rewrite list_lookup_alter_eq, Hi. split; [reflexivity|].
      apply listensFrom_keep; [apply keepsContents_afterCancel|exact Hl'].
    + exists tl. rewrite list_lookup_alter_ne by exact Hne. auto.
  - cbn. destruct (decide (j = i)) as [->|Hne].
    + eexists. rewrite list_lookup_alter_eq, Hi. split; [reflexivity|].
      apply listensFrom_keep; [apply keepsContents_onTimeout|exact Hl'].
    + exists tl. rewrite list_lookup_alter_ne by exact Hne. auto.
Qed.

Lemma redis_run_received (acts : list Action) :
  forall r : RedisSystem.t,
  redisReceivedFrom n i r -> redisReceivedFrom n i (RedisSystem.run acts r).
Proof.
  induction acts as [|a acts IH]; intros r Hr; [exact Hr|].
  apply IH, redis_step_received, Hr.
Qed.

Lemma redis_yield_received (r : RedisSystem.t) (item : Item) :
  redisReceivedFrom n i r ->
  RedisSystem.nextResult i r = Some (Yielded item) ->
  handedFrom n (channelMessages r) item.
Proof.
  intros (tl & Hi & Hl). unfold RedisSystem.nextResult. rewrite Hi.
  intros [= Hy].
  apply (redis_next_listens n _ (RedisSystem.q r) (RedisSystem.store r) tl Hl).
  exact Hy.
Qed.
End Invariant.
End RedisReceived.

Section LateJoiner.
Context `{Serializer} `{CancelMarker}.

(** The first [next()] on a generator that [onDataReceive()] has just
    returned, on a memory queue. *)
Lemma memory_first_next (q : MemoryStreamQueue.t) :
  let i := List.length (MemoryStreamQueue.tails q) in
  MemoryStreamQueue.onDataReceive_next i (MemoryStreamQueue.onDataReceive q).2
  = Some
      (if MemoryStreamQueue.aborted q
       then (Returned,
             MemoryStreamQueue.set_tails
               (MemoryStreamQueue.tails q ++ [set_phase Finished newTail]) q)
       else (Pending,
             MemoryStreamQueue.set_tails
               (MemoryStreamQueue.tails q
                ++ [set_phase AtAwait (set_pendingResolve true newTail)])
               (MemoryStreamQueue.set_handlers
                  (MemoryStreamQueue.handlers q ++ [i])
                  (MemoryStreamQueue.abortHandlers q ++ [i]) q))).
Proof.
  intros i. unfold MemoryStreamQueue.onDataReceive_next, MemoryStreamQueue.onDataReceive.
  cbn [snd MemoryStreamQueue.tails MemoryStreamQueue.set_tails].
  rewrite list_lookup_middle by reflexivity. cbn [phase newTail].
  cbn [MemoryStreamQueue.aborted].
  assert (Hins : forall tl, <[i := tl]> (MemoryStreamQueue.tails q ++ [newTail])
                            = MemoryStreamQueue.tails q ++ [tl]).
  { intros tl. subst i. rewrite insert_app_r_alt by lia.
    rewrite Nat.sub_diag. reflexivity. }
  destruct (MemoryStreamQueue.aborted q) eqn:Ha.
  - unfold MemoryStreamQueue.put_tail. cbn. rewrite Ha, Hins. reflexivity.
  - unfold MemoryStreamQueue.loop, loopHead. cbn. rewrite Ha. cbn.
    unfold MemoryStreamQueue.put_tail. cbn. rewrite Hins. reflexivity.
Qed.

(** A generator that has completed stays so. *)
Lemma memory_next_finished (i : nat) (q : MemoryStreamQueue.t) (tl : Tail) :
  MemoryStreamQueue.tails q !! i = Some tl -> phase tl = Finished ->
  MemoryStreamQueue.onDataReceive_next i q = Some (Returned, q).
Proof.
  intros Hi Hp. unfold MemoryStreamQueue.onDataReceive_next. rewrite Hi, Hp.
  reflexivity.
Qed.

(** C7.  When the cancellation signal of a queue is set, the first
    [next()] on a generator obtained from [onDataReceive()] completes it
    without yielding: no handler is registered on the emitter, no channel
    is subscribed, no abort listener is added and the generator does not
    suspend; the queue is as it was, with one more generator, which has
    completed.  Stated for the memory queue and for the Redis queue. *)
Theorem C7_cancelled_queue_tail_returns_at_once
    (mq : MemoryStreamQueue.t) (rq : RedisStreamQueue.t) (s : Redis.t) :
  MemoryStreamQueue.aborted mq = true ->
  RedisStreamQueue.aborted rq = true ->
  let '(i, mq1) := MemoryStreamQueue.onDataReceive mq in
  let done :=
    MemoryStreamQueue.set_tails
      (MemoryStreamQueue.tails mq ++ [set_phase Finished newTail]) mq in
  MemoryStreamQueue.onDataReceive_next i mq1 = Some (Returned, done)
  /\ RedisStreamQueue.onDataReceive_next rq s newTail
     = (Returned, rq, s, set_phase Finished newTail)
  /\ MemoryStreamQueue.onDataReceive_next i done = Some (Returned, done)
  /\ RedisStreamQueue.onDataReceive_next rq s (set_phase Finished newTail)
     = (Returned, rq, s, set_phase Finished newTail).
Proof.
  intros Hm Hr.
  pose proof (memory_first_next mq) as Hfirst. cbn zeta in Hfirst.
  rewrite Hm in Hfirst.
  unfold MemoryStreamQueue.onDataReceive in *. cbn [snd] in Hfirst.
  split; [exact Hfirst|]. split; [|split].
  - unfold RedisStreamQueue.onDataReceive_next. cbn. rewrite Hr. reflexivity.
  - apply (memory_next_finished _ _ (set_phase Finished newTail)); [|reflexivity].
    cbn. apply list_lookup_middle. reflexivity.
  - reflexivity.
Qed.

(** The first [next()] on a new generator of a Redis queue. *)
Lemma redis_first_next (r : RedisSystem.t) :
  let j := List.length (RedisSystem.tails r) in
  let channel := RedisStreamQueue.channelKey (RedisSystem.q r) in
  let r0 := RedisSystem.step OnDataReceive r in
  RedisSystem.nextResult j r0
  = Some (if RedisSystem.signalSet r then Returned else Pending)
  /\ RedisSystem.step (Next j) r0
     = if RedisSystem.signalSet r
       then RedisSystem.mk (RedisSystem.q r) (RedisSystem.store r)
              (RedisSystem.tails r ++ [set_phase Finished newTail])
       else RedisSystem.mk
              (RedisStreamQueue.set_abortListeners
                 (S (RedisStreamQueue.abortListeners (RedisSystem.q r)))
                 (RedisSystem.q r))
              (Redis.subscribe channel (RedisSystem.store r)).2
              (RedisSystem.tails r
               ++ [set_phase AtAwait
                     (set_pendingResolve true
                        (set_listener (Some (Redis.created (RedisSystem.store r)))
                           (set_cursor
                              (List.length
                                 (default []
                                    (Redis.published (RedisSystem.store r) !! channel)))
                              newTail)))]).
Proof.
  intros j channel r0. subst r0.
  unfold RedisSystem.nextResult, RedisSystem.signalSet.
  cbn [RedisSystem.step RedisSystem.tails RedisSystem.q RedisSystem.store].
  rewrite list_lookup_middle by reflexivity.
  assert (Hins : forall tl, <[j := tl]> (RedisSystem.tails r ++ [newTail])
                            = RedisSystem.tails r ++ [tl]).
  { intros tl. subst j. rewrite insert_app_r_alt by lia.
    rewrite Nat.sub_diag. reflexivity. }
  unfold RedisStreamQueue.onDataReceive_next. cbn [phase newTail].
  destruct (RedisStreamQueue.aborted (RedisSystem.q r)) eqn:Ha.
  - cbn. rewrite Hins. auto.
  - unfold Redis.subscribe, RedisStreamQueue.loop, loopHead. cbn. rewrite Ha. cbn.
    rewrite Hins. auto.
Qed.

(** C3 (as amended).  A consumer that calls [onDataReceive()] and
    [next()] on a queue, whatever its log holds and so when it ends in a
    terminal control event: if the cancellation signal is set the sequence
    ends at once; if it is not, the consumer registers its handler on the
    emitter, or its listener on the channel from the position the channel
    is at, with an empty buffer, and suspends.  Nothing of what the queue
    held before is yielded then or later: whatever the generator yields,
    after any further operations and live-tail steps, comes from a message
    emitted, or published on the channel, after the consumer arrived, and
    as long as there is none it yields nothing.  Stated for the memory
    queue and for the Redis queue. *)
Theorem C3_late_joiner_after_terminal_event
    (s : MemorySystem.t) (r : RedisSystem.t) (later : list Action) (item : Item) :
  let i := List.length (MemorySystem.tails s) in
  let s0 := MemorySystem.step OnDataReceive s in
  let s1 := MemorySystem.step (Next i) s0 in
  let s2 := MemorySystem.run later s1 in
  let j := List.length (RedisSystem.tails r) in
  let r0 := RedisSystem.step OnDataReceive r in
  let r1 := RedisSystem.step (Next j) r0 in
  let r2 := RedisSystem.run later r1 in
  let channel := RedisStreamQueue.channelKey (RedisSystem.q r) in
  (* memory queue *)
  (MemorySystem.nextResult i s0
   = Some (if MemorySystem.signalSet s then Returned else Pending)
   /\ MemorySystem.q s1
      = (if MemorySystem.signalSet s
         then MemoryStreamQueue.set_tails
                (MemorySystem.tails s ++ [set_phase Finished newTail])
                (MemorySystem.q s)
         else MemoryStreamQueue.set_tails
                (MemorySystem.tails s
                 ++ [set_phase AtAwait (set_pendingResolve true newTail)])
                (MemoryStreamQueue.set_handlers
                   (MemoryStreamQueue.handlers (MemorySystem.q s) ++ [i])
                   (MemoryStreamQueue.abortHandlers (MemorySystem.q s) ++ [i])
                   (MemorySystem.q s)))
   /\ (MemorySystem.nextResult i s2 = Some (Yielded item) ->
       handedFrom (List.length (MemoryStreamQueue.emitted (MemorySystem.q s)))
         (MemoryStreamQueue.emitted (MemorySystem.q s2)) item)
   /\ (MemoryStreamQueue.emitted (MemorySystem.q s2)
       = MemoryStreamQueue.emitted (MemorySystem.q s) ->
       MemorySystem.nextResult i s2 <> Some (Yielded item)))
  (* Redis queue *)
  /\ (RedisSystem.nextResult j r0
      = Some (if RedisSystem.signalSet r then Returned else Pending)
      /\ r1
         = (if RedisSystem.signalSet r
            then RedisSystem.mk (RedisSystem.q r) (RedisSystem.store r)
                   (RedisSystem.tails r ++ [set_phase Finished newTail])
            else RedisSystem.mk
                   (RedisStreamQueue.set_abortListeners
                      (S (RedisStreamQueue.abortListeners (RedisSystem.q r)))
                      (RedisSystem.q r))
                   (Redis.subscribe channel (RedisSystem.store r)).2
                   (RedisSystem.tails r
                    ++ [set_phase AtAwait
                          (set_pendingResolve true
                             (set_listener
                                (Some (Redis.created (RedisSystem.store r)))
                                (set_cursor (List.length (channelMessages r))
                                   newTail)))]))
      /\ (RedisSystem.nextResult j r2 = Some (Yielded item) ->
          handedFrom (List.length (channelMessages r)) (channelMessages r2) item)
      /\ (channelMessages r2 = channelMessages r ->
          RedisSystem.nextResult j r2 <> Some (Yielded item))).
Proof.
  intros i s0 s1 s2 j r0 r1 r2 channel.
  assert (Hnone : forall trace : list Item,
            ~ handedFrom (List.length trace) trace item).
  { intros trace (d & Hd & _). rewrite drop_all in Hd.
    apply elem_of_nil in Hd. exact Hd. }
  split.
  - pose proof (memory_first_next (MemorySystem.q s)) as Hfirst.
    cbn zeta in Hfirst. fold (MemorySystem.tails s) in Hfirst. fold i in Hfirst.
    assert (Hq1 : MemorySystem.q s1
                  = (if MemorySystem.signalSet s
                     then MemoryStreamQueue.set_tails
                            (MemorySystem.tails s ++ [set_phase Finished newTail])
                            (MemorySystem.q s)
                     else MemoryStreamQueue.set_tails
                            (MemorySystem.tails s
                             ++ [set_phase AtAwait (set_pendingResolve true newTail)])
                            (MemoryStreamQueue.set_handlers
                               (MemoryStreamQueue.handlers (MemorySystem.q s) ++ [i])
                               (MemoryStreamQueue.abortHandlers (MemorySystem.q s) ++ [i])
                               (MemorySystem.q s)))).
    { subst s1 s0. cbn [MemorySystem.step MemorySystem.q MemorySystem.heap].
      rewrite Hfirst. unfold MemorySystem.signalSet.
      destruct (MemoryStreamQueue.aborted (MemorySystem.q s)); reflexivity. }
    assert (Hrec : memoryReceivedFrom
                     (List.length (MemoryStreamQueue.emitted (MemorySystem.q s))) i
                     (MemorySystem.q s1)).
    { rewrite Hq1. split.
      - destruct (MemorySystem.signalSet s); cbn; lia.
      - destruct (MemorySystem.signalSet s); cbn.
        + exists (set_phase Finished newTail).
          split; [apply list_lookup_middle; reflexivity|].
          split; intros x Hx; cbn in Hx; apply elem_of_nil in Hx; destruct Hx.
        + exists (set_phase AtAwait (set_pendingResolve true newTail)).
          split; [apply list_lookup_middle; reflexivity|].
          split; intros x Hx; cbn in Hx; apply elem_of_nil in Hx; destruct Hx. }
    assert (Hyield : MemorySystem.nextResult i s2 = Some (Yielded item) ->
              handedFrom (List.length (MemoryStreamQueue.emitted (MemorySystem.q s)))
                (MemoryStreamQueue.emitted (MemorySystem.q s2)) item).
    { apply memory_yield_received. apply memory_run_received. exact Hrec. }
    split; [|split; [exact Hq1|split; [exact Hyield|]]].
    + subst s0. unfold MemorySystem.nextResult.
      cbn [MemorySystem.step MemorySystem.q]. rewrite Hfirst.
      unfold MemorySystem.signalSet.
      destruct (MemoryStreamQueue.aborted (MemorySystem.q s)); reflexivity.
    + intros He Hy. apply Hyield in Hy. rewrite He in Hy. exact (Hnone _ Hy).
  - destruct (redis_first_next r) as [Hres Hr1]. cbn zeta in Hres, Hr1.
    fold j in Hres, Hr1. fold r0 in Hres, Hr1. fold r1 in Hr1. fold channel in Hr1.
    assert (Hlen : List.length (channelMessages r)
                   = List.length (default [] (Redis.published (RedisSystem.store r)
                                              !! channel))).
    { unfold channelMessages. apply length_fmap. }
    rewrite <- Hlen in Hr1.
    assert (Hrec : redisReceivedFrom (List.length (channelMessages r)) j r1).
    { rewrite Hr1. destruct (RedisSystem.signalSet r).
      - exists (set_phase Finished newTail).
        split; [apply list_lookup_middle; reflexivity|].
        split; [discriminate|]. split; [left; reflexivity|].
        split; intros x Hx; cbn in Hx; apply elem_of_nil in Hx; destruct Hx.
      - eexists.
        split; [apply list_lookup_middle; reflexivity|].
        split; [discriminate|]. split; [right; cbn; lia|].
        split; intros x Hx; cbn in Hx; apply elem_of_nil in Hx; destruct Hx. }
    assert (Hyield : RedisSystem.nextResult j r2 = Some (Yielded item) ->
              handedFrom (List.length (channelMessages r)) (channelMessages r2) item).
    { apply redis_yield_received. apply redis_run_received. exact Hrec. }
    split; [exact Hres|]. split; [exact Hr1|]. split; [exact Hyield|].
    intros He Hy. apply Hyield in Hy. rewrite He in Hy. exact (Hnone _ Hy).
Qed.
End LateJoiner.

Section LateJoinerSamples.
#[local] Existing Instance jsonSerializer.
#[local] Existing Instance systemCancel.

(** Queues cancelled by [cancel()]: a consumer arriving afterwards gets a
    generator that completes at its first [next()]. *)
Lemma C7_cancelled_queue_tail_returns_at_once_witness :
  let mq := (MemoryStreamQueue.cancel
               (MemoryStreamQueue.new "run-1" true 300%Z []).1
               (MemoryStreamQueue.new "run-1" true 300%Z []).2).1 in
  let rq := (RedisStreamQueue.cancel
               (RedisStreamQueue.new "run-1" true 300%Z) Redis.empty).1 in
  let s := (RedisStreamQueue.cancel
              (RedisStreamQueue.new "run-1" true 300%Z) Redis.empty).2 in
  MemoryStreamQueue.aborted mq = true
  /\ RedisStreamQueue.aborted rq = true
  /\ (let '(i, mq1) := MemoryStreamQueue.onDataReceive mq in
      let done :=
        MemoryStreamQueue.set_tails
          (MemoryStreamQueue.tails mq ++ [set_phase Finished newTail]) mq in
      MemoryStreamQueue.onDataReceive_next i mq1 = Some (Returned, done)
      /\ RedisStreamQueue.onDataReceive_next rq s newTail
         = (Returned, rq, s, set_phase Finished newTail)
      /\ MemoryStreamQueue.onDataReceive_next i done = Some (Returned, done)
      /\ RedisStreamQueue.onDataReceive_next rq s (set_phase Finished newTail)
         = (Returned, rq, s, set_phase Finished newTail)).
Proof.
  intros mq rq s.
  split; [reflexivity|]. split; [reflexivity|].
  apply (C7_cancelled_queue_tail_returns_at_once mq rq s); reflexivity.
Defined.

(** A queue whose log ends in [__stream_end__]: a consumer that arrives
    then is yielded a payload pushed afterwards, and this payload is the
    third emission of the queue. *)
Lemma C3_late_joiner_after_terminal_event_witness :
  let s := MemorySystem.run [Push (token "Hi"); Push streamEnd]
             (MemorySystem.init "run-1" true 300%Z) in
  let later := [Push (token "late"); HandleData 0 0] in
  let s2 := MemorySystem.run later
              (MemorySystem.step (Next 0) (MemorySystem.step OnDataReceive s)) in
  MemorySystem.logTerminated s = true
  /\ MemorySystem.nextResult 0 s2 = Some (Yielded (Raw (token "late")))
  /\ handedFrom 2 (MemoryStreamQueue.emitted (MemorySystem.q s2))
       (Raw (token "late")).
Proof.
  intros s later s2.
  split; [reflexivity|]. split; [reflexivity|].
  destruct (C3_late_joiner_after_terminal_event s
              (RedisSystem.init "run-1" true 300%Z) later (Raw (token "late")))
    as ((_ & _ & Hyield & _) & _).
  apply Hyield. reflexivity.
Defined.

(** C3 as stated fails: after [token], [__stream_end__] are pushed, the log
    ends in a terminal control event, and the first [next()] of a late
    consumer does not complete the generator. *)
Lemma C3_counterexample_stream_end_in_log :
  ~ (forall acts : list Action,
       let s := MemorySystem.run acts (MemorySystem.init "run-1" true 300%Z) in
       MemorySystem.logTerminated s = true ->
       MemorySystem.nextResult (List.length (MemorySystem.tails s))
         (MemorySystem.step OnDataReceive s) = Some Returned).
Proof.
  intros Hclaim.
  specialize (Hclaim [Push (token "Hi"); Push streamEnd] eq_refl).
  vm_compute in Hclaim. discriminate Hclaim.
Qed.

(** The scenario of the specification: a live tail started before
    [token "Hi"], [token " there"], [__stream_end__] are pushed yields the
    three messages in that order, suspends for the grace delay and
    completes when the timer fires; [getAll()] returns the same three. *)
Lemma live_tail_scenario :
  let s0 := MemorySystem.run [OnDataReceive] (MemorySystem.init "run-1" true 300%Z) in
  let s1 := MemorySystem.run [Next 0; Push (token "Hi"); HandleData 0 0] s0 in
  let s2 := MemorySystem.run
              [Next 0; Push (token " there"); Push streamEnd;
               HandleData 0 0; HandleData 0 0] s1 in
  let s3 := MemorySystem.run [Next 0] s2 in
  let s4 := MemorySystem.run [Next 0] s3 in
  let s5 := MemorySystem.run [Next 0; Timeout 0] s4 in
  MemorySystem.nextResult 0 s0 = Some Pending
  /\ MemorySystem.nextResult 0 s1 = Some (Yielded (Raw (token "Hi")))
  /\ MemorySystem.nextResult 0 s2 = Some (Yielded (Raw (token " there")))
  /\ MemorySystem.nextResult 0 s3 = Some (Yielded (Raw streamEnd))
  /\ MemorySystem.nextResult 0 s4 = Some Pending
  /\ MemorySystem.nextResult 0 s5 = Some Returned
  /\ MemorySystem.log s5
     = Ok [Raw (token "Hi"); Raw (token " there"); Raw streamEnd].
Proof. vm_compute. repeat split; reflexivity. Qed.

(** The decodings need not be done in the order of the emissions: when the
    second one is done first, the consumer is yielded the second message
    first. *)
Lemma live_tail_decoded_out_of_order :
  let s := MemorySystem.run
             [OnDataReceive; Next 0; Push (token "Hi"); Push (token " there");
              HandleData 0 1; HandleData 0 0]
             (MemorySystem.init "run-1" true 300%Z) in
  MemorySystem.nextResult 0 s = Some (Yielded (Raw (token " there")))
  /\ MemorySystem.nextResult 0 (MemorySystem.step (Next 0) s)
     = Some (Yielded (Raw (token "Hi"))).
Proof. vm_compute. split; reflexivity. Qed.

(** A [__stream_cancel__] event pushed to a memory queue that stores
    messages as they are, with one consumer attached: the handler calls
    [cancel()] before [push] returns, so that the signal is set and the log
    holds the event and the cancel message. *)
Lemma pushed_cancel_event_with_consumer :
  let s := MemorySystem.run [OnDataReceive; Next 0; Push streamCancel]
             (MemorySystem.init "run-1" false 300%Z) in
  MemorySystem.signalSet s = true
  /\ MemorySystem.log s = Ok [Raw streamCancel; Raw CancelEventMessage].
Proof. vm_compute. split; reflexivity. Qed.

(** The same on the Redis queue, ended by [cancel()]: the suspended
    generator is woken by the abort listener and completes at the next
    [next()], and the subscription of the channel is dropped. *)
Lemma redis_live_tail_cancelled :
  let s0 := RedisSystem.run [OnDataReceive] (RedisSystem.init "run-1" true 300%Z) in
  let s1 := RedisSystem.run [Next 0; Push (token "Hi"); Deliver 0; HandleData 0 0] s0 in
  let s2 := RedisSystem.run [Next 0] s1 in
  let s3 := RedisSystem.run [Next 0; Cancel] s2 in
  let s4 := RedisSystem.run [Next 0] s3 in
  RedisSystem.nextResult 0 s0 = Some Pending
  /\ RedisSystem.nextResult 0 s1 = Some (Yielded (Raw (token "Hi")))
  /\ RedisSystem.nextResult 0 s2 = Some Pending
  /\ RedisSystem.nextResult 0 s3 = Some Returned
  /\ Redis.listening "channel:run-1" (RedisSystem.store s3) = [0%nat]
  /\ Redis.listening "channel:run-1" (RedisSystem.store s4) = []
  /\ RedisSystem.log s4 = Ok [token "Hi"; CancelEventMessage].
Proof. vm_compute. repeat split; reflexivity. Qed.
End LateJoinerSamples.

(** ** The manager *)

Section ManagerProperties.
Context `{Serializer} {Q W : Type} `{!StreamQueueInterface Q W}.

(** C6.  [getQueue(id)] returns the registered queue when there is one
    and leaves the manager as it is; otherwise, if the queue class has an
    existence check and the check succeeds for [id], it returns the queue
    that [createQueue(id)] makes and registers under [id]; otherwise it
    fails with the queue-not-found error.  Hence a queue is returned only
    for an id that is registered or confirmed by the backend. *)
Theorem C6_getQueue_cases (id : string) (m : StreamQueueManager.t) (w : W) :
  match StreamQueueManager.queues m !! id with
  | Some queue => StreamQueueManager.getQueue id m w = Ok (queue, m, w)
  | None =>
      if StreamQueueManager.backendExists id w then
        exists queue m' w',
          StreamQueueManager.getQueue id m w = Ok (queue, m', w')
          /\ (queue, w') = q_new id (StreamQueueManager.defaultCompressMessages m)
                             300%Z w
          /\ StreamQueueManager.queues m'
             = <[id := queue]> (StreamQueueManager.queues m)
          /\ StreamQueueManager.queues m' !! id = Some queue
      else StreamQueueManager.getQueue id m w = Err QueueNotFound
  end
  /\ (forall r, StreamQueueManager.getQueue id m w = Ok r ->
        is_Some (StreamQueueManager.queues m !! id)
        \/ StreamQueueManager.backendExists id w = true).
Proof.
  unfold StreamQueueManager.getQueue.
  destruct (StreamQueueManager.queues m !! id) as [queue|] eqn:Hreg.
  - split; [reflexivity|]. intros r _. left. eauto.
  - destruct (StreamQueueManager.backendExists id w) eqn:Hex.
    + split; [|intros r _; right; reflexivity].
      unfold StreamQueueManager.createQueue. simpl.
      destruct (q_new id (StreamQueueManager.defaultCompressMessages m) 300%Z w)
        as [queue w'].
      exists queue, (StreamQueueManager.set_queues
                       (<[id := queue]> (StreamQueueManager.queues m)) m), w'.
      simpl. rewrite lookup_insert_eq. auto.
    + split; [reflexivity|]. intros r Hr. discriminate Hr.
Qed.

(** C9.  For an id that is not in the registry, [cancelQueue(id)] and
    [clearQueue(id)] return normally and leave the manager and the store
    exactly as they were -- whatever the backend's existence check would
    answer for that id: the registry, the pending removals, every
    cancellation signal and every entry of the store are unchanged. *)
Theorem C9_cancel_and_clear_ignore_unregistered_ids
    (id : string) (m : StreamQueueManager.t) (w : W) :
  StreamQueueManager.queues m !! id = None ->
  StreamQueueManager.cancelQueue id m w = (m, w)
  /\ StreamQueueManager.clearQueue id m w = (m, w).
Proof.
  intros Hnone.
  unfold StreamQueueManager.cancelQueue, StreamQueueManager.clearQueue.
  rewrite Hnone. auto.
Qed.
End ManagerProperties.

Section RedisManager.
Context `{Serializer} `{CancelMarker}.

(** The existence check of the Redis queue class: a list is stored under
    the key of the id. *)
Lemma redis_backendExists (id : string) (s : Redis.t) :
  StreamQueueManager.backendExists (Q := RedisStreamQueue.t) id s = true
  <-> is_Some (Redis.lists s !! ("queue:" +:+ id)%string).
Proof.
  unfold StreamQueueManager.backendExists. simpl.
  unfold RedisStreamQueue.isQueueExist, Redis.exists_.
  destruct (Redis.lists s !! ("queue:" +:+ id)%string); simpl; split;
    intros Hx; eauto; try discriminate Hx. destruct Hx as [? Hx]. discriminate Hx.
Qed.

(** The memory queue class has no existence check. *)
Lemma memory_backendExists (id : string) (h : MemoryStreamQueue.Heap) :
  StreamQueueManager.backendExists (Q := MemoryStreamQueue.t) id h = false.
Proof. reflexivity. Qed.
End RedisManager.

Section ManagerOnRedis.
#[local] Existing Instance jsonSerializer.
#[local] Existing Instance systemCancel.

(** A queue another process has pushed to exists on the server, under
    ["queue:run-1"]; the manager of this process has an empty registry. *)
Lemma C6_getQueue_cases_witness :
  let s := (RedisStreamQueue.push (token "Hi")
              (RedisStreamQueue.new "run-1" true 300%Z) Redis.empty).2 in
  let m : StreamQueueManager.t (Q := RedisStreamQueue.t) :=
    StreamQueueManager.new None in
  (exists queue m',
     StreamQueueManager.getQueue "run-1" m s = Ok (queue, m', s)
     /\ StreamQueueManager.queues m' !! "run-1"%string = Some queue)
  /\ StreamQueueManager.getQueue "run-2" m s = Err QueueNotFound.
Proof.
  intros s m. split.
  - pose proof (C6_getQueue_cases "run-1"%string m s) as [Hc _].
    assert (Hreg : StreamQueueManager.queues m !! "run-1"%string = None)
      by apply lookup_empty.
    rewrite Hreg in Hc.
    assert (Hex : StreamQueueManager.backendExists (Q := RedisStreamQueue.t)
                    "run-1"%string s = true)
      by (vm_compute; reflexivity).
    rewrite Hex in Hc.
    destruct Hc as (queue & m' & w' & Hg & Hnew & _ & Hl).
    simpl in Hnew. injection Hnew as _ Hw. subst w'.
    exists queue, m'. auto.
  - vm_compute. reflexivity.
Defined.

(** The queue exists on the server and is not registered locally:
    [cancelQueue] and [clearQueue] do nothing. *)
Lemma C9_cancel_and_clear_ignore_unregistered_ids_witness :
  let s := (RedisStreamQueue.push (token "Hi")
              (RedisStreamQueue.new "run-1" true 300%Z) Redis.empty).2 in
  let m : StreamQueueManager.t (Q := RedisStreamQueue.t) :=
    StreamQueueManager.new None in
  RedisStreamQueue.isQueueExist "run-1" s = true
  /\ StreamQueueManager.cancelQueue "run-1" m s = (m, s)
  /\ StreamQueueManager.clearQueue "run-1" m s = (m, s).
Proof.
  intros s m. split; [vm_compute; reflexivity|].
  apply (C9_cancel_and_clear_ignore_unregistered_ids "run-1"%string m s).
  apply lookup_empty.
Defined.
End ManagerOnRedis.

(** ** push() on the Redis queue *)

Section RedisPush.
Context `{Serializer} `{CancelMarker}.

(** C8.  Every [push(item)] of a Redis queue appends the encoded bytes of
    [item] at the end of the list stored under the queue's key, sets the
    time to live of that key to the queue's [ttl], and publishes the same
    bytes on the queue's channel.  Other keys and channels, and the
    listeners of the subscriber client, are untouched. *)
Theorem C8_redis_push_effects (item : EventMessage)
    (q : RedisStreamQueue.t) (s : Redis.t) :
  let '(q', s') := RedisStreamQueue.push item q s in
  let key := RedisStreamQueue.queueKey q in
  let channel := RedisStreamQueue.channelKey q in
  Redis.lists s' !! key
  = Some (Redis.lRange_all key s ++ [encodeData item])
  /\ Redis.expiry s' !! key = Some (RedisStreamQueue.ttl q)
  /\ Redis.published s' !! channel
     = Some (default [] (Redis.published s !! channel) ++ [encodeData item])
  /\ (forall k, k <> key ->
        Redis.lists s' !! k = Redis.lists s !! k
        /\ Redis.expiry s' !! k = Redis.expiry s !! k)
  /\ (forall ch, ch <> channel ->
        Redis.published s' !! ch = Redis.published s !! ch)
  /\ Redis.subscribers s' = Redis.subscribers s
  /\ Redis.created s' = Redis.created s
  /\ RedisStreamQueue.emitted q' = RedisStreamQueue.emitted q ++ [encodeData item].
Proof.
  unfold RedisStreamQueue.push, Redis.publish, Redis.expire, Redis.rPush,
    Redis.lRange_all. simpl.
  rewrite !lookup_insert_eq. simpl. rewrite !lookup_insert_eq.
  split; [reflexivity|]. split; [reflexivity|]. split; [reflexivity|].
  split; [|split; [|auto]].
  - intros k Hne. rewrite !lookup_insert_ne by congruence. auto.
  - intros ch Hne. rewrite lookup_insert_ne by congruence. reflexivity.
Qed.

(** C10.  A Redis queue encodes what it pushes whatever its
    [compressMessages]: the entry appended to the list is the encoded
    bytes of the item, also for a queue constructed with
    [compressMessages = false]; its constructor calls the base
    constructor with the flag [true].  The memory queue stores the bytes
    when [compressMessages] is true and the message itself when it is
    false. *)
Theorem C10_redis_push_always_encodes (id : string) (c : bool) (ttl : Z)
    (item : EventMessage) (q : RedisStreamQueue.t) (s : Redis.t)
    (h0 : MemoryStreamQueue.Heap) :
  (* any Redis queue *)
  Redis.lRange_all (RedisStreamQueue.queueKey q) (RedisStreamQueue.push item q s).2
  = Redis.lRange_all (RedisStreamQueue.queueKey q) s ++ [encodeData item]
  (* a queue as constructed, for either flag *)
  /\ (let q0 := RedisStreamQueue.new id c ttl in
      Redis.lRange_all (RedisStreamQueue.queueKey q0)
        (RedisStreamQueue.push item q0 s).2
      = Redis.lRange_all (RedisStreamQueue.queueKey q0) s ++ [encodeData item])
  /\ base_compressMessages (RedisStreamQueue.super_call id c ttl) = true
  (* the memory queue *)
  /\ (let '(q0, h) := MemoryStreamQueue.new id c ttl h0 in
      let '(q1, h1) := MemoryStreamQueue.push item q0 h in
      MemoryStreamQueue.array_read (MemoryStreamQueue.data q1) h1
      = [if c then Enc (encodeData item) else Raw item]).
Proof.
  split; [|split; [|split]].
  - apply redis_push_fields.
  - apply redis_push_fields.
  - reflexivity.
  - pose proof (memory_new_data id c ttl h0) as (Hlt & Hnil & Hc & _ & Hh).
    destruct (MemoryStreamQueue.new id c ttl h0) as [q0 h]. cbn [fst snd] in *.
    pose proof (memory_push_read item q0 h (or_introl Hh) Hlt) as (Hr & Hd & _).
    destruct (MemoryStreamQueue.push item q0 h) as [q1 h1]. cbn [fst snd] in *.
    rewrite Hd, Hr, Hnil, Hc. reflexivity.
Qed.

(** The field [compressMessages] of a Redis queue is the constructor's
    argument: the parameter property is assigned after [super(...)]. *)
Lemma redis_new_compressMessages (id : string) (c : bool) (ttl : Z) :
  RedisStreamQueue.compressMessages (RedisStreamQueue.new id c ttl) = c.
Proof. reflexivity. Qed.
End RedisPush.

(* ===================================================================== *)
(** * Further properties of the queues, the generators and the manager    *)
(* ===================================================================== *)

(** ** The log under any sequence of operations *)

Section TraceLog.
Context `{Serializer} `{CancelMarker}.

Lemma array_read_alloc (r : nat) (h : MemoryStreamQueue.Heap) :
  (r < List.length h)%nat ->
  MemoryStreamQueue.array_read r (h ++ [[]]) = MemoryStreamQueue.array_read r h.
Proof.
  intros Hlt. unfold MemoryStreamQueue.array_read.
  rewrite lookup_app_l by exact Hlt. reflexivity.
Qed.

Lemma array_read_fresh (h : MemoryStreamQueue.Heap) :
  MemoryStreamQueue.array_read (List.length h) (h ++ [[]]) = [].
Proof.
  unfold MemoryStreamQueue.array_read.
  rewrite lookup_app_r by lia. rewrite Nat.sub_diag. reflexivity.
Qed.

Lemma array_read_push_other (r r' : nat) (x : Item) (h : MemoryStreamQueue.Heap) :
  r <> r' ->
  MemoryStreamQueue.array_read r (MemoryStreamQueue.array_push r' x h)
  = MemoryStreamQueue.array_read r h.
Proof.
  intros Hne. unfold MemoryStreamQueue.array_read, MemoryStreamQueue.array_push.
  rewrite list_lookup_alter_ne by congruence. reflexivity.
Qed.

(** [next()] leaves the waiting calls of every handler alone. *)
Lemma next_decoding (i : nat) (q q' : MemoryStreamQueue.t) (r : NextResult)
    (tl : Tail) :
  MemoryStreamQueue.onDataReceive_next i q = Some (r, q') ->
  MemoryStreamQueue.tails q !! i = Some tl ->
  exists tl', MemoryStreamQueue.tails q' !! i = Some tl'
              /\ decoding tl' = decoding tl.
Proof.
  intros Hn Hi. unfold MemoryStreamQueue.onDataReceive_next in Hn.
  rewrite Hi in Hn. injection Hn as Hn.
  assert (Hlt : (i < List.length (MemoryStreamQueue.tails q))%nat)
    by (eapply lookup_lt_Some; exact Hi).
  assert (Hloop : forall tl0 q0,
            MemoryStreamQueue.tails q0 = MemoryStreamQueue.tails q ->
            decoding tl0 = decoding tl ->
            exists tl', MemoryStreamQueue.tails (MemoryStreamQueue.loop i tl0 q0).2 !! i
                        = Some tl'
                        /\ decoding tl' = decoding tl).
  { intros tl0 q0 Ht Hd. unfold MemoryStreamQueue.loop, MemoryStreamQueue.finish.
    pose proof (loopHead_contents (MemoryStreamQueue.aborted q0) tl0) as Hc.
    destruct (loopHead (MemoryStreamQueue.aborted q0) tl0) as [|item tl'|tl']; cbn;
      rewrite Ht; rewrite list_lookup_insert_eq by exact Hlt; eexists;
      (split; [reflexivity|]).
    - exact Hd.
    - destruct Hc as (_ & _ & Ed & _). congruence.
    - destruct Hc as (_ & Ed & _). congruence. }
  destruct (phase tl).
  - destruct (MemoryStreamQueue.aborted q).
    + injection Hn as _ <-. cbn. rewrite list_lookup_insert_eq by exact Hlt.
      eexists. split; reflexivity.
    + specialize (Hloop tl
                    (MemoryStreamQueue.set_handlers
                       (MemoryStreamQueue.handlers q ++ [i])
                       (MemoryStreamQueue.abortHandlers q ++ [i]) q)
                    eq_refl eq_refl).
      rewrite Hn in Hloop. exact Hloop.
  - destruct (pendingResolve tl).
    + injection Hn as _ <-. exists tl. auto.
    + specialize (Hloop tl q eq_refl eq_refl). rewrite Hn in Hloop. exact Hloop.
  - destruct (queue tl !! next).
    + injection Hn as _ <-. cbn. rewrite list_lookup_insert_eq by exact Hlt.
      eexists. split; reflexivity.
    + specialize (Hloop (set_queue [] tl) q eq_refl eq_refl).
      rewrite Hn in Hloop. exact Hloop.
  - injection Hn as _ <-. exists tl. auto.
Qed.

Lemma next_noCancelWaiting (i : nat) (q q' : MemoryStreamQueue.t) (r : NextResult) :
  MemoryStreamQueue.onDataReceive_next i q = Some (r, q') ->
  noCancelWaiting q -> noCancelWaiting q'.
Proof.
  intros Hn Hk. unfold noCancelWaiting in *.
  rewrite Forall_lookup in Hk. apply Forall_lookup. intros j tl' Hj.
  destruct (next_fields _ _ _ _ Hn) as (_ & _ & _ & _ & _ & _ & _ & Hother).
  destruct (decide (j = i)) as [->|Hne].
  - destruct (MemoryStreamQueue.tails q !! i) as [tl|] eqn:Hi.
    + destruct (next_decoding _ _ _ _ _ Hn Hi) as (tl'' & Hi' & Ed).
      rewrite Hj in Hi'. injection Hi' as <-. rewrite Ed. eapply Hk. exact Hi.
    + unfold MemoryStreamQueue.onDataReceive_next in Hn. rewrite Hi in Hn.
      discriminate Hn.
  - rewrite Hother in Hj by exact Hne. eapply Hk. exact Hj.
Qed.

Lemma update_tail_noCancelWaiting (j : nat) (f : Tail -> Tail)
    (q : MemoryStreamQueue.t) :
  (forall tl, decoding (f tl) = decoding tl) ->
  noCancelWaiting q -> noCancelWaiting (MemoryStreamQueue.update_tail j f q).
Proof.
  intros Hf Hk. unfold noCancelWaiting in *. cbn.
  apply Forall_alter; [exact Hk|]. intros tl _ Htl. rewrite Hf. exact Htl.
Qed.

Lemma harmless_stored (c : bool) (item : EventMessage) :
  (forall m, loadsTyped (dumpsTyped m) = Some m) ->
  is_cancel_event (event item) = false ->
  harmless (memoryStored c item).
Proof.
  intros Hrt Hev d'. destruct c; cbn; [|discriminate].
  rewrite decodeData_encodeData by apply Hrt. cbn. intros [= <-]. exact Hev.
Qed.

Lemma receive_noCancelWaiting (c : bool) (d : Item) (tl : Tail) :
  harmless d -> Forall harmless (decoding tl) ->
  Forall harmless (decoding (receive c d tl)).
Proof.
  intros Hd Htl. unfold receive. destruct c.
  - cbn. apply Forall_app. split; [exact Htl|]. constructor; [exact Hd|constructor].
  - cbn. destruct (bufferItem_contents d tl) as (_ & Ed & _). rewrite Ed. exact Htl.
Qed.

(** A call of a handler that goes on with a message that is no
    [__stream_cancel__] event leaves the array of the queue alone. *)
Lemma handleData_decoded_harmless (i k : nat) (q : MemoryStreamQueue.t)
    (h : MemoryStreamQueue.Heap) :
  noCancelWaiting q ->
  (MemoryStreamQueue.handleData_decoded i k q h).2 = h
  /\ noCancelWaiting (MemoryStreamQueue.handleData_decoded i k q h).1.
Proof.
  intros Hk. unfold MemoryStreamQueue.handleData_decoded.
  destruct (MemoryStreamQueue.tails q !! i) as [tl|] eqn:Hi; [|auto].
  destruct (decoding tl !! k) as [item|] eqn:Hit; [|auto].
  assert (Htl : Forall harmless (decoding tl)).
  { unfold noCancelWaiting in Hk. rewrite Forall_lookup in Hk. eapply Hk. exact Hi. }
  set (q0 := MemoryStreamQueue.put_tail i
               (set_decoding (delete k (decoding tl)) tl) q).
  assert (Hk0 : noCancelWaiting q0).
  { unfold noCancelWaiting, q0. cbn. apply Forall_insert; [exact Hk|]. cbn.
    apply Forall_delete. exact Htl. }
  destruct (decodeItem item) as [d|e] eqn:Hd; [|auto].
  assert (Hnc : item_is_cancel d = false).
  { rewrite Forall_lookup in Htl. exact (Htl k item Hit d Hd). }
  unfold MemoryStreamQueue.handleData_body, MemoryStreamQueue.handleData_body_with.
  rewrite Hnc. cbn [fst snd]. split; [reflexivity|].
  apply update_tail_noCancelWaiting; [reflexivity|].
  apply update_tail_noCancelWaiting; [|exact Hk0].
  intros tl0. apply bufferItem_contents.
Qed.

(** A [push] of a message that is no [__stream_cancel__] event leaves no
    such event waiting to be decoded. *)
Lemma push_noCancelWaiting (item : EventMessage) (q : MemoryStreamQueue.t)
    (h : MemoryStreamQueue.Heap) :
  (forall m, loadsTyped (dumpsTyped m) = Some m) ->
  is_cancel_event (event item) = false ->
  registered (MemoryStreamQueue.handlers q) (MemoryStreamQueue.tails q) ->
  noCancelWaiting q ->
  noCancelWaiting (MemoryStreamQueue.push item q h).1.
Proof.
  intros Hrt Hnc Hreg Hk.
  rewrite (push_plain item q h (or_intror Hnc) Hreg).
  unfold noCancelWaiting in *. cbn. apply Forall_fmap.
  eapply Forall_impl; [exact Hk|]. intros tl Htl. cbn.
  destruct (running tl); [|exact Htl].
  apply receive_noCancelWaiting; [|exact Htl].
  apply harmless_stored; assumption.
Qed.

(** No step makes a handler wait for the decoding of a
    [__stream_cancel__] event, unless such an event is pushed; and then
    the signal is set by [cancel()] only. *)
Lemma memory_step_noCancelWaiting (a : Action) (s : MemorySystem.t) :
  (forall m, loadsTyped (dumpsTyped m) = Some m) ->
  noCancelEvent a = true ->
  MemoryInv (MemorySystem.q s) ->
  noCancelWaiting (MemorySystem.q s) ->
  noCancelWaiting (MemorySystem.q (MemorySystem.step a s))
  /\ MemorySystem.signalSet (MemorySystem.step a s)
     = MemorySystem.signalSet s
       || match a with Cancel => true | _ => false end.
Proof.
  intros Hrt Hnc (Hreg & Hareg & _) Hk. unfold MemorySystem.signalSet.
  destruct a as [item| | | |toId ttl| |j|j|j k|j|j]; cbn [MemorySystem.step];
    rewrite ?orb_false_r.
  - cbn in Hnc. apply negb_true_iff in Hnc.
    pose proof (push_noCancelWaiting item (MemorySystem.q s) (MemorySystem.heap s)
                  Hrt Hnc Hreg Hk) as Hk'.
    rewrite (push_plain item (MemorySystem.q s) (MemorySystem.heap s)
               (or_intror Hnc) Hreg) in *.
    split; [exact Hk'|reflexivity].
  - auto.
  - cbn. auto.
  - rewrite (cancel_registered (MemorySystem.q s) (MemorySystem.heap s) Hreg Hareg).
    cbn [MemorySystem.q MemorySystem.heap].
    split; [|cbn; symmetry; apply orb_true_r].
    unfold noCancelWaiting in *. cbn. apply Forall_fmap.
    eapply Forall_impl; [exact Hk|]. intros tl Htl. cbn.
    destruct (running tl); [|exact Htl].
    apply receive_noCancelWaiting.
    + apply harmless_stored; [exact Hrt|apply CancelEventMessage_event].
    + destruct (MemoryStreamQueue.aborted (MemorySystem.q s)); exact Htl.
  - cbn. auto.
  - cbn. split; [|reflexivity]. unfold noCancelWaiting in *. cbn.
    apply Forall_app. split; [exact Hk|]. constructor; [constructor|constructor].
  - destruct (MemoryStreamQueue.onDataReceive_next j (MemorySystem.q s))
      as [[r q']|] eqn:Hn; [|auto].
    cbn. split; [eapply next_noCancelWaiting; eassumption|].
    destruct (next_fields _ _ _ _ Hn) as (_ & _ & _ & _ & Ha & _). exact Ha.
  - auto.
  - destruct (handleData_decoded_harmless j k (MemorySystem.q s) (MemorySystem.heap s) Hk)
      as [_ Hk'].
    pose proof (memory_handleData_decoded_aborted j k (MemorySystem.q s)
                  (MemorySystem.heap s)) as Hab.
    assert (Hno : cancelEventAt k (MemoryStreamQueue.tails (MemorySystem.q s) !! j)
                  = false).
    { unfold cancelEventAt, decodedAt.
      destruct (MemoryStreamQueue.tails (MemorySystem.q s) !! j) as [tl|] eqn:Hj;
        [|reflexivity]. cbn.
      destruct (decoding tl !! k) as [item|] eqn:Hit; [|reflexivity].
      destruct (decodeItem item) as [d|e] eqn:Hd; [|reflexivity].
      unfold noCancelWaiting in Hk. rewrite Forall_lookup in Hk.
      specialize (Hk j tl Hj). rewrite Forall_lookup in Hk.
      exact (Hk k item Hit d Hd). }
    rewrite Hno, orb_false_r in Hab.
    destruct (MemoryStreamQueue.handleData_decoded j k
                (MemorySystem.q s) (MemorySystem.heap s)) as [q' h'].
    cbn in *. auto.
  - cbn. split; [|reflexivity].
    apply update_tail_noCancelWaiting; [|exact Hk]. intros tl.
    apply keepsContents_afterCancel.
  - cbn. split; [|reflexivity].
    apply update_tail_noCancelWaiting; [|exact Hk]. intros tl.
    apply keepsContents_onTimeout.
Qed.

(** One step of a memory queue against the abstract log. *)
Lemma memory_step_abstractLog (c : bool) (a : Action) (s : MemorySystem.t)
    (L : list EventMessage) :
  (forall m, loadsTyped (dumpsTyped m) = Some m) ->
  noCancelEvent a = true ->
  MemoryInv (MemorySystem.q s) ->
  MemorySystem.dataValid s ->
  MemoryStreamQueue.compressMessages (MemorySystem.q s) = c ->
  noCancelWaiting (MemorySystem.q s) ->
  MemorySystem.stored s = map (memoryStored c) L ->
  MemorySystem.stored (MemorySystem.step a s)
  = map (memoryStored c) (abstractLog [a] L).
Proof.
  intros Hrt Hnc (Hreg & Hareg & _) Hv Hc Hk Hlog.
  unfold MemorySystem.dataValid in Hv. unfold MemorySystem.stored in *.
  destruct a as [item| | | |toId ttl| |j|j|j k|j|j];
    cbn [abstractLog foldl MemorySystem.step].
  - (* push *)
    cbn in Hnc. apply negb_true_iff in Hnc.
    rewrite (push_plain item (MemorySystem.q s) (MemorySystem.heap s)
               (or_intror Hnc) Hreg).
    cbn [MemorySystem.q MemorySystem.heap MemoryStreamQueue.data
         MemoryStreamQueue.set_tails MemoryStreamQueue.set_emitted].
    rewrite array_read_push by exact Hv. rewrite Hlog, Hc, map_app. reflexivity.
  - exact Hlog.
  - (* clear *)
    cbn. apply array_read_fresh.
  - (* cancel *)
    rewrite (cancel_registered (MemorySystem.q s) (MemorySystem.heap s) Hreg Hareg).
    cbn [MemorySystem.q MemorySystem.heap MemoryStreamQueue.data
         MemoryStreamQueue.set_tails MemoryStreamQueue.set_emitted
         MemoryStreamQueue.set_aborted].
    rewrite array_read_push by exact Hv. rewrite Hlog, Hc, map_app. reflexivity.
  - (* copyToQueue *)
    cbn. rewrite array_read_alloc by exact Hv. exact Hlog.
  - (* onDataReceive *)
    exact Hlog.
  - (* next *)
    destruct (MemoryStreamQueue.onDataReceive_next j (MemorySystem.q s))
      as [[r q']|] eqn:Hn; [|exact Hlog].
    cbn. destruct (next_fields _ _ _ _ Hn) as (_ & _ & _ & Hd & _).
    rewrite Hd. exact Hlog.
  - exact Hlog.
  - (* a handler goes on *)
    destruct (handleData_decoded_harmless j k (MemorySystem.q s) (MemorySystem.heap s) Hk)
      as [Hh _].
    destruct (handleData_decoded_like j k (MemorySystem.q s) (MemorySystem.heap s))
      as ((_ & _ & _ & Hd & _) & _).
    destruct (MemoryStreamQueue.handleData_decoded j k
                (MemorySystem.q s) (MemorySystem.heap s)) as [q' h'].
    cbn in *. subst h'. rewrite Hd. exact Hlog.
  - exact Hlog.
  - exact Hlog.
Qed.

Lemma memory_run_abstractLog (c : bool) (acts : list Action) :
  (forall m, loadsTyped (dumpsTyped m) = Some m) ->
  forall (s : MemorySystem.t) (L : list EventMessage),
  forallb noCancelEvent acts = true ->
  MemoryInv (MemorySystem.q s) ->
  MemorySystem.dataValid s ->
  MemoryStreamQueue.compressMessages (MemorySystem.q s) = c ->
  noCancelWaiting (MemorySystem.q s) ->
  MemorySystem.stored s = map (memoryStored c) L ->
  let s' := MemorySystem.run acts s in
  MemoryStreamQueue.compressMessages (MemorySystem.q s') = c
  /\ MemorySystem.stored s' = map (memoryStored c) (abstractLog acts L)
  /\ noCancelWaiting (MemorySystem.q s')
  /\ MemorySystem.signalSet s'
     = MemorySystem.signalSet s
       || existsb (fun a => match a with Cancel => true | _ => false end) acts.
Proof.
  intros Hrt. induction acts as [|a acts IH]; intros s L Hall Hinv Hv Hc Hk Hlog.
  - cbn. rewrite orb_false_r. auto.
  - cbn [forallb] in Hall. apply andb_prop in Hall as [Ha Hall].
    pose proof (memory_step_abstractLog c a s L Hrt Ha Hinv Hv Hc Hk Hlog) as Hlog'.
    destruct (memory_step_noCancelWaiting a s Hrt Ha Hinv Hk) as [Hk' Hsig].
    destruct (memory_step_dataValid a s Hv) as [Hv' Hc'].
    destruct (IH (MemorySystem.step a s) (abstractLog [a] L) Hall
                (memory_step_inv a s Hinv) Hv' (eq_trans Hc' Hc) Hk' Hlog')
      as (Rc & Rl & Rk & Rs).
    split; [exact Rc|]. split; [exact Rl|]. split; [exact Rk|].
    etransitivity; [exact Rs|]. rewrite Hsig. cbn [existsb].
    rewrite orb_assoc. reflexivity.
Qed.

(** X1.  Whatever methods are called on a new memory queue, in any order
    and interleaved with consumers attaching and pulling, their handlers
    running and timers firing, [getAll()] returns the messages pushed
    since the last [clear()], with one cancel message for each [cancel()],
    in the order of the calls, as long as no [__stream_cancel__] event is
    pushed.  For either [compressMessages], the serializer being
    reversible. *)
Theorem X1_memory_log_follows_operations (id : string) (c : bool) (ttl : Z)
    (acts : list Action) :
  (forall m, loadsTyped (dumpsTyped m) = Some m) ->
  forallb noCancelEvent acts = true ->
  MemorySystem.log (MemorySystem.run acts (MemorySystem.init id c ttl))
  = Ok (map Raw (abstractLog acts [])).
Proof.
  intros Hrt Hall.
  assert (Hv0 : MemorySystem.dataValid (MemorySystem.init id c ttl))
    by (unfold MemorySystem.dataValid; simpl; lia).
  destruct (memory_run_abstractLog c acts Hrt (MemorySystem.init id c ttl) []
              Hall (new_inv id c ttl []) Hv0 eq_refl (Forall_nil_2 _) eq_refl)
    as (Hc & Hlog & _).
  unfold MemorySystem.log, MemoryStreamQueue.getAll.
  unfold MemorySystem.stored in Hlog.
  rewrite Hc, Hlog. destruct c.
  - apply mapR_decodeItem_stored, Hrt.
  - reflexivity.
Qed.

End TraceLog.

Section TraceLogSample.
#[local] Existing Instance jsonSerializer.
#[local] Existing Instance systemCancel.

(** Pushes, a cancel, a clear and a copy on a compressing queue with a
    consumer attached. *)
Lemma X1_memory_log_follows_operations_witness :
  MemorySystem.log
    (MemorySystem.run
       [OnDataReceive; Next 0; Push (token "a"); HandleData 0 0; Cancel; Clear;
        Push (token "b"); Next 0; CopyToQueue "run-2" None; Push streamEnd;
        HandleData 0 1; Timeout 0]
       (MemorySystem.init "run-1" true 300%Z))
  = Ok [Raw (token "b"); Raw streamEnd].
Proof.
  apply (X1_memory_log_follows_operations "run-1"%string true 300%Z
           [OnDataReceive; Next 0; Push (token "a"); HandleData 0 0; Cancel; Clear;
            Push (token "b"); Next 0; CopyToQueue "run-2"%string None;
            Push streamEnd; HandleData 0 1; Timeout 0]).
  - intros m. reflexivity.
  - reflexivity.
Defined.

End TraceLogSample.

Section RedisTraceLog.
Context `{Serializer} `{CancelMarker}.

Lemma redis_expire_lists (key : string) (seconds : Z) (s : Redis.t) :
  Redis.lists (Redis.expire key seconds s) = Redis.lists s.
Proof. unfold Redis.expire. destruct (Redis.lists s !! key); reflexivity. Qed.

(** [COPY] followed by [EXPIRE] on the destination leaves the source list
    as it is, also when source and destination are the same key. *)
Lemma redis_copy_expire_source (src dst : string) (seconds : Z) (s : Redis.t) :
  Redis.lists (Redis.expire dst seconds (Redis.copy src dst s)) !! src
  = Redis.lists s !! src.
Proof.
  rewrite redis_expire_lists. unfold Redis.copy.
  destruct (Redis.lists s !! src) as [l|] eqn:Hsrc; [|exact Hsrc].
  destruct (Redis.lists s !! dst) as [l'|] eqn:Hdst; [exact Hsrc|].
  cbn [Redis.lists].
  rewrite lookup_insert_ne; [exact Hsrc|].
  intros ->. rewrite Hsrc in Hdst. discriminate Hdst.
Qed.

Lemma redis_next_frame (q : RedisStreamQueue.t) (s : Redis.t) (tl : Tail) :
  let r := RedisStreamQueue.onDataReceive_next q s tl in
  RedisStreamQueue.queueKey r.1.1.2 = RedisStreamQueue.queueKey q
  /\ RedisStreamQueue.compressMessages r.1.1.2 = RedisStreamQueue.compressMessages q
  /\ RedisStreamQueue.isConnected r.1.1.2 = RedisStreamQueue.isConnected q
  /\ Redis.lists r.1.2 = Redis.lists s.
Proof.
  unfold RedisStreamQueue.onDataReceive_next, RedisStreamQueue.loop,
    RedisStreamQueue.finish.
  destruct (phase tl); cbn.
  - destruct (RedisStreamQueue.aborted q); cbn; [auto|].
    match goal with |- context [loopHead ?b ?t] => destruct (loopHead b t) end;
      cbn; auto.
  - destruct (pendingResolve tl); [auto|].
    destruct (loopHead (RedisStreamQueue.aborted q) tl); cbn; auto.
  - destruct (queue tl !! next); [auto|].
    destruct (loopHead (RedisStreamQueue.aborted q) (set_queue [] tl)); cbn; auto.
  - auto.
Qed.

Lemma redis_step_abstractLog (c : bool) (key : string) (a : Action)
    (s : RedisSystem.t) (L : list EventMessage) :
  notHandler a = true ->
  redisLogIs c key L s ->
  redisLogIs c key (abstractLog [a] L) (RedisSystem.step a s).
Proof.
  intros Hnh (Hk & Hc & Hconn & Hlog). unfold redisLogIs.
  destruct a; try discriminate Hnh; cbn [abstractLog foldl].
  - (* push *)
    pose proof (redis_push_fields item (RedisSystem.q s) (RedisSystem.store s))
      as (Hr & Hk' & Hc' & _).
    split; [rewrite <- Hk; exact Hk'|]. split; [rewrite <- Hc; exact Hc'|].
    split; [exact Hconn|].
    rewrite Hk in Hr. etransitivity; [exact Hr|].
    rewrite Hlog, map_app. reflexivity.
  - (* getAll *)
    auto.
  - (* clear *)
    unfold RedisSystem.step, RedisStreamQueue.clear. rewrite Hconn.
    cbn [RedisSystem.q RedisSystem.store].
    split; [exact Hk|]. split; [exact Hc|]. split; [exact Hconn|].
    unfold Redis.lRange_all, Redis.del. cbn [Redis.lists].
    rewrite Hk, lookup_delete_eq. reflexivity.
  - (* cancel *)
    pose proof (redis_push_fields CancelEventMessage
                  (RedisStreamQueue.set_aborted true (RedisSystem.q s))
                  (RedisSystem.store s)) as (Hr & Hk' & Hc' & _).
    split; [rewrite <- Hk; exact Hk'|]. split; [rewrite <- Hc; exact Hc'|].
    split; [exact Hconn|].
    cbn [RedisStreamQueue.queueKey RedisStreamQueue.set_aborted] in Hr.
    rewrite Hk in Hr. etransitivity; [exact Hr|].
    rewrite Hlog, map_app. reflexivity.
  - (* copyToQueue *)
    split; [exact Hk|]. split; [exact Hc|]. split; [exact Hconn|].
    rewrite <- Hlog. unfold Redis.lRange_all. f_equal. rewrite <- Hk.
    exact (redis_copy_expire_source _ _ _ _).
  - (* onDataReceive *)
    auto.
  - (* next *)
    cbn [RedisSystem.step].
    destruct (RedisSystem.tails s !! i) as [tl|]; [|auto].
    pose proof (redis_next_frame (RedisSystem.q s) (RedisSystem.store s) tl)
      as (Hk' & Hc' & Hconn' & Hl).
    destruct (RedisStreamQueue.onDataReceive_next (RedisSystem.q s)
                (RedisSystem.store s) tl) as [[[r q'] s'] tl'].
    cbn [fst snd RedisSystem.q RedisSystem.store] in *.
    rewrite Hk', Hc', Hconn'. unfold Redis.lRange_all in *. rewrite Hl. auto.
  - (* the listener is called *)
    auto.
  - (* a handler ends *)
    auto.
  - (* timeout *)
    auto.
Qed.

Lemma redis_run_abstractLog (c : bool) (key : string) (acts : list Action) :
  forall (s : RedisSystem.t) (L : list EventMessage),
  forallb notHandler acts = true ->
  redisLogIs c key L s ->
  redisLogIs c key (abstractLog acts L) (RedisSystem.run acts s).
Proof.
  induction acts as [|a acts IH]; intros s L Hall Hinv; [exact Hinv|].
  cbn [forallb] in Hall. apply andb_prop in Hall as [Ha Hall].
  exact (IH _ _ Hall (redis_step_abstractLog c key a s L Ha Hinv)).
Qed.

(** X2.  The same for a new Redis queue with [compressMessages] true whose
    key holds no list yet: after any sequence of method calls, consumers
    attaching and pulling, their listeners being called and timers firing
    (the handlers going on after the decoding apart), [getAll()]
    returns the messages pushed since the last [clear()], with one cancel
    message for each [cancel()], in order.  Copying the queue to another
    id does not change its log. *)
Theorem X2_redis_log_follows_operations (id : string) (ttl : Z)
    (acts : list Action) (s0 : Redis.t) (tls : list Tail) :
  (forall m, loadsTyped (dumpsTyped m) = Some m) ->
  forallb notHandler acts = true ->
  Redis.lists s0 !! ("queue:" +:+ id)%string = None ->
  RedisSystem.log
    (RedisSystem.run acts (RedisSystem.mk (RedisStreamQueue.new id true ttl) s0 tls))
  = Ok (abstractLog acts []).
Proof.
  intros Hrt Hall Hfresh.
  set (key := ("queue:" +:+ id)%string) in *.
  assert (Hinv : redisLogIs true key []
                   (RedisSystem.mk (RedisStreamQueue.new id true ttl) s0 tls)).
  { unfold redisLogIs. cbn [RedisSystem.q RedisSystem.store].
    split; [reflexivity|]. split; [reflexivity|]. split; [reflexivity|].
    unfold Redis.lRange_all. rewrite Hfresh. reflexivity. }
  destruct (redis_run_abstractLog true key acts _ _ Hall Hinv)
    as (Hk & Hc & _ & Hlog).
  unfold RedisSystem.log, RedisStreamQueue.getAll.
  rewrite Hk, Hc, Hlog.
  destruct (abstractLog acts []) as [|m L] eqn:HL; [reflexivity|].
  change (map encodeData (m :: L)) with (encodeData m :: map encodeData L).
  cbv iota. exact (mapR_decodeData_encodeData (m :: L) Hrt).
Qed.
End RedisTraceLog.

Section RedisTraceLogSample.
#[local] Existing Instance jsonSerializer.
#[local] Existing Instance systemCancel.

(** A Redis queue that is copied, cancelled, cleared and pushed to. *)
Lemma X2_redis_log_follows_operations_witness :
  RedisSystem.log
    (RedisSystem.run
       [Push (token "a"); CopyToQueue "run-3" None; Cancel; Clear;
        Push (token "b"); CopyToQueue "run-2" (Some 60%Z); Push streamEnd]
       (RedisSystem.mk (RedisStreamQueue.new "run-1" true 300%Z) Redis.empty []))
  = Ok [token "b"; streamEnd].
Proof.
  apply (X2_redis_log_follows_operations "run-1"%string 300%Z
           [Push (token "a"); CopyToQueue "run-3"%string None; Cancel; Clear;
            Push (token "b"); CopyToQueue "run-2"%string (Some 60%Z);
            Push streamEnd]
           Redis.empty []).
  - intros m. reflexivity.
  - reflexivity.
  - apply lookup_empty.
Defined.
End RedisTraceLogSample.

(** ** Cancellation releases every consumer *)

Section CancelReleases.
Context `{Serializer} `{CancelMarker}.

Lemma memory_next_released (i : nat) (q : MemoryStreamQueue.t) (tl : Tail) :
  MemoryStreamQueue.aborted q = true ->
  MemoryStreamQueue.tails q !! i = Some tl ->
  released tl ->
  fst <$> MemoryStreamQueue.onDataReceive_next i q <> Some Pending.
Proof.
  intros Ha Hi Hrel. unfold MemoryStreamQueue.onDataReceive_next. rewrite Hi. cbn.
  unfold MemoryStreamQueue.loop, MemoryStreamQueue.finish, loopHead, released in *.
  destruct (phase tl) eqn:Hph.
  - rewrite Ha. cbn. discriminate.
  - rewrite (Hrel eq_refl), Ha, andb_false_r. cbn. discriminate.
  - destruct (queue tl !! next).
    + cbn. discriminate.
    + rewrite Ha, andb_false_r. cbn. discriminate.
  - cbn. discriminate.
Qed.

(** X4.  Cancellation releases every consumer of a memory queue.  In every
    state reached from a new queue by method calls, consumers attaching and
    pulling, data handlers and timers, if the cancellation signal is set
    then no generator is left suspended: whichever generator a consumer
    calls [next()] on, the call is answered (with a buffered item or with
    completion), it does not stay pending. *)
Theorem X4_cancelled_queue_blocks_no_consumer (id : string) (c : bool) (ttl : Z)
    (acts : list Action) (i : nat) :
  let s := MemorySystem.run acts (MemorySystem.init id c ttl) in
  MemorySystem.signalSet s = true ->
  MemorySystem.nextResult i s <> Some Pending.
Proof.
  intros s Hset.
  pose proof (memory_reachable_inv id c ttl acts) as (_ & _ & Hrel).
  fold s in Hrel. specialize (Hrel Hset).
  unfold MemorySystem.nextResult.
  destruct (MemoryStreamQueue.tails (MemorySystem.q s) !! i) as [tl|] eqn:Htl.
  - apply (memory_next_released i _ tl Hset Htl).
    exact (proj1 (Forall_lookup _ _) Hrel i tl Htl).
  - unfold MemoryStreamQueue.onDataReceive_next. rewrite Htl. discriminate.
Qed.
End CancelReleases.

Section CancelReleasesSample.
#[local] Existing Instance jsonSerializer.
#[local] Existing Instance systemCancel.

(** A consumer suspended with one item buffered but not yet pulled; the
    queue is cancelled: its [next()] completes the generator. *)
Lemma X4_cancelled_queue_blocks_no_consumer_witness :
  let s := MemorySystem.run
             [OnDataReceive; Next 0; Push (token "Hi"); HandleData 0 0; Cancel]
             (MemorySystem.init "run-1" true 300%Z) in
  MemorySystem.signalSet s = true
  /\ MemorySystem.nextResult 0 s <> Some Pending
  /\ MemorySystem.nextResult 0 s = Some Returned.
Proof.
  intros s. split; [reflexivity|]. split.
  - apply (X4_cancelled_queue_blocks_no_consumer "run-1"%string true 300%Z
             [OnDataReceive; Next 0; Push (token "Hi"); HandleData 0 0; Cancel] 0).
    reflexivity.
  - vm_compute. reflexivity.
Defined.
End CancelReleasesSample.

(** ** Handlers registered and generators running *)

Section ListenerBalance.
Context `{Serializer} `{CancelMarker}.

Lemma runningIndices_snoc (tls : list Tail) (tl : Tail) :
  runningIndices (tls ++ [tl])
  = runningIndices tls ++ (if running tl then [List.length tls] else []).
Proof.
  unfold runningIndices. rewrite length_app. cbn [List.length].
  rewrite Nat.add_1_r, seq_S, filter_app. cbn [Nat.add]. f_equal.
  - assert (Hext : forall l : list nat,
              Forall (fun i => (i < List.length tls)%nat) l ->
              filter (fun i => running <$> (tls ++ [tl]) !! i = Some true) l
              = filter (fun i => running <$> tls !! i = Some true) l).
    { induction l as [|x l IH]; intros Hall; [reflexivity|].
      apply Forall_cons in Hall as [Hx Hall].
      rewrite !filter_cons, IH by exact Hall.
      rewrite lookup_app_l by exact Hx. reflexivity. }
    apply Hext. apply Forall_forall. intros x Hx. apply elem_of_seq in Hx. lia.
  - rewrite filter_cons, filter_nil. rewrite list_lookup_middle by reflexivity.
    cbn. destruct (running tl).
    + rewrite decide_True by reflexivity. reflexivity.
    + rewrite decide_False by discriminate. reflexivity.
Qed.

Lemma runningIndices_length (tls : list Tail) :
  List.length (runningIndices tls) = MemoryConsumer.countSubscribed tls.
Proof.
  unfold MemoryConsumer.countSubscribed, MemoryStreamQueue.subscribed.
  induction tls as [|tl tls IH] using rev_ind; [reflexivity|].
  rewrite runningIndices_snoc, List.filter_app, !length_app, IH. cbn.
  destruct (running tl); reflexivity.
Qed.

Lemma registered_runningIndices (hs : list nat) (tls : list Tail) :
  registered hs tls -> hs ≡ₚ runningIndices tls.
Proof.
  intros [Hnd Hiff]. apply NoDup_Permutation; [exact Hnd| |].
  - unfold runningIndices. apply NoDup_filter, NoDup_seq.
  - intros i. rewrite Hiff. unfold runningIndices.
    rewrite list_elem_of_filter, elem_of_seq. split; [|intros [Hr _]; exact Hr].
    intros Hr. split; [exact Hr|]. split; [lia|]. cbn.
    destruct (tls !! i) as [tl|] eqn:Hi; [|discriminate].
    eapply lookup_lt_Some. exact Hi.
Qed.

Lemma registered_length (hs : list nat) (tls : list Tail) :
  registered hs tls -> List.length hs = MemoryConsumer.countSubscribed tls.
Proof.
  intros Hreg. rewrite <- runningIndices_length.
  apply Permutation_length, registered_runningIndices, Hreg.
Qed.

Lemma countSubscribed_finished (tls : list Tail) :
  Forall (fun tl => phase tl = Finished) tls ->
  MemoryConsumer.countSubscribed tls = O.
Proof.
  unfold MemoryConsumer.countSubscribed, MemoryStreamQueue.subscribed, running.
  induction 1 as [|tl tls Hp _ IH]; [reflexivity|].
  cbn. rewrite Hp. exact IH.
Qed.

(** X5.  On a memory queue, the data handlers on the emitter and the
    abort listeners on the signal are exactly those of the generators that
    are running (entered and not completed), each once, in every state
    reached from a new queue by method calls, consumers attaching and
    pulling, data handlers and timers: every way a generator completes
    removes its handler and its listener, and nothing else does.  In
    particular, when all generators have completed, none is left. *)
Theorem X5_handlers_match_running_generators (id : string) (c : bool) (ttl : Z)
    (acts : list Action) :
  let s := MemorySystem.run acts (MemorySystem.init id c ttl) in
  MemoryStreamQueue.listeners (MemorySystem.q s)
  = MemoryConsumer.countSubscribed (MemorySystem.tails s)
  /\ MemoryStreamQueue.abortListeners (MemorySystem.q s)
     = MemoryConsumer.countSubscribed (MemorySystem.tails s)
  /\ (Forall (fun tl => phase tl = Finished) (MemorySystem.tails s) ->
      MemoryStreamQueue.listeners (MemorySystem.q s) = O
      /\ MemoryStreamQueue.abortListeners (MemorySystem.q s) = O)
  /\ MemoryStreamQueue.handlers (MemorySystem.q s)
     ≡ₚ runningIndices (MemorySystem.tails s)
  /\ MemoryStreamQueue.abortHandlers (MemorySystem.q s)
     ≡ₚ runningIndices (MemorySystem.tails s).
Proof.
  intros s.
  pose proof (memory_reachable_inv id c ttl acts) as (Hh & Ha & _).
  fold s in Hh, Ha.
  pose proof (registered_length _ _ Hh) as Lh.
  pose proof (registered_length _ _ Ha) as La.
  split; [exact Lh|]. split; [exact La|]. split.
  - intros Hfin. unfold MemoryStreamQueue.listeners, MemoryStreamQueue.abortListeners.
    rewrite Lh, La. split; apply countSubscribed_finished; exact Hfin.
  - split; apply registered_runningIndices; assumption.
Qed.
End ListenerBalance.

(** ** The unsubscribe function of onDataChange *)

Lemma Emitter_off_callback_keeps_arrows (listener : nat) (fns : list Emitter.Fn) :
  Forall (fun fn => exists k l, fn = Emitter.Arrow k l) fns ->
  List.filter (fun g => negb (Emitter.Fn_eqb g (Emitter.Callback listener))) fns = fns.
Proof.
  induction 1 as [|fn fns (k & l & ->) _ IH]; [reflexivity|].
  cbn. rewrite IH. reflexivity.
Qed.

(** X7.  The function that [onDataChange(listener)] returns does not undo
    the subscription.  It asks the emitter to remove [listener], but what
    was registered is an arrow function around it: after calling the
    returned function the arrow is still registered, so [listener] is
    still called on every ['dataChange']; the only handlers it removes are
    direct registrations of [listener] itself; and on an emitter that holds
    only handlers registered through [onDataChange] it removes nothing. *)
Theorem X7_onDataChange_unsubscribe_keeps_handler (listener : nat) (e : Emitter.t) :
  let '(e', unsubscribe) := Emitter.onDataChange listener e in
  In (Emitter.Arrow (Emitter.created e) listener) (Emitter.handlers (unsubscribe e'))
  /\ In listener (Emitter.notified (unsubscribe e'))
  /\ (forall fn, In fn (Emitter.handlers e') ->
        fn <> Emitter.Callback listener ->
        In fn (Emitter.handlers (unsubscribe e')))
  /\ (Forall (fun fn => exists k l, fn = Emitter.Arrow k l) (Emitter.handlers e) ->
      unsubscribe e' = e').
Proof.
  cbn [Emitter.onDataChange].
  assert (Hkeep : forall fn fns, In fn fns -> fn <> Emitter.Callback listener ->
            In fn (List.filter
                     (fun g => negb (Emitter.Fn_eqb g (Emitter.Callback listener))) fns)).
  { intros fn fns Hin Hne. apply List.filter_In. split; [exact Hin|].
    destruct fn as [l|k l]; cbn; [|reflexivity].
    destruct (Nat.eqb_spec l listener) as [->|Hl]; [contradiction|reflexivity]. }
  assert (Harrow : In (Emitter.Arrow (Emitter.created e) listener)
                     (Emitter.handlers
                        (Emitter.off (Emitter.Callback listener)
                           (Emitter.mk
                              (Emitter.handlers e
                               ++ [Emitter.Arrow (Emitter.created e) listener])
                              (S (Emitter.created e)))))).
  { cbn [Emitter.off Emitter.handlers]. apply Hkeep; [|discriminate].
    apply in_or_app. right. left. reflexivity. }
  split; [exact Harrow|]. split; [|split].
  - unfold Emitter.notified.
    exact (in_map (fun fn => match fn with
                             | Emitter.Callback l => l
                             | Emitter.Arrow _ l => l
                             end) _ _ Harrow).
  - intros fn Hin Hne. cbn [Emitter.off Emitter.handlers] in *.
    apply Hkeep; assumption.
  - intros Hall. unfold Emitter.off. cbn [Emitter.handlers Emitter.created].
    rewrite Emitter_off_callback_keeps_arrows; [reflexivity|].
    apply Forall_app. split; [exact Hall|].
    constructor; [eauto|constructor].
Qed.


(** ** The manager: creating, locating and removing queues *)

Section ManagerMemory.
Context `{Serializer} `{CancelMarker}.

Lemma mapR_snoc {A B : Type} (f : A -> Result B) (xs : list A) (x : A)
    (ys : list B) (y : B) :
  mapR f xs = Ok ys -> f x = Ok y -> mapR f (xs ++ [x]) = Ok (ys ++ [y]).
Proof.
  revert ys. induction xs as [|x0 xs IH]; intros ys Hxs Hx.
  - injection Hxs as <-. cbn. rewrite Hx. reflexivity.
  - cbn in *. destruct (f x0) as [y0|e]; [|discriminate Hxs]. cbn in *.
    destruct (mapR f xs) as [ys0|e]; [|discriminate Hxs]. cbn in *.
    injection Hxs as <-. rewrite (IH ys0 eq_refl Hx). reflexivity.
Qed.

(** [getAll()] after a [push], on any memory queue: the message is added
    to what [getAll()] returned, followed, when the handlers of attached
    consumers have called [cancel()] within the [push], by one cancel
    message for each of them. *)
Lemma memory_getAll_push (q : MemoryStreamQueue.t) (h : MemoryStreamQueue.Heap)
    (item : EventMessage) (L : list Item) :
  loadsTyped (dumpsTyped item) = Some item ->
  (MemoryStreamQueue.data q < List.length h)%nat ->
  MemoryStreamQueue.getAll q h = Ok L ->
  let st := MemoryStreamQueue.push item q h in
  MemoryStreamQueue.getAll st.1 st.2
  = Ok (L ++ Raw item
          :: (if negb (MemoryStreamQueue.compressMessages q)
                 && is_cancel_event (event item)
              then replicate (MemoryStreamQueue.listeners q) (Raw CancelEventMessage)
              else [])).
Proof.
  intros Hrt Hv Hall.
  destruct (push_like item q h) as ((_ & Hc & _ & Hd & _) & _).
  cbv zeta. unfold MemoryStreamQueue.getAll in *. rewrite Hd, Hc.
  destruct (negb (MemoryStreamQueue.compressMessages q)
            && is_cancel_event (event item)) eqn:Hcase.
  - apply andb_true_iff in Hcase as [Hcf Hev]. apply negb_true_iff in Hcf.
    destruct (push_cancel_event item q h Hcf Hev) as [Hheap _].
    rewrite Hheap, Hcf in *. rewrite array_read_appended by exact Hv.
    injection Hall as <-. reflexivity.
  - assert (Hplain : MemoryStreamQueue.handlers q = []
                     \/ MemoryStreamQueue.compressMessages q = true
                     \/ is_cancel_event (event item) = false).
    { right. apply andb_false_iff in Hcase as [Hcf|Hev]; [left|right; exact Hev].
      apply negb_false_iff. exact Hcf. }
    rewrite (push_heap_plain item q h Hplain).
    rewrite array_read_push by exact Hv. unfold memoryStored.
    destruct (MemoryStreamQueue.compressMessages q).
    + apply mapR_snoc; [exact Hall|].
      cbn [decodeItem]. rewrite decodeData_encodeData by exact Hrt. reflexivity.
    + injection Hall as <-. reflexivity.
Qed.

(** X8.  [pushToQueue] and [getQueueData] of a manager of memory queues.
    For an id that is not registered, [pushToQueue] fails with the
    queue-not-found error.  For a registered queue, whatever consumers are
    attached to it, [pushToQueue(id, item)] succeeds and [getQueueData(id)]
    afterwards returns what it returned before followed by [item], and,
    when [item] is a [__stream_cancel__] event on a queue that stores
    messages as they are, by one cancel message for each handler on the
    emitter; the other registrations are untouched. *)
Theorem X8_memory_pushToQueue_then_getQueueData (id : string)
    (item : EventMessage) (m : StreamQueueManager.t (Q := MemoryStreamQueue.t))
    (h : MemoryStreamQueue.Heap) (q : MemoryStreamQueue.t) (L : list Item) :
  loadsTyped (dumpsTyped item) = Some item ->
  StreamQueueManager.queues m !! id = Some q ->
  (MemoryStreamQueue.data q < List.length h)%nat ->
  StreamQueueManager.getQueueData id m h = Ok L ->
  (forall id', StreamQueueManager.queues m !! id' = None ->
     StreamQueueManager.pushToQueue id' item m h = Err QueueNotFound)
  /\ exists m' h',
       StreamQueueManager.pushToQueue id item m h = Ok (m', h')
       /\ StreamQueueManager.getQueueData id m' h'
          = Ok (L ++ Raw item
                  :: (if negb (MemoryStreamQueue.compressMessages q)
                         && is_cancel_event (event item)
                      then replicate (MemoryStreamQueue.listeners q)
                             (Raw CancelEventMessage)
                      else []))
       /\ forall id', id' <> id ->
            StreamQueueManager.queues m' !! id' = StreamQueueManager.queues m !! id'.
Proof.
  intros Hrt Hreg Hv Hdata. split.
  - intros id' Hnone. unfold StreamQueueManager.pushToQueue,
      StreamQueueManager.getQueue. rewrite Hnone. reflexivity.
  - unfold StreamQueueManager.getQueueData in Hdata. rewrite Hreg in Hdata.
    cbn [q_getAll MemoryStreamQueue_interface] in Hdata.
    pose proof (memory_getAll_push q h item L Hrt Hv Hdata) as Hafter.
    unfold StreamQueueManager.pushToQueue, StreamQueueManager.getQueue.
    rewrite Hreg. cbn [bindR q_push MemoryStreamQueue_interface].
    destruct (MemoryStreamQueue.push item q h) as [q' h'] eqn:Hpush.
    cbn [fst snd] in Hafter.
    eexists _, _. split; [reflexivity|]. split.
    + unfold StreamQueueManager.getQueueData.
      cbn [StreamQueueManager.queues StreamQueueManager.set_queues].
      rewrite lookup_insert_eq. exact Hafter.
    + intros id' Hne.
      cbn [StreamQueueManager.queues StreamQueueManager.set_queues].
      apply lookup_insert_ne. congruence.
Qed.
End ManagerMemory.

Section ManagerGeneric.
Context `{Serializer} {Q W : Type} `{!StreamQueueInterface Q W}.

(** X9.  [removeQueue(id)] deregisters by id, half a second later,
    whatever is registered under the id by then.  Until the timer fires
    the registry is unchanged.  If [createQueue(id)] runs in between, it is
    the new queue that the timer deregisters: the id is unknown to the
    manager afterwards. *)
Theorem X9_removeQueue_removes_a_later_queue (id : string) (ttl : option Z)
    (m : StreamQueueManager.t) (w : W) :
  StreamQueueManager.removals m = [] ->
  let m1 := StreamQueueManager.removeQueue id m in
  let '(q, m2, w2) := StreamQueueManager.createQueue id ttl m1 w in
  let m3 := StreamQueueManager.removeQueue_timeout m2 in
  StreamQueueManager.queues m1 = StreamQueueManager.queues m
  /\ StreamQueueManager.queues m2 !! id = Some q
  /\ StreamQueueManager.queues m3 !! id = None
  /\ StreamQueueManager.removals m3 = []
  /\ forall id', id' <> id ->
       StreamQueueManager.queues m3 !! id' = StreamQueueManager.queues m !! id'.
Proof.
  intros Hnil. cbv zeta. unfold StreamQueueManager.createQueue.
  cbn [StreamQueueManager.removeQueue StreamQueueManager.queues
       StreamQueueManager.defaultCompressMessages].
  destruct (q_new id (StreamQueueManager.defaultCompressMessages m)
              (default 300%Z ttl) w) as [q w'].
  unfold StreamQueueManager.removeQueue_timeout, StreamQueueManager.removeQueue.
  cbn [StreamQueueManager.set_queues StreamQueueManager.removals
       StreamQueueManager.queues StreamQueueManager.defaultCompressMessages].
  rewrite Hnil. cbn [app StreamQueueManager.queues StreamQueueManager.removals].
  split; [reflexivity|]. split; [apply lookup_insert_eq|].
  split; [apply lookup_delete_eq|]. split; [reflexivity|].
  intros id' Hne. rewrite lookup_delete_ne by congruence.
  apply lookup_insert_ne. congruence.
Qed.
End ManagerGeneric.

Section ManagerCancel.
Context `{Serializer} {Q W : Type} `{!StreamQueueInterface Q W}.

(** X10.  [cancelQueue(id)] on a registered queue, then the removal timer.
    The queue is cancelled at once ([cancel()] has run on it, on the store
    as it was) but stays registered, so that [getQueue] and
    [getQueueData] still reach it, until the timer fires; from then on the
    id is not registered and [getQueueData(id)] fails with the
    queue-not-found error.  Other registrations are never touched. *)
Theorem X10_cancelQueue_deregisters_after_the_timer (id : string)
    (m : StreamQueueManager.t) (w : W) (queue : Q) :
  StreamQueueManager.queues m !! id = Some queue ->
  StreamQueueManager.removals m = [] ->
  let '(m1, w1) := StreamQueueManager.cancelQueue id m w in
  let m2 := StreamQueueManager.removeQueue_timeout m1 in
  (q_cancel queue w = (default queue (StreamQueueManager.queues m1 !! id), w1)
   /\ StreamQueueManager.getQueue id m1 w1 = Ok ((q_cancel queue w).1, m1, w1)
   /\ StreamQueueManager.getQueueData id m1 w1
      = q_getAll (q_cancel queue w).1 w1)
  /\ (StreamQueueManager.queues m2 !! id = None
      /\ StreamQueueManager.getQueueData id m2 w1 = Err QueueNotFound)
  /\ forall id', id' <> id ->
       StreamQueueManager.queues m1 !! id' = StreamQueueManager.queues m !! id'
       /\ StreamQueueManager.queues m2 !! id' = StreamQueueManager.queues m !! id'.
Proof.
  intros Hreg Hnil. unfold StreamQueueManager.cancelQueue. rewrite Hreg.
  destruct (q_cancel queue w) as [queue' w'].
  unfold StreamQueueManager.removeQueue_timeout, StreamQueueManager.removeQueue,
    StreamQueueManager.getQueue, StreamQueueManager.getQueueData.
  cbn [StreamQueueManager.set_queues StreamQueueManager.removals
       StreamQueueManager.queues StreamQueueManager.defaultCompressMessages
       fst snd].
  rewrite Hnil. cbn [app StreamQueueManager.queues].
  rewrite !lookup_insert_eq, !lookup_delete_eq. cbn [default].
  split; [auto|]. split; [auto|].
  intros id' Hne. rewrite lookup_delete_ne by congruence.
  rewrite !lookup_insert_ne by congruence. auto.
Qed.
End ManagerCancel.

Section ManagerRedis.
Context `{Serializer} `{CancelMarker}.

Lemma redis_push_expiry (item : EventMessage) (q : RedisStreamQueue.t) (s : Redis.t) :
  Redis.expiry (RedisStreamQueue.push item q s).2 !! RedisStreamQueue.queueKey q
  = Some (RedisStreamQueue.ttl q).
Proof.
  unfold RedisStreamQueue.push, Redis.publish, Redis.expire, Redis.rPush.
  cbn [fst snd Redis.lists Redis.expiry]. rewrite lookup_insert_eq.
  cbn [Redis.expiry]. apply lookup_insert_eq.
Qed.

Lemma redis_isQueueExist_Some (id : string) (s : Redis.t) (l : list Bytes) :
  Redis.lists s !! ("queue:" +:+ id)%string = Some l ->
  RedisStreamQueue.isQueueExist id s = true.
Proof.
  intros Hl. unfold RedisStreamQueue.isQueueExist, Redis.exists_.
  rewrite Hl. reflexivity.
Qed.

Lemma redis_isQueueExist_None (id : string) (s : Redis.t) :
  Redis.lists s !! ("queue:" +:+ id)%string = None ->
  RedisStreamQueue.isQueueExist id s = false.
Proof.
  intros Hl. unfold RedisStreamQueue.isQueueExist, Redis.exists_.
  rewrite Hl. reflexivity.
Qed.

(** X11.  A queue that exists on the Redis server but is not registered
    with this manager (another process created it, or its local handle was
    removed).  [getQueueData(id)] fails with the queue-not-found error: it
    looks at the registry only.  [getQueue(id)] succeeds: it registers a new
    handle, made with the manager's default [compressMessages] and a ttl
    of 300, and leaves the server as it is.  [pushToQueue(id, item)]
    registers such a handle, appends the encoded item, and sets the key's
    time to live to 300, whatever ttl the queue was created with. *)
Theorem X11_redis_unregistered_existing_queue (id : string) (item : EventMessage)
    (m : StreamQueueManager.t (Q := RedisStreamQueue.t)) (s : Redis.t)
    (l : list Bytes) :
  StreamQueueManager.queues m !! id = None ->
  Redis.lists s !! ("queue:" +:+ id)%string = Some l ->
  let handle := RedisStreamQueue.new id
                  (StreamQueueManager.defaultCompressMessages m) 300%Z in
  StreamQueueManager.getQueueData id m s = Err QueueNotFound
  /\ StreamQueueManager.getQueue id m s
     = Ok (handle,
           StreamQueueManager.set_queues
             (<[id := handle]> (StreamQueueManager.queues m)) m,
           s)
  /\ exists m' s',
       StreamQueueManager.pushToQueue id item m s = Ok (m', s')
       /\ is_Some (StreamQueueManager.queues m' !! id)
       /\ Redis.lists s' !! ("queue:" +:+ id)%string = Some (l ++ [encodeData item])
       /\ Redis.expiry s' !! ("queue:" +:+ id)%string = Some 300%Z.
Proof.
  intros Hreg Hl handle.
  pose proof (redis_isQueueExist_Some id s l Hl) as Hex.
  set (key := ("queue:" +:+ id)%string) in *.
  assert (Hget : StreamQueueManager.getQueue id m s
                 = Ok (handle,
                       StreamQueueManager.set_queues
                         (<[id := handle]> (StreamQueueManager.queues m)) m, s)).
  { unfold StreamQueueManager.getQueue, StreamQueueManager.backendExists.
    rewrite Hreg. cbn [q_isQueueExist RedisStreamQueue_interface]. rewrite Hex.
    reflexivity. }
  split; [|split; [exact Hget|]].
  - unfold StreamQueueManager.getQueueData. rewrite Hreg. reflexivity.
  - unfold StreamQueueManager.pushToQueue. rewrite Hget.
    cbn [bindR q_push RedisStreamQueue_interface].
    pose proof (redis_push_lookup item handle s) as (Hr & _).
    pose proof (redis_push_expiry item handle s) as He.
    destruct (RedisStreamQueue.push item handle s) as [q' s'].
    cbn [fst snd] in *.
    change (RedisStreamQueue.queueKey handle) with key in Hr, He.
    unfold Redis.lRange_all in Hr. rewrite Hl in Hr.
    eexists _, _. split; [reflexivity|].
    cbn [StreamQueueManager.queues StreamQueueManager.set_queues].
    rewrite lookup_insert_eq. split; [eauto|]. split; [exact Hr|exact He].
Qed.

(** X12.  A cancelled run comes back not cancelled.  After
    [cancelQueue(id)] on a manager of Redis queues and the removal timer,
    the key of the queue still exists on the server with the cancel
    marker as its last entry; [getQueue(id)] therefore succeeds again and
    returns a new handle whose cancellation signal is not set. *)
Theorem X12_redis_cancelled_queue_is_found_again (id : string)
    (m : StreamQueueManager.t (Q := RedisStreamQueue.t)) (s : Redis.t)
    (queue : RedisStreamQueue.t) :
  StreamQueueManager.queues m !! id = Some queue ->
  RedisStreamQueue.queueKey queue = ("queue:" +:+ id)%string ->
  StreamQueueManager.removals m = [] ->
  let '(m1, s1) := StreamQueueManager.cancelQueue id m s in
  let m2 := StreamQueueManager.removeQueue_timeout m1 in
  Redis.lRange_all ("queue:" +:+ id)%string s1
  = Redis.lRange_all ("queue:" +:+ id)%string s ++ [encodeData CancelEventMessage]
  /\ exists handle m3,
       StreamQueueManager.getQueue id m2 s1 = Ok (handle, m3, s1)
       /\ RedisStreamQueue.aborted handle = false
       /\ RedisStreamQueue.queueKey handle = ("queue:" +:+ id)%string.
Proof.
  intros Hreg Hkey Hnil.
  set (key := ("queue:" +:+ id)%string) in *.
  unfold StreamQueueManager.cancelQueue. rewrite Hreg.
  cbn [q_cancel RedisStreamQueue_interface]. unfold RedisStreamQueue.cancel.
  pose proof (redis_push_lookup CancelEventMessage
                (RedisStreamQueue.set_aborted true queue) s) as (Hr & _).
  destruct (RedisStreamQueue.push CancelEventMessage
              (RedisStreamQueue.set_aborted true queue) s) as [q1 s1].
  cbn [fst snd RedisStreamQueue.queueKey RedisStreamQueue.set_aborted] in Hr.
  rewrite Hkey in Hr.
  split; [unfold Redis.lRange_all at 1; rewrite Hr; reflexivity|].
  unfold StreamQueueManager.removeQueue_timeout, StreamQueueManager.removeQueue.
  cbn [StreamQueueManager.set_queues StreamQueueManager.removals
       StreamQueueManager.queues StreamQueueManager.defaultCompressMessages].
  rewrite Hnil. cbn [app].
  unfold StreamQueueManager.getQueue, StreamQueueManager.backendExists.
  cbn [StreamQueueManager.queues]. rewrite lookup_delete_eq.
  cbn [q_isQueueExist RedisStreamQueue_interface].
  rewrite (redis_isQueueExist_Some id s1 _ Hr).
  eexists _, _. split; [reflexivity|]. split; reflexivity.
Qed.
End ManagerRedis.

Section ManagerSamples.
#[local] Existing Instance jsonSerializer.
#[local] Existing Instance systemCancel.

(** A manager of memory queues with ["run-1"] registered, a queue that
    stores messages as they are and has one consumer attached: a pushed
    [__stream_cancel__] event is followed by the cancel message of the
    consumer's handler. *)
Lemma X8_memory_pushToQueue_then_getQueueData_witness :
  let s := MemorySystem.run [OnDataReceive; Next 0]
             (MemorySystem.init "run-1" false 300%Z) in
  let m : StreamQueueManager.t (Q := MemoryStreamQueue.t) :=
    StreamQueueManager.mk {[ "run-1"%string := MemorySystem.q s ]} false [] in
  exists m' h',
    StreamQueueManager.pushToQueue "run-1" streamCancel m (MemorySystem.heap s)
    = Ok (m', h')
    /\ StreamQueueManager.getQueueData "run-1" m' h'
       = Ok [Raw streamCancel; Raw CancelEventMessage].
Proof.
  intros s m.
  destruct (X8_memory_pushToQueue_then_getQueueData "run-1"%string
              streamCancel m (MemorySystem.heap s) (MemorySystem.q s) [])
    as [_ (m' & h' & Hp & Hg & _)].
  - reflexivity.
  - apply lookup_singleton_eq.
  - cbn. lia.
  - unfold StreamQueueManager.getQueueData. subst m.
    cbn [StreamQueueManager.queues].
    rewrite lookup_singleton_eq. reflexivity.
  - exists m', h'. split; [exact Hp|exact Hg].
Defined.

(** [removeQueue], then [createQueue] for the same id, then the timer. *)
Lemma X9_removeQueue_removes_a_later_queue_witness :
  let m : StreamQueueManager.t (Q := MemoryStreamQueue.t) :=
    StreamQueueManager.new None in
  let m1 := StreamQueueManager.removeQueue "run-1" m in
  let '(q, m2, h2) := StreamQueueManager.createQueue "run-1" None m1 [] in
  StreamQueueManager.queues (StreamQueueManager.removeQueue_timeout m2)
  !! "run-1"%string = None.
Proof.
  intros m m1.
  pose proof (X9_removeQueue_removes_a_later_queue (Q := MemoryStreamQueue.t)
                "run-1"%string None m [] eq_refl) as Hx.
  cbv zeta in Hx. fold m1 in Hx.
  destruct (StreamQueueManager.createQueue "run-1" None m1 []) as [[q m2] h2].
  destruct Hx as (_ & _ & Hgone & _). exact Hgone.
Defined.

(** [cancelQueue] on a registered memory queue, before and after the timer. *)
Lemma X10_cancelQueue_deregisters_after_the_timer_witness :
  let q := MemoryStreamQueue.mk "run-1" true 300%Z 0 false [] [] [] [] in
  let m : StreamQueueManager.t (Q := MemoryStreamQueue.t) :=
    StreamQueueManager.mk {[ "run-1"%string := q ]} true [] in
  let r := StreamQueueManager.cancelQueue "run-1" m [[]] in
  StreamQueueManager.getQueue "run-1" r.1 r.2
  = Ok ((MemoryStreamQueue.cancel q [[]]).1, r.1, r.2)
  /\ StreamQueueManager.getQueueData "run-1"
       (StreamQueueManager.removeQueue_timeout r.1) r.2 = Err QueueNotFound.
Proof.
  intros q m r.
  pose proof (X10_cancelQueue_deregisters_after_the_timer "run-1"%string m [[]] q
                (lookup_singleton_eq _ _) eq_refl) as Hx.
  subst r. destruct (StreamQueueManager.cancelQueue "run-1" m [[]]) as [m1 h1].
  destruct Hx as ((_ & Hget & _) & (_ & Hgone) & _).
  split; [exact Hget|exact Hgone].
Defined.

(** A queue created by another process with a ttl of 60 seconds. *)
Lemma X11_redis_unregistered_existing_queue_witness :
  let s := (RedisStreamQueue.push (token "Hi")
              (RedisStreamQueue.new "run-1" true 60%Z) Redis.empty).2 in
  let m : StreamQueueManager.t (Q := RedisStreamQueue.t) :=
    StreamQueueManager.new None in
  Redis.expiry s !! "queue:run-1"%string = Some 60%Z
  /\ StreamQueueManager.getQueueData "run-1" m s = Err QueueNotFound
  /\ exists m' s',
       StreamQueueManager.pushToQueue "run-1" streamEnd m s = Ok (m', s')
       /\ Redis.expiry s' !! "queue:run-1"%string = Some 300%Z.
Proof.
  intros s m. split; [vm_compute; reflexivity|].
  destruct (X11_redis_unregistered_existing_queue "run-1"%string streamEnd m s
              [JsonText (token "Hi")])
    as (Hdata & _ & m' & s' & Hpush & _ & _ & Hexp).
  - apply lookup_empty.
  - vm_compute. reflexivity.
  - split; [exact Hdata|]. exists m', s'. split; [exact Hpush|exact Hexp].
Defined.

(** A registered Redis queue with one message is cancelled and removed. *)
Lemma X12_redis_cancelled_queue_is_found_again_witness :
  let q := RedisStreamQueue.new "run-1" true 300%Z in
  let s := (RedisStreamQueue.push (token "Hi") q Redis.empty).2 in
  let m : StreamQueueManager.t (Q := RedisStreamQueue.t) :=
    StreamQueueManager.mk {[ "run-1"%string := q ]} true [] in
  let r := StreamQueueManager.cancelQueue "run-1" m s in
  exists handle m3,
    StreamQueueManager.getQueue "run-1"
      (StreamQueueManager.removeQueue_timeout r.1) r.2 = Ok (handle, m3, r.2)
    /\ RedisStreamQueue.aborted handle = false.
Proof.
  intros q s m r.
  pose proof (X12_redis_cancelled_queue_is_found_again "run-1"%string m s q
                (lookup_singleton_eq _ _) eq_refl eq_refl) as Hx.
  subst r. destruct (StreamQueueManager.cancelQueue "run-1" m s) as [m1 s1].
  destruct Hx as (_ & handle & m3 & Hget & Hna & _).
  exists handle, m3. split; [exact Hget|exact Hna].
Defined.
End ManagerSamples.

(** ** Copies and clears *)

Section CopyAndClear.
Context `{Serializer} `{CancelMarker}.

(** X13.  What [copyToQueue] returns.  On both queues the copy carries the
    new id, the source's [compressMessages] and the given ttl (the
    source's when none is given); it is a new object: its cancellation
    signal is not set even when the source is cancelled, and the consumers
    of the source are not attached to it.  Right after the call [getAll()]
    on the copy returns what [getAll()] on the source returns (for Redis:
    when no list exists under the new id), and the source reads as
    before. *)
Theorem X13_copy_reads_like_its_source (toId : string) (ttl' : option Z)
    (mq : MemoryStreamQueue.t) (h : MemoryStreamQueue.Heap)
    (rq : RedisStreamQueue.t) (s : Redis.t) :
  (MemoryStreamQueue.data mq < List.length h)%nat ->
  Redis.lists s !! ("queue:" +:+ toId)%string = None ->
  (let '(cpy, h') := MemoryStreamQueue.copyToQueue toId ttl' mq h in
   MemoryStreamQueue.getAll cpy h' = MemoryStreamQueue.getAll mq h
   /\ MemoryStreamQueue.getAll mq h' = MemoryStreamQueue.getAll mq h
   /\ MemoryStreamQueue.id cpy = toId
   /\ MemoryStreamQueue.compressMessages cpy = MemoryStreamQueue.compressMessages mq
   /\ MemoryStreamQueue.ttl cpy = default (MemoryStreamQueue.ttl mq) ttl'
   /\ MemoryStreamQueue.aborted cpy = false
   /\ MemoryStreamQueue.listeners cpy = O
   /\ MemoryStreamQueue.abortListeners cpy = O
   /\ MemoryStreamQueue.tails cpy = [])
  /\ (let '(cpy, s') := RedisStreamQueue.copyToQueue toId ttl' rq s in
      RedisStreamQueue.getAll cpy s' = RedisStreamQueue.getAll rq s
      /\ RedisStreamQueue.getAll rq s' = RedisStreamQueue.getAll rq s
      /\ RedisStreamQueue.id cpy = toId
      /\ RedisStreamQueue.compressMessages cpy = RedisStreamQueue.compressMessages rq
      /\ RedisStreamQueue.ttl cpy = default (RedisStreamQueue.ttl rq) ttl'
      /\ RedisStreamQueue.aborted cpy = false).
Proof.
  intros Hv Hfresh. split.
  - unfold MemoryStreamQueue.copyToQueue, MemoryStreamQueue.new,
      MemoryStreamQueue.alloc, MemoryStreamQueue.getAll.
    cbn [MemoryStreamQueue.set_data MemoryStreamQueue.data
         MemoryStreamQueue.compressMessages MemoryStreamQueue.id
         MemoryStreamQueue.ttl MemoryStreamQueue.aborted
         MemoryStreamQueue.listeners MemoryStreamQueue.abortListeners
         MemoryStreamQueue.handlers MemoryStreamQueue.abortHandlers
         MemoryStreamQueue.tails List.length
         base_id base_compressMessages base_ttl
         BaseStreamQueue_new].
    rewrite (array_read_alloc _ _ Hv). repeat split; reflexivity.
  - set (kt := ("queue:" +:+ toId)%string) in *.
    unfold RedisStreamQueue.copyToQueue.
    set (T := default (RedisStreamQueue.ttl rq) ttl').
    set (cpy := RedisStreamQueue.new toId (RedisStreamQueue.compressMessages rq) T).
    change (RedisStreamQueue.queueKey cpy) with kt.
    assert (Hsrc : Redis.lists (Redis.expire kt T
                      (Redis.copy (RedisStreamQueue.queueKey rq) kt s))
                   !! RedisStreamQueue.queueKey rq
                   = Redis.lists s !! RedisStreamQueue.queueKey rq)
      by apply redis_copy_expire_source.
    assert (Hdst : Redis.lists (Redis.expire kt T
                      (Redis.copy (RedisStreamQueue.queueKey rq) kt s)) !! kt
                   = Redis.lists s !! RedisStreamQueue.queueKey rq).
    { rewrite redis_expire_lists. unfold Redis.copy.
      destruct (Redis.lists s !! RedisStreamQueue.queueKey rq) as [l|] eqn:Hl.
      - rewrite Hfresh. cbn [Redis.lists]. apply lookup_insert_eq.
      - exact Hfresh. }
    unfold RedisStreamQueue.getAll, Redis.lRange_all.
    change (RedisStreamQueue.queueKey cpy) with kt.
    change (RedisStreamQueue.compressMessages cpy)
      with (RedisStreamQueue.compressMessages rq).
    rewrite Hsrc, Hdst. repeat split; reflexivity.
Qed.

(** [push] touches the array of its queue only. *)
Lemma memory_push_other (item : EventMessage) (q : MemoryStreamQueue.t)
    (h : MemoryStreamQueue.Heap) (r : nat) :
  r <> MemoryStreamQueue.data q ->
  MemoryStreamQueue.array_read r (MemoryStreamQueue.push item q h).2
  = MemoryStreamQueue.array_read r h.
Proof.
  intros Hne. destruct (push_like item q h) as (_ & Happ & _).
  unfold MemoryStreamQueue.array_read.
  rewrite (appended_other _ _ _ _ Happ Hne). reflexivity.
Qed.

(** X14.  [clear()] on a memory queue gives the queue a new array and
    leaves the old one alone.  So after [copyToQueue], clearing the copy
    separates the two logs: the copy reads empty, the source reads as
    before, and from then on a push to either is not seen by the other. *)
Theorem X14_memory_clear_separates_a_copy (toId : string) (ttl' : option Z)
    (q : MemoryStreamQueue.t) (h : MemoryStreamQueue.Heap)
    (x y : EventMessage) :
  (MemoryStreamQueue.data q < List.length h)%nat ->
  let '(cpy, h1) := MemoryStreamQueue.copyToQueue toId ttl' q h in
  let '(cpy', h2) := MemoryStreamQueue.clear cpy h1 in
  MemoryStreamQueue.getAll cpy' h2 = Ok []
  /\ MemoryStreamQueue.getAll q h2 = MemoryStreamQueue.getAll q h
  /\ MemoryStreamQueue.getAll cpy' (MemoryStreamQueue.push x q h2).2 = Ok []
  /\ MemoryStreamQueue.getAll q (MemoryStreamQueue.push y cpy' h2).2
     = MemoryStreamQueue.getAll q h.
Proof.
  intros Hv.
  set (h1 := h ++ [[]]). set (h2 := h1 ++ [[]]).
  set (cpy := MemoryStreamQueue.set_data (MemoryStreamQueue.data q)
                (MemoryStreamQueue.mk toId (MemoryStreamQueue.compressMessages q)
                   (default (MemoryStreamQueue.ttl q) ttl') (List.length h)
                   false [] [] [] [])).
  change (MemoryStreamQueue.copyToQueue toId ttl' q h) with (cpy, h1). cbv iota.
  set (cpy' := MemoryStreamQueue.set_data (List.length h1) cpy).
  change (MemoryStreamQueue.clear cpy h1) with (cpy', h2). cbv iota.
  assert (Hv1 : (MemoryStreamQueue.data q < List.length h1)%nat)
    by (unfold h1; rewrite length_app; cbn; lia).
  assert (Hfresh : MemoryStreamQueue.array_read (List.length h1) h2 = [])
    by apply array_read_fresh.
  assert (Hold : MemoryStreamQueue.array_read (MemoryStreamQueue.data q) h2
                 = MemoryStreamQueue.array_read (MemoryStreamQueue.data q) h).
  { unfold h2. rewrite (array_read_alloc _ _ Hv1). apply array_read_alloc, Hv. }
  unfold MemoryStreamQueue.getAll.
  change (MemoryStreamQueue.data cpy') with (List.length h1).
  change (MemoryStreamQueue.compressMessages cpy')
    with (MemoryStreamQueue.compressMessages q).
  rewrite (memory_push_other x q h2 (List.length h1)) by lia.
  rewrite (memory_push_other y cpy' h2 (MemoryStreamQueue.data q))
    by (change (MemoryStreamQueue.data cpy') with (List.length h1); lia).
  rewrite Hfresh, Hold.
  destruct (MemoryStreamQueue.compressMessages q); repeat split; reflexivity.
Qed.
End CopyAndClear.

(** ** Several processes on one Redis server *)

Section SharedServer.
Context `{Serializer} `{CancelMarker}.

Lemma redis_push_published (item : EventMessage) (q : RedisStreamQueue.t)
    (s : Redis.t) :
  let st := RedisStreamQueue.push item q s in
  Redis.published st.2 !! RedisStreamQueue.channelKey q
  = Some (default [] (Redis.published s !! RedisStreamQueue.channelKey q)
          ++ [encodeData item])
  /\ Redis.subscribers st.2 = Redis.subscribers s
  /\ RedisStreamQueue.channelKey st.1 = RedisStreamQueue.channelKey q.
Proof.
  unfold RedisStreamQueue.push, Redis.publish. cbn [fst snd].
  cbn [Redis.published Redis.subscribers]. rewrite lookup_insert_eq.
  destruct (redis_expire_published (RedisStreamQueue.queueKey q)
              (RedisStreamQueue.ttl q)
              (Redis.rPush (RedisStreamQueue.queueKey q) (encodeData item) s))
    as (Ep & Es & _).
  rewrite Ep, Es. auto.
Qed.

(** X15.  [clearQueue(id)] on a manager of Redis queues deletes the list
    and its time to live on the server and nothing else: no message is
    published, other keys are untouched, the queue stays registered here
    and reads empty.  For every other process the queue no longer exists:
    a manager that has not registered the id gets the queue-not-found
    error from [getQueue(id)].  A later push starts the log afresh. *)
Theorem X15_redis_clearQueue_removes_the_queue_for_others (id : string)
    (item : EventMessage)
    (ma mb : StreamQueueManager.t (Q := RedisStreamQueue.t)) (s : Redis.t)
    (q : RedisStreamQueue.t) :
  StreamQueueManager.queues ma !! id = Some q ->
  RedisStreamQueue.queueKey q = ("queue:" +:+ id)%string ->
  RedisStreamQueue.isConnected q = true ->
  StreamQueueManager.queues mb !! id = None ->
  let '(ma', s') := StreamQueueManager.clearQueue id ma s in
  StreamQueueManager.getQueueData id ma' s' = Ok []
  /\ StreamQueueManager.getQueue id mb s' = Err QueueNotFound
  /\ Redis.lists s' !! ("queue:" +:+ id)%string = None
  /\ Redis.expiry s' !! ("queue:" +:+ id)%string = None
  /\ (forall k, k <> ("queue:" +:+ id)%string ->
        Redis.lists s' !! k = Redis.lists s !! k)
  /\ Redis.published s' = Redis.published s
  /\ Redis.lRange_all ("queue:" +:+ id)%string (RedisStreamQueue.push item q s').2
     = [encodeData item].
Proof.
  intros Hreg Hkey Hconn Hother.
  set (key := ("queue:" +:+ id)%string) in *.
  unfold StreamQueueManager.clearQueue. rewrite Hreg.
  cbn [q_clear RedisStreamQueue_interface]. unfold RedisStreamQueue.clear.
  rewrite Hconn, Hkey.
  assert (Hgone : Redis.lists (Redis.del key s) !! key = None)
    by (unfold Redis.del; cbn [Redis.lists]; apply lookup_delete_eq).
  split; [|split; [|split; [exact Hgone|split; [|split; [|split]]]]].
  - unfold StreamQueueManager.getQueueData.
    cbn [StreamQueueManager.queues StreamQueueManager.set_queues].
    rewrite lookup_insert_eq. cbn [q_getAll RedisStreamQueue_interface].
    unfold RedisStreamQueue.getAll, Redis.lRange_all. rewrite Hkey, Hgone.
    reflexivity.
  - unfold StreamQueueManager.getQueue, StreamQueueManager.backendExists.
    rewrite Hother. cbn [q_isQueueExist RedisStreamQueue_interface].
    rewrite (redis_isQueueExist_None id _ Hgone). reflexivity.
  - unfold Redis.del. cbn [Redis.expiry]. apply lookup_delete_eq.
  - intros k Hne. unfold Redis.del. cbn [Redis.lists].
    apply lookup_delete_ne. congruence.
  - reflexivity.
  - pose proof (redis_push_fields item q (Redis.del key s)) as (Hr & _).
    rewrite Hkey in Hr. rewrite Hr. unfold Redis.lRange_all. rewrite Hgone.
    reflexivity.
Qed.

(** X16.  [cancel()] in one process does not cancel the consumers of
    another.  Two processes hold a handle each for the same Redis queue;
    the second has a consumer suspended in [onDataReceive()], its listener
    on the channel.  The first calls [cancel()]: only its own signal is
    set, and one cancel message is appended and published.  The handler of
    the second process decodes the message and, as its event is not
    [__stream_cancel__], buffers it like any other: it does not call
    [cancel()], the signal of its handle stays unset, nothing more is
    written to Redis, and the consumer's [next()] yields the cancel message
    as an item instead of completing the generator. *)
Theorem X16_redis_cancel_is_an_item_for_other_process
    (qa qb : RedisStreamQueue.t) (s : Redis.t) (tl : Tail) :
  loadsTyped (dumpsTyped CancelEventMessage) = Some CancelEventMessage ->
  RedisStreamQueue.queueKey qa = RedisStreamQueue.queueKey qb ->
  RedisStreamQueue.channelKey qa = RedisStreamQueue.channelKey qb ->
  RedisStreamQueue.aborted qb = false ->
  phase tl = AtAwait ->
  isStreamEnded tl = false ->
  queue tl = [] ->
  decoding tl = [] ->
  RedisStreamQueue.subscribed qb s tl = true ->
  cursor tl
  = List.length (default [] (Redis.published s !! RedisStreamQueue.channelKey qb)) ->
  let '(qa', s1) := RedisStreamQueue.cancel qa s in
  let tl1 := RedisStreamQueue.deliver qb s1 tl in
  let '(qb', s2, tl2) := RedisStreamQueue.handleMessage 0 qb s1 tl1 in
  RedisStreamQueue.aborted qa' = true
  /\ qb' = qb
  /\ s2 = s1
  /\ RedisStreamQueue.aborted qb' = false
  /\ queue tl2 = [Raw CancelEventMessage]
  /\ (RedisStreamQueue.onDataReceive_next qb' s2 tl2).1.1.1
     = Yielded (Raw CancelEventMessage)
  /\ Redis.lRange_all (RedisStreamQueue.queueKey qb) s2
     = Redis.lRange_all (RedisStreamQueue.queueKey qb) s
       ++ [encodeData CancelEventMessage].
Proof.
  intros Hrt Hqk Hck Hnb Hph Hend Hq Hdec Hsub Hcur.
  unfold RedisStreamQueue.cancel.
  pose proof (redis_push_published CancelEventMessage
                (RedisStreamQueue.set_aborted true qa) s) as (Hp1 & Hs1 & _).
  pose proof (redis_push_fields CancelEventMessage
                (RedisStreamQueue.set_aborted true qa) s) as (Hl1 & _ & _ & Ha1).
  destruct (RedisStreamQueue.push CancelEventMessage
              (RedisStreamQueue.set_aborted true qa) s) as [qa' s1].
  cbn [fst snd RedisStreamQueue.channelKey RedisStreamQueue.queueKey
       RedisStreamQueue.aborted RedisStreamQueue.set_aborted] in *.
  rewrite Hck in Hp1. rewrite Hqk in Hl1.
  assert (Hsub1 : RedisStreamQueue.subscribed qb s1 tl = true).
  { unfold RedisStreamQueue.subscribed, Redis.listening in *. rewrite Hs1.
    exact Hsub. }
  unfold RedisStreamQueue.deliver. rewrite Hsub1, Hp1. cbn [default from_option].
  unfold Datatypes.id. rewrite Hcur, list_lookup_middle by reflexivity.
  unfold RedisStreamQueue.handleMessage.
  cbn [decoding awaitDecode set_decoding set_cursor]. rewrite Hdec.
  cbn [app lookup list_lookup decodeItem].
  rewrite decodeData_encodeData by exact Hrt. cbn [bindR].
  unfold item_is_cancel. cbn [item_event]. rewrite CancelEventMessage_event.
  match goal with
  | |- context [bufferItem ?d ?t] =>
      destruct (bufferItem_contents d t) as (Bq & _ & Bp & _);
      destruct (bufferItem_flags d t) as (Be & _);
      set (tlb := bufferItem d t) in *
  end.
  cbn [queue phase isStreamEnded set_decoding set_cursor awaitDecode] in Bq, Bp, Be.
  rewrite Hq in Bq. rewrite Hph in Bp. rewrite Hend in Be.
  split; [exact Ha1|]. split; [reflexivity|]. split; [reflexivity|].
  split; [exact Hnb|]. split; [exact Bq|]. split; [|exact Hl1].
  unfold RedisStreamQueue.onDataReceive_next.
  cbn [phase pendingResolve resolvePending set_pendingResolve]. rewrite Bp.
  unfold RedisStreamQueue.loop, loopHead.
  cbn [isStreamEnded queue set_pendingResolve resolvePending].
  rewrite Be, Hnb, Bq. reflexivity.
Qed.
End SharedServer.

Section SharedSubscriber.
Context `{Serializer} `{CancelMarker}.

Lemma redisPushAll_subscribers (items : list EventMessage)
    (q : RedisStreamQueue.t) (s : Redis.t) :
  Redis.subscribers (redisPushAll items q s).2 = Redis.subscribers s.
Proof.
  unfold redisPushAll. revert q s.
  induction items as [|item items IH]; intros q s; [reflexivity|].
  cbn [foldl fst snd].
  pose proof (redis_push_published item q s) as (_ & Hs & _).
  destruct (RedisStreamQueue.push item q s) as [q1 s1].
  cbn [fst snd] in *. rewrite IH. exact Hs.
Qed.

(** X17.  A consumer that completes takes the other consumers of its
    channel with it.  The subscriber client is shared, and the [finally]
    block of [onDataReceive()] calls [unsubscribe(channelKey)] without a
    listener, which removes every listener of the channel.  So when one
    generator of a Redis queue completes (its stream ended or its signal
    was set) while another generator of the same channel is still running,
    the other one's listener is no longer called: whatever is pushed
    afterwards, it buffers nothing, and if it was waiting it keeps
    waiting. *)
Theorem X17_redis_finished_consumer_unsubscribes_the_others
    (q qb : RedisStreamQueue.t) (s : Redis.t) (tlA tlB : Tail)
    (items : list EventMessage) :
  RedisStreamQueue.channelKey qb = RedisStreamQueue.channelKey q ->
  phase tlA = AtAwait ->
  pendingResolve tlA = false ->
  isStreamEnded tlA = true \/ RedisStreamQueue.aborted q = true ->
  let '(r, q1, s1, tlA') := RedisStreamQueue.onDataReceive_next q s tlA in
  let s2 := (redisPushAll items q1 s1).2 in
  r = Returned
  /\ RedisStreamQueue.subscribed qb s2 tlB = false
  /\ RedisStreamQueue.deliver qb s2 tlB = tlB
  /\ (decoding tlB = [] ->
      forall k, RedisStreamQueue.handleMessage k qb s2 tlB = (qb, s2, tlB))
  /\ (phase tlB = AtAwait -> pendingResolve tlB = true ->
      RedisStreamQueue.onDataReceive_next qb s2 tlB = (Pending, qb, s2, tlB)).
Proof.
  intros Hck Hph Hpr Hend.
  unfold RedisStreamQueue.onDataReceive_next. rewrite Hph, Hpr.
  unfold RedisStreamQueue.loop, loopHead.
  assert (Hexit : negb (isStreamEnded tlA) && negb (RedisStreamQueue.aborted q)
                  = false).
  { destruct Hend as [-> | ->]; [reflexivity|apply andb_false_r]. }
  rewrite Hexit. unfold RedisStreamQueue.finish. cbv zeta.
  assert (Hnone : Redis.subscribers
                    (redisPushAll items
                       (RedisStreamQueue.set_abortListeners
                          (Nat.pred (RedisStreamQueue.abortListeners q)) q)
                       (Redis.unsubscribe (RedisStreamQueue.channelKey q) s)).2
                  !! RedisStreamQueue.channelKey qb = None).
  { rewrite redisPushAll_subscribers, Hck. unfold Redis.unsubscribe.
    cbn [Redis.subscribers]. apply lookup_delete_eq. }
  assert (Hsub : RedisStreamQueue.subscribed qb
                   (redisPushAll items
                      (RedisStreamQueue.set_abortListeners
                         (Nat.pred (RedisStreamQueue.abortListeners q)) q)
                      (Redis.unsubscribe (RedisStreamQueue.channelKey q) s)).2
                   tlB = false).
  { unfold RedisStreamQueue.subscribed, Redis.listening. rewrite Hnone.
    destruct (listener tlB) as [l|]; [|reflexivity].
    apply bool_decide_eq_false. cbn. apply not_elem_of_nil. }
  split; [reflexivity|]. split; [exact Hsub|]. split; [|split].
  - unfold RedisStreamQueue.deliver. rewrite Hsub. reflexivity.
  - intros Hd k. unfold RedisStreamQueue.handleMessage. rewrite Hd.
    rewrite lookup_nil. reflexivity.
  - intros HphB HprB. unfold RedisStreamQueue.onDataReceive_next.
    rewrite HphB, HprB. reflexivity.
Qed.
End SharedSubscriber.

(** ** What a live-tail consumer receives *)

Section LiveTailOrder.
Context `{Serializer} `{CancelMarker}.

Lemma memory_pull_S (fuel i : nat) (q : MemoryStreamQueue.t) :
  MemoryConsumer.pull (S fuel) i q
  = match MemoryStreamQueue.onDataReceive_next i q with
    | Some (Yielded item, q') =>
        let '(items, r, q'') := MemoryConsumer.pull fuel i q' in
        (item :: items, r, q'')
    | Some (r, q') => ([], Some r, q')
    | None => ([], None, q)
    end.
Proof. reflexivity. Qed.

(** The consumer pulling from a generator suspended at a [yield]: it gets
    the rest of the buffer in order, and the generator then waits. *)
Lemma memory_pull_from_yield (i n : nat) :
  forall (k : nat) (tl : Tail) (q : MemoryStreamQueue.t),
  MemoryStreamQueue.aborted q = false ->
  MemoryStreamQueue.tails q !! i = Some tl ->
  phase tl = AtYield k ->
  isStreamEnded tl = false ->
  List.length (queue tl) = (k + n)%nat ->
  exists q' tl',
    MemoryConsumer.pull (S n) i q = (drop k (queue tl), Some Pending, q')
    /\ MemoryStreamQueue.tails q' !! i = Some tl'
    /\ phase tl' = AtAwait /\ queue tl' = [] /\ pendingResolve tl' = true
    /\ decoding tl' = decoding tl
    /\ isStreamEnded tl' = false
    /\ MemoryStreamQueue.aborted q' = false.
Proof.
  induction n as [|n IH]; intros k tl q Hna Hi Hph Hend Hlen.
  - rewrite memory_pull_S. unfold MemoryStreamQueue.onDataReceive_next.
    rewrite Hi, Hph. rewrite lookup_ge_None_2 by lia.
    unfold MemoryStreamQueue.loop, loopHead. cbn. rewrite Hend, Hna. cbn.
    eexists _, _. split; [rewrite drop_ge by lia; reflexivity|].
    split; [apply list_lookup_insert_eq; eapply lookup_lt_Some; exact Hi|].
    repeat split; try reflexivity; assumption.
  - destruct (lookup_lt_is_Some_2 (queue tl) k) as [x Hx]; [lia|].
    rewrite memory_pull_S. unfold MemoryStreamQueue.onDataReceive_next.
    rewrite Hi, Hph, Hx.
    destruct (IH (S k) (set_phase (AtYield (S k)) tl)
                (MemoryStreamQueue.put_tail i (set_phase (AtYield (S k)) tl) q))
      as (q' & tl' & Hpull & Hrest);
      [exact Hna
      |cbn; apply list_lookup_insert_eq; eapply lookup_lt_Some; exact Hi
      |reflexivity|exact Hend|cbn; lia|].
    rewrite Hpull. cbn [queue set_phase].
    exists q', tl'. split; [|exact Hrest].
    rewrite (drop_S _ _ _ Hx). reflexivity.
Qed.

(** The consumer pulling from a suspended generator that has buffered
    [done]. *)
Lemma memory_pull_suspended (i : nat) (done waiting : list EventMessage)
    (tl : Tail) (q : MemoryStreamQueue.t) :
  MemoryStreamQueue.aborted q = false ->
  MemoryStreamQueue.tails q !! i = Some tl ->
  suspendedWith done waiting tl ->
  exists q' tl',
    MemoryConsumer.pull (S (List.length done)) i q
    = (map Raw done, Some Pending, q')
    /\ MemoryStreamQueue.tails q' !! i = Some tl'
    /\ suspendedWith [] waiting tl'
    /\ MemoryStreamQueue.aborted q' = false.
Proof.
  intros Hna Hi (Hph & Hend & Hq & Hd & Hp).
  destruct done as [|m done].
  - exists q, tl. cbn [List.length map]. rewrite memory_pull_S.
    unfold MemoryStreamQueue.onDataReceive_next. rewrite Hi, Hph, Hp.
    split; [reflexivity|]. split; [reflexivity|]. split; [|exact Hna].
    repeat split; assumption.
  - destruct (memory_pull_from_yield i (List.length done) 1
                (set_phase (AtYield 1) tl)
                (MemoryStreamQueue.put_tail i (set_phase (AtYield 1) tl) q))
      as (q' & tl' & Hpull & Hi' & Hph' & Hq' & Hp' & Hd' & Hend' & Hna');
      [exact Hna
      |cbn; apply list_lookup_insert_eq; eapply lookup_lt_Some; exact Hi
      |reflexivity|exact Hend
      |cbn [queue set_phase]; rewrite Hq; cbn; rewrite length_map; lia|].
    exists q', tl'. split.
    + change (List.length (m :: done)) with (S (List.length done)).
      rewrite memory_pull_S. unfold MemoryStreamQueue.onDataReceive_next.
      rewrite Hi, Hph, Hp. unfold MemoryStreamQueue.loop, loopHead.
      rewrite Hend, Hna, Hq. cbn [negb andb map].
      rewrite Hpull. cbn [queue set_phase]. rewrite Hq. reflexivity.
    + split; [exact Hi'|]. split; [|exact Hna'].
      split; [exact Hph'|]. split; [exact Hend'|].
      split; [exact Hq'|]. split; [rewrite Hd'; exact Hd|exact Hp'].
Qed.

(** A handler going on after the decoding, on a queue where no
    [__stream_cancel__] event waits to be decoded: it buffers the decoded
    message in its generator and touches nothing else. *)
Lemma handleData_decoded_lookup (i j k : nat) (q : MemoryStreamQueue.t)
    (h : MemoryStreamQueue.Heap) :
  noCancelWaiting q ->
  MemoryStreamQueue.aborted (MemoryStreamQueue.handleData_decoded j k q h).1
  = MemoryStreamQueue.aborted q
  /\ MemoryStreamQueue.tails (MemoryStreamQueue.handleData_decoded j k q h).1 !! i
     = if decide (i = j)
       then (fun tl =>
               match decoding tl !! k with
               | Some item =>
                   let tl0 := set_decoding (delete k (decoding tl)) tl in
                   match decodeItem item with
                   | Ok d => resolvePending (bufferItem d tl0)
                   | Err _ => tl0
                   end
               | None => tl
               end) <$> MemoryStreamQueue.tails q !! i
       else MemoryStreamQueue.tails q !! i.
Proof.
  intros Hk. split.
  - rewrite memory_handleData_decoded_aborted.
    unfold cancelEventAt, decodedAt.
    destruct (MemoryStreamQueue.tails q !! j) as [tl|] eqn:Hj; cbn;
      [|apply orb_false_r].
    destruct (decoding tl !! k) as [item|] eqn:Hit; [|apply orb_false_r].
    destruct (decodeItem item) as [d|e] eqn:Hd; [|apply orb_false_r].
    unfold noCancelWaiting in Hk. rewrite Forall_lookup in Hk.
    specialize (Hk j tl Hj). rewrite Forall_lookup in Hk.
    rewrite (Hk k item Hit d Hd). apply orb_false_r.
  - unfold MemoryStreamQueue.handleData_decoded.
    destruct (MemoryStreamQueue.tails q !! j) as [tl|] eqn:Hj.
    + assert (Hlt : (j < List.length (MemoryStreamQueue.tails q))%nat)
        by (eapply lookup_lt_Some; exact Hj).
      destruct (decoding tl !! k) as [item|] eqn:Hit.
      * destruct (decodeItem item) as [d|e] eqn:Hd.
        -- assert (Hnc : item_is_cancel d = false).
           { unfold noCancelWaiting in Hk. rewrite Forall_lookup in Hk.
             specialize (Hk j tl Hj). rewrite Forall_lookup in Hk.
             exact (Hk k item Hit d Hd). }
           unfold MemoryStreamQueue.handleData_body,
             MemoryStreamQueue.handleData_body_with.
           rewrite Hnc. cbn.
           destruct (decide (i = j)) as [->|Hne].
           ++ rewrite !list_lookup_alter_eq, list_lookup_insert_eq by exact Hlt.
              rewrite Hj. cbn. rewrite Hit, Hd. reflexivity.
           ++ rewrite !list_lookup_alter_ne, list_lookup_insert_ne by congruence.
              reflexivity.
        -- cbn. destruct (decide (i = j)) as [->|Hne].
           ++ rewrite list_lookup_insert_eq by exact Hlt.
              rewrite Hj. cbn. rewrite Hit, Hd. reflexivity.
           ++ rewrite list_lookup_insert_ne by congruence. reflexivity.
      * cbn. destruct (decide (i = j)) as [->|Hne]; [|reflexivity].
        rewrite Hj. cbn. rewrite Hit. reflexivity.
    + cbn. destruct (decide (i = j)) as [->|Hne]; [|reflexivity].
      rewrite Hj. reflexivity.
Qed.

Lemma suspendedWith_buffered (m : EventMessage) (done waiting : list EventMessage)
    (tl : Tail) :
  phase tl = AtAwait ->
  isStreamEnded tl = false ->
  queue tl = map Raw done ->
  decoding tl = map (fun m => Enc (encodeData m)) waiting ->
  suspendedWith (done ++ [m]) waiting (resolvePending (bufferItem (Raw m) tl)).
Proof.
  intros Hph Hend Hq Hd.
  destruct (bufferItem_contents (Raw m) tl) as (Bq & Bd & Bp & _).
  destruct (bufferItem_flags (Raw m) tl) as (Be & _).
  unfold suspendedWith, resolvePending, set_pendingResolve.
  cbn [phase isStreamEnded queue decoding pendingResolve].
  rewrite Bp, Be, Bq, Bd, Hq, map_app.
  repeat split; try assumption. destruct done; reflexivity.
Qed.

(** One push or one completion, seen from a suspended generator. *)
Lemma memory_live_step (c : bool) (i : nat) (a : Action) (s : MemorySystem.t)
    (done waiting : list EventMessage) (tl : Tail) :
  (forall m, loadsTyped (dumpsTyped m) = Some m) ->
  pushOrHandler a = true ->
  MemoryInv (MemorySystem.q s) ->
  noCancelWaiting (MemorySystem.q s) ->
  MemorySystem.signalSet s = false ->
  MemoryStreamQueue.compressMessages (MemorySystem.q s) = c ->
  (c = false -> waiting = []) ->
  MemorySystem.tails s !! i = Some tl ->
  suspendedWith done waiting tl ->
  let s' := MemorySystem.step a s in
  let st' := handedStep c i (done, waiting) a in
  noCancelWaiting (MemorySystem.q s')
  /\ MemorySystem.signalSet s' = false
  /\ MemoryStreamQueue.compressMessages (MemorySystem.q s') = c
  /\ (c = false -> st'.2 = [])
  /\ exists tl', MemorySystem.tails s' !! i = Some tl'
                 /\ suspendedWith st'.1 st'.2 tl'.
Proof.
  intros Hrt Ha (Hreg & _) Hk Hna Hc Hw Hi (Hph & Hend & Hq & Hd & Hp).
  unfold MemorySystem.signalSet, MemorySystem.tails in *.
  destruct a as [m| | | |toId ttl| |j|j|j k|j|j]; try discriminate Ha;
    cbn [MemorySystem.step handedStep fst snd].
  - (* push *)
    cbn in Ha. apply negb_true_iff in Ha.
    pose proof (push_noCancelWaiting m (MemorySystem.q s) (MemorySystem.heap s)
                  Hrt Ha Hreg Hk) as Hk'.
    rewrite (push_plain m (MemorySystem.q s) (MemorySystem.heap s)
               (or_intror Ha) Hreg) in *.
    cbn [MemorySystem.q MemorySystem.heap fst] in *.
    split; [exact Hk'|]. split; [exact Hna|]. split; [exact Hc|].
    rewrite Hc. split; [destruct c; [discriminate|exact Hw]|].
    cbn [MemoryStreamQueue.tails MemoryStreamQueue.set_tails].
    rewrite list_lookup_fmap, Hi. cbn.
    assert (Hrun : running tl = true) by (unfold running; rewrite Hph; reflexivity).
    rewrite Hrun. eexists. split; [reflexivity|].
    destruct c; cbn [receive memoryStored fst snd].
    + split; [exact Hph|]. split; [exact Hend|]. split; [exact Hq|].
      split; [|exact Hp]. cbn. rewrite Hd, map_app. reflexivity.
    + apply suspendedWith_buffered; assumption.
  - (* a handler goes on *)
    destruct (handleData_decoded_harmless j k (MemorySystem.q s)
                (MemorySystem.heap s) Hk) as [_ Hk'].
    destruct (handleData_decoded_lookup i j k (MemorySystem.q s)
                (MemorySystem.heap s) Hk) as [Hab Hlk].
    destruct (handleData_decoded_like j k (MemorySystem.q s) (MemorySystem.heap s))
      as ((_ & Hc' & _) & _).
    destruct (MemoryStreamQueue.handleData_decoded j k
                (MemorySystem.q s) (MemorySystem.heap s)) as [q' h'].
    cbn [MemorySystem.q fst snd] in *.
    split; [exact Hk'|]. split; [rewrite Hab; exact Hna|].
    split; [rewrite Hc'; exact Hc|].
    rewrite Hlk, Hi.
    destruct (Nat.eqb_spec j i) as [->|Hne].
    + rewrite decide_True by reflexivity. cbn [fmap option_fmap option_map].
      rewrite Hd, list_lookup_fmap.
      destruct (waiting !! k) as [m|] eqn:Hwk; cbn [fmap option_fmap option_map].
      * cbn [decodeItem]. rewrite decodeData_encodeData by apply Hrt.
        cbn [bindR fst snd].
        split; [intros Hcf; rewrite (Hw Hcf) in Hwk; discriminate Hwk|].
        eexists. split; [reflexivity|].
        apply suspendedWith_buffered; try assumption.
        cbn [decoding set_decoding]. symmetry.
        apply (list_fmap_delete _ waiting k).
      * split; [exact Hw|]. exists tl. split; [reflexivity|].
        repeat split; assumption.
    + rewrite decide_False by congruence. split; [exact Hw|].
      exists tl. split; [reflexivity|]. repeat split; assumption.
Qed.

Lemma memory_live_run (c : bool) (i : nat) (acts : list Action) :
  (forall m, loadsTyped (dumpsTyped m) = Some m) ->
  forallb pushOrHandler acts = true ->
  forall (s : MemorySystem.t) (done waiting : list EventMessage) (tl : Tail),
  MemoryInv (MemorySystem.q s) ->
  noCancelWaiting (MemorySystem.q s) ->
  MemorySystem.signalSet s = false ->
  MemoryStreamQueue.compressMessages (MemorySystem.q s) = c ->
  (c = false -> waiting = []) ->
  MemorySystem.tails s !! i = Some tl ->
  suspendedWith done waiting tl ->
  let s' := MemorySystem.run acts s in
  let st' := foldl (handedStep c i) (done, waiting) acts in
  MemorySystem.signalSet s' = false
  /\ exists tl', MemorySystem.tails s' !! i = Some tl'
                 /\ suspendedWith st'.1 st'.2 tl'.
Proof.
  intros Hrt. induction acts as [|a acts IH];
    intros Hall s done waiting tl Hinv Hk Hna Hc Hw Hi Hsus.
  - cbn. split; [exact Hna|]. exists tl. auto.
  - cbn [forallb] in Hall. apply andb_prop in Hall as [Ha Hall].
    destruct (memory_live_step c i a s done waiting tl Hrt Ha Hinv Hk Hna Hc Hw
                Hi Hsus) as (Hk' & Hna' & Hc' & Hw' & tl' & Hi' & Hsus').
    cbn [MemorySystem.run foldl].
    destruct (handedStep c i (done, waiting) a) as [done' waiting'] eqn:Hst.
    cbn [fst snd] in *.
    exact (IH Hall (MemorySystem.step a s) done' waiting' tl'
              (memory_step_inv a s Hinv) Hk' Hna' Hc' Hw' Hi' Hsus').
Qed.

(** What has been buffered and what waits are, together, what was
    pushed. *)
Lemma handed_pushed (c : bool) (i : nat) (acts : list Action) :
  forall done waiting : list EventMessage,
  let st' := foldl (handedStep c i) (done, waiting) acts in
  st'.1 ++ st'.2 ≡ₚ (done ++ waiting) ++ pushed acts.
Proof.
  induction acts as [|a acts IH]; intros done waiting.
  - cbn. rewrite app_nil_r. reflexivity.
  - cbn [foldl].
    assert (Hstep : (handedStep c i (done, waiting) a).1
                    ++ (handedStep c i (done, waiting) a).2
                    ≡ₚ (done ++ waiting)
                       ++ pushed [a]).
    { destruct a as [m| | | |toId ttl| |j|j|j k|j|j]; cbn [handedStep fst snd pushed omap];
        try (cbn; rewrite app_nil_r; reflexivity).
      - destruct c; cbn [fst snd].
        + cbn. rewrite app_assoc. reflexivity.
        + cbn. rewrite <- !app_assoc. apply Permutation_app_head.
          apply Permutation_app_comm.
      - destruct (Nat.eqb j i); [|cbn; rewrite app_nil_r; reflexivity].
        destruct (waiting !! k) as [m|] eqn:Hk; [|cbn; rewrite app_nil_r; reflexivity].
        cbn. rewrite app_nil_r, <- app_assoc. apply Permutation_app_head.
        cbn. symmetry. apply delete_Permutation. exact Hk. }
    destruct (handedStep c i (done, waiting) a) as [done' waiting'].
    cbn [fst snd] in *. rewrite (IH done' waiting'), Hstep.
    change (a :: acts) with ([a] ++ acts). unfold pushed. rewrite omap_app.
    rewrite <- app_assoc. reflexivity.
Qed.

(** On a queue that stores messages as they are the handler buffers
    within the [push]: the buffer is in push order. *)
Lemma handed_uncompressed (i : nat) (acts : list Action) :
  forall done : list EventMessage,
  foldl (handedStep false i) (done, []) acts = (done ++ pushed acts, []).
Proof.
  induction acts as [|a acts IH]; intros done.
  - cbn. rewrite app_nil_r. reflexivity.
  - cbn [foldl].
    destruct a as [m| | | |toId ttl| |j|j|j k|j|j]; cbn [handedStep fst snd];
      try (rewrite IH; reflexivity).
    + rewrite IH. cbn. rewrite <- app_assoc. reflexivity.
    + destruct (Nat.eqb j i); [rewrite lookup_nil|]; rewrite IH; reflexivity.
Qed.

(** X3.  What a live-tail consumer of a memory queue receives, and in
    which order.  A consumer is suspended in [onDataReceive()] with an
    empty buffer and no call of its handler waiting, on a queue that is not
    cancelled and where no [__stream_cancel__] event waits to be decoded.
    Messages, none of them a [__stream_cancel__] event, are pushed, and the
    calls of the handlers that wait for a decoding go on, in any order.
    Then the consumer's [for await] receives the messages its handler has
    buffered, in the order in which it has buffered them, and the
    generator suspends again; the signal stays unset.  On a queue that
    stores messages as they are this is the order of the pushes, and every
    pushed message is received.  On a queue that encodes it is the order
    in which the decodings were done, and the messages received and those
    still waiting are, together, the messages pushed.  [__stream_end__] and
    [__stream_error__] events are received like the others and do not end
    the sequence before their timer fires. *)
Theorem X3_live_tail_yields_in_completion_order (s : MemorySystem.t) (i : nat)
    (tl : Tail) (acts : list Action) :
  (forall m, loadsTyped (dumpsTyped m) = Some m) ->
  MemoryInv (MemorySystem.q s) ->
  noCancelWaiting (MemorySystem.q s) ->
  MemorySystem.signalSet s = false ->
  MemorySystem.tails s !! i = Some tl ->
  suspendedWith [] [] tl ->
  forallb pushOrHandler acts = true ->
  let c := MemoryStreamQueue.compressMessages (MemorySystem.q s) in
  let s' := MemorySystem.run acts s in
  let done := (handed c i acts).1 in
  let waiting := (handed c i acts).2 in
  (exists q' tl',
     MemoryConsumer.pull (S (List.length done)) i (MemorySystem.q s')
     = (map Raw done, Some Pending, q')
     /\ MemoryStreamQueue.tails q' !! i = Some tl'
     /\ suspendedWith [] waiting tl')
  /\ MemorySystem.signalSet s' = false
  /\ done ++ waiting ≡ₚ pushed acts
  /\ (c = false -> done = pushed acts /\ waiting = []).
Proof.
  intros Hrt Hinv Hk Hna Hi Hsus Hall c s' done waiting.
  destruct (memory_live_run c i acts Hrt Hall s [] [] tl Hinv Hk Hna eq_refl
              (fun _ => eq_refl) Hi Hsus) as (Hna' & tl1 & Hi1 & Hsus1).
  fold s' in Hna', Hi1. fold (handed c i acts) in Hsus1.
  fold done in Hsus1. fold waiting in Hsus1.
  split; [|split; [exact Hna'|split]].
  - destruct (memory_pull_suspended i done waiting tl1 (MemorySystem.q s')
                Hna' Hi1 Hsus1) as (q' & tl' & Hpull & Hi' & Hsus' & _).
    exists q', tl'. auto.
  - exact (handed_pushed c i acts [] []).
  - intros Hcf. unfold done, waiting, handed. rewrite Hcf.
    rewrite handed_uncompressed. auto.
Qed.
End LiveTailOrder.

Section RedisLiveTailOrder.
Context `{Serializer} `{CancelMarker}.

Lemma redisPushAll_published (ms : list EventMessage)
    (q : RedisStreamQueue.t) (s : Redis.t) :
  let st := redisPushAll ms q s in
  default [] (Redis.published st.2 !! RedisStreamQueue.channelKey q)
  = default [] (Redis.published s !! RedisStreamQueue.channelKey q)
    ++ map encodeData ms
  /\ Redis.subscribers st.2 = Redis.subscribers s.
Proof.
  unfold redisPushAll. revert q s.
  induction ms as [|m ms IH]; intros q s.
  - cbn [foldl map fst snd]. rewrite app_nil_r. auto.
  - cbn [foldl fst snd map].
    pose proof (redis_push_published m q s) as (Hp & Hs & Hk).
    destruct (RedisStreamQueue.push m q s) as [q1 s1].
    cbn [fst snd] in *. destruct (IH q1 s1) as [IHp IHs].
    rewrite Hk in IHp. rewrite IHp, IHs, Hp, Hs.
    cbn [default from_option]. unfold Datatypes.id. rewrite <- app_assoc. auto.
Qed.

Lemma redis_pull_S (fuel : nat) (q : RedisStreamQueue.t) (s : Redis.t)
    (tl : Tail) :
  RedisConsumer.pull (S fuel) q s tl
  = match RedisStreamQueue.onDataReceive_next q s tl with
    | (Yielded item, q', s', tl') =>
        let '(items, r, q'', s'', tl'') := RedisConsumer.pull fuel q' s' tl' in
        (item :: items, r, q'', s'', tl'')
    | (r, q', s', tl') => ([], Some r, q', s', tl')
    end.
Proof. reflexivity. Qed.

Lemma redis_pull_from_yield (q : RedisStreamQueue.t) (s : Redis.t) (n : nat) :
  RedisStreamQueue.aborted q = false ->
  forall (i : nat) (tl : Tail),
  phase tl = AtYield i ->
  isStreamEnded tl = false ->
  List.length (queue tl) = (i + n)%nat ->
  exists tl',
    RedisConsumer.pull (S n) q s tl = (drop i (queue tl), Some Pending, q, s, tl')
    /\ phase tl' = AtAwait /\ queue tl' = [] /\ pendingResolve tl' = true
    /\ isStreamEnded tl' = false /\ decoding tl' = decoding tl.
Proof.
  intros Hna. induction n as [|n IH]; intros i tl Hph Hend Hlen.
  - rewrite redis_pull_S. unfold RedisStreamQueue.onDataReceive_next.
    rewrite Hph. rewrite lookup_ge_None_2 by lia.
    unfold RedisStreamQueue.loop, loopHead. cbn. rewrite Hend, Hna. cbn.
    eexists. split; [rewrite drop_ge by lia; reflexivity|].
    repeat split; try reflexivity. exact Hend.
  - destruct (lookup_lt_is_Some_2 (queue tl) i) as [x Hx]; [lia|].
    rewrite redis_pull_S. unfold RedisStreamQueue.onDataReceive_next.
    rewrite Hph, Hx.
    destruct (IH (S i) (set_phase (AtYield (S i)) tl))
      as (tl' & Hpull & Hrest); [reflexivity|exact Hend|cbn; lia|].
    rewrite Hpull. cbn [queue set_phase].
    exists tl'. split; [|exact Hrest].
    rewrite (drop_S _ _ _ Hx). reflexivity.
Qed.

Lemma redis_pull_suspended (q : RedisStreamQueue.t) (s : Redis.t)
    (done waiting : list EventMessage) (tl : Tail) :
  RedisStreamQueue.aborted q = false ->
  suspendedWith done waiting tl ->
  exists tl',
    RedisConsumer.pull (S (List.length done)) q s tl
    = (map Raw done, Some Pending, q, s, tl')
    /\ suspendedWith [] waiting tl'.
Proof.
  intros Hna (Hph & Hend & Hq & Hd & Hp).
  destruct done as [|m done].
  - exists tl. cbn [List.length map]. rewrite redis_pull_S.
    unfold RedisStreamQueue.onDataReceive_next. rewrite Hph, Hp.
    split; [reflexivity|]. repeat split; assumption.
  - destruct (redis_pull_from_yield q s (List.length done) Hna 1
                (set_phase (AtYield 1) tl))
      as (tl' & Hpull & Hph' & Hq' & Hp' & Hend' & Hd');
      [reflexivity|exact Hend
      |cbn [queue set_phase]; rewrite Hq; cbn; rewrite length_map; lia|].
    exists tl'. split.
    + change (List.length (m :: done)) with (S (List.length done)).
      rewrite redis_pull_S. unfold RedisStreamQueue.onDataReceive_next at 1.
      rewrite Hph, Hp. unfold RedisStreamQueue.loop, loopHead.
      rewrite Hend, Hna, Hq. cbn [negb andb map].
      rewrite Hpull. cbn [queue set_phase]. rewrite Hq. reflexivity.
    + split; [exact Hph'|]. split; [exact Hend'|]. split; [exact Hq'|].
      split; [rewrite Hd'; exact Hd|exact Hp'].
Qed.

(** One step of the handler of a subscribed generator, on messages that
    are no [__stream_cancel__] events. *)
Lemma redis_live_step (q : RedisStreamQueue.t) (s : Redis.t)
    (e : RedisConsumer.HandlerStep)
    (done waiting incoming : list EventMessage) (tl : Tail) :
  (forall m, loadsTyped (dumpsTyped m) = Some m) ->
  Forall (fun m => is_cancel_event (event m) = false) (waiting ++ incoming) ->
  RedisStreamQueue.subscribed q s tl = true ->
  drop (cursor tl) (default [] (Redis.published s !! RedisStreamQueue.channelKey q))
  = map encodeData incoming ->
  suspendedWith done waiting tl ->
  let st' := RedisConsumer.handedStep (done, waiting, incoming) e in
  exists tl',
    RedisConsumer.handlerStep e (q, s, tl) = (q, s, tl')
    /\ Forall (fun m => is_cancel_event (event m) = false) (st'.1.2 ++ st'.2)
    /\ RedisStreamQueue.subscribed q s tl' = true
    /\ drop (cursor tl')
         (default [] (Redis.published s !! RedisStreamQueue.channelKey q))
       = map encodeData st'.2
    /\ suspendedWith st'.1.1 st'.1.2 tl'.
Proof.
  intros Hrt Hnc Hsub Hdrop (Hph & Hend & Hq & Hd & Hp).
  destruct e as [|k]; cbn [RedisConsumer.handlerStep RedisConsumer.handedStep fst snd].
  - unfold RedisStreamQueue.deliver. rewrite Hsub.
    set (L := default [] (Redis.published s !! RedisStreamQueue.channelKey q)) in *.
    destruct incoming as [|m rest].
    + assert (Hnone : L !! cursor tl = None).
      { apply lookup_ge_None. cbn in Hdrop.
        pose proof (f_equal (@List.length _) Hdrop) as Hl.
        rewrite length_drop in Hl. cbn in Hl. lia. }
      rewrite Hnone. exists tl. cbn [fst snd].
      split; [reflexivity|]. split; [exact Hnc|]. split; [exact Hsub|].
      split; [exact Hdrop|]. repeat split; assumption.
    + assert (Hsome : L !! cursor tl = Some (encodeData m)).
      { pose proof (lookup_drop L (cursor tl) 0) as Hl.
        rewrite Hdrop, Nat.add_0_r in Hl. cbn in Hl. symmetry. exact Hl. }
      rewrite Hsome. eexists. cbn [fst snd]. split; [reflexivity|].
      split; [rewrite <- app_assoc; exact Hnc|].
      split; [exact Hsub|]. split.
      * cbn [cursor awaitDecode set_decoding set_cursor].
        rewrite <- (Nat.add_1_r (cursor tl)), <- drop_drop, Hdrop. reflexivity.
      * split; [exact Hph|]. split; [exact Hend|]. split; [exact Hq|].
        split; [|exact Hp]. cbn. rewrite Hd, map_app. reflexivity.
  - unfold RedisStreamQueue.handleMessage. rewrite Hd, list_lookup_fmap.
    destruct (waiting !! k) as [m|] eqn:Hwk; cbn [fmap option_fmap option_map fst snd].
    + cbn [decodeItem]. rewrite decodeData_encodeData by apply Hrt. cbn [bindR].
      assert (Hm : is_cancel_event (event m) = false).
      { rewrite Forall_app in Hnc. destruct Hnc as [Hw _].
        rewrite Forall_lookup in Hw. exact (Hw k m Hwk). }
      unfold item_is_cancel. cbn [item_event]. rewrite Hm.
      eexists. split; [reflexivity|].
      match goal with
      | |- context [bufferItem ?d ?t] =>
          destruct (bufferItem_contents d t) as (_ & _ & _ & Bc & Bl)
      end.
      split.
      { rewrite Forall_app in Hnc. destruct Hnc as [Hw Hin].
        apply Forall_app. split; [apply Forall_delete; exact Hw|exact Hin]. }
      split.
      { unfold RedisStreamQueue.subscribed in *.
        unfold resolvePending, set_pendingResolve. cbn [listener].
        rewrite Bl. exact Hsub. }
      split.
      { unfold resolvePending, set_pendingResolve. cbn [cursor].
        rewrite Bc. exact Hdrop. }
      apply suspendedWith_buffered; try assumption.
      cbn [decoding set_decoding]. symmetry.
      apply (list_fmap_delete _ waiting k).
    + exists tl. split; [reflexivity|]. split; [exact Hnc|]. split; [exact Hsub|].
      split; [exact Hdrop|]. repeat split; assumption.
Qed.

Lemma redis_live_run (q : RedisStreamQueue.t) (s : Redis.t)
    (evs : list RedisConsumer.HandlerStep) :
  (forall m, loadsTyped (dumpsTyped m) = Some m) ->
  forall (done waiting incoming : list EventMessage) (tl : Tail),
  Forall (fun m => is_cancel_event (event m) = false) (waiting ++ incoming) ->
  RedisStreamQueue.subscribed q s tl = true ->
  drop (cursor tl) (default [] (Redis.published s !! RedisStreamQueue.channelKey q))
  = map encodeData incoming ->
  suspendedWith done waiting tl ->
  let st' := foldl RedisConsumer.handedStep (done, waiting, incoming) evs in
  exists tl',
    RedisConsumer.handlerRun evs (q, s, tl) = (q, s, tl')
    /\ suspendedWith st'.1.1 st'.1.2 tl'.
Proof.
  intros Hrt. induction evs as [|e evs IH];
    intros done waiting incoming tl Hnc Hsub Hdrop Hsus.
  - exists tl. cbn. auto.
  - destruct (redis_live_step q s e done waiting incoming tl Hrt Hnc Hsub Hdrop Hsus)
      as (tl1 & Hstep & Hnc1 & Hsub1 & Hdrop1 & Hsus1).
    cbn [foldl RedisConsumer.handlerRun]. rewrite Hstep.
    destruct (RedisConsumer.handedStep (done, waiting, incoming) e)
      as [[done1 waiting1] incoming1].
    cbn [fst snd] in *.
    exact (IH done1 waiting1 incoming1 tl1 Hnc1 Hsub1 Hdrop1 Hsus1).
Qed.

Lemma redis_handed_pushed (evs : list RedisConsumer.HandlerStep) :
  forall done waiting incoming : list EventMessage,
  let st' := foldl RedisConsumer.handedStep (done, waiting, incoming) evs in
  st'.1.1 ++ st'.1.2 ++ st'.2 ≡ₚ done ++ waiting ++ incoming.
Proof.
  induction evs as [|e evs IH]; intros done waiting incoming; [reflexivity|].
  cbn [foldl].
  assert (Hstep : (RedisConsumer.handedStep (done, waiting, incoming) e).1.1
                  ++ (RedisConsumer.handedStep (done, waiting, incoming) e).1.2
                  ++ (RedisConsumer.handedStep (done, waiting, incoming) e).2
                  ≡ₚ done ++ waiting ++ incoming).
  { destruct e as [|k]; cbn [RedisConsumer.handedStep fst snd].
    - destruct incoming as [|m rest]; [reflexivity|]. cbn [fst snd].
      rewrite <- (app_assoc waiting). reflexivity.
    - destruct (waiting !! k) as [m|] eqn:Hk; [|reflexivity]. cbn [fst snd].
      rewrite <- app_assoc. apply Permutation_app_head. cbn.
      rewrite (delete_Permutation waiting k m Hk) at 2. reflexivity. }
  destruct (RedisConsumer.handedStep (done, waiting, incoming) e)
    as [[done1 waiting1] incoming1].
  cbn [fst snd] in *. rewrite (IH done1 waiting1 incoming1). exact Hstep.
Qed.

(** The listener is called with every message and the decodings are done
    in the order of the calls: the buffer is in push order. *)
Lemma redis_handed_in_order (ms : list EventMessage) :
  forall done : list EventMessage,
  foldl RedisConsumer.handedStep (done, [], ms)
    (concat (map (fun _ => [RedisConsumer.Called; RedisConsumer.Decoded 0]) ms))
  = (done ++ ms, [], []).
Proof.
  induction ms as [|m ms IH]; intros done.
  - cbn. rewrite app_nil_r. reflexivity.
  - cbn. rewrite IH, <- app_assoc. reflexivity.
Qed.

(** X18.  What a live-tail consumer of a Redis queue receives, across
    handles, and in which order.  A consumer is suspended in
    [onDataReceive()] of a handle, with an empty buffer, its listener on
    the channel, at the end of the channel; that handle is not cancelled.
    Messages [ms], none of them a [__stream_cancel__] event, are pushed
    through any handle of the same channel (the consumer's or another
    process's).  Then, however the calls of the listener and the
    decodings they wait for follow each other, the consumer's [for await]
    receives the messages the handler has buffered, decoded, in the order
    in which their decodings were done, and the generator suspends again;
    the handler writes nothing to Redis and does not change the consumer's
    handle, whatever the [compressMessages] of either handle.  The
    messages received, those being decoded and those the listener has not
    been called with are, together, [ms]; when every call is followed by
    its decoding, all of [ms] is received in push order. *)
Theorem X18_redis_live_tail_yields_in_completion_order
    (qa qb : RedisStreamQueue.t) (s : Redis.t) (tl : Tail)
    (ms : list EventMessage) (evs : list RedisConsumer.HandlerStep) :
  (forall m, loadsTyped (dumpsTyped m) = Some m) ->
  Forall (fun m => is_cancel_event (event m) = false) ms ->
  RedisStreamQueue.channelKey qa = RedisStreamQueue.channelKey qb ->
  RedisStreamQueue.aborted qb = false ->
  suspendedWith [] [] tl ->
  RedisStreamQueue.subscribed qb s tl = true ->
  cursor tl
  = List.length (default [] (Redis.published s !! RedisStreamQueue.channelKey qb)) ->
  let st := redisPushAll ms qa s in
  let hs := RedisConsumer.handlerRun evs (qb, st.2, tl) in
  let done := (RedisConsumer.handed ms evs).1.1 in
  let waiting := (RedisConsumer.handed ms evs).1.2 in
  let incoming := (RedisConsumer.handed ms evs).2 in
  hs.1 = (qb, st.2)
  /\ (exists tl',
        RedisConsumer.pull (S (List.length done)) qb st.2 hs.2
        = (map Raw done, Some Pending, qb, st.2, tl')
        /\ suspendedWith [] waiting tl')
  /\ done ++ waiting ++ incoming ≡ₚ ms
  /\ RedisConsumer.handed ms
       (concat (map (fun _ => [RedisConsumer.Called; RedisConsumer.Decoded 0]) ms))
     = (ms, [], []).
Proof.
  intros Hrt Hnc Hck Hna Hsus Hsub Hcur st hs done waiting incoming.
  destruct (redisPushAll_published ms qa s) as (Hpub & Hs).
  fold st in Hpub, Hs. rewrite Hck in Hpub.
  assert (Hsub' : RedisStreamQueue.subscribed qb st.2 tl = true).
  { unfold RedisStreamQueue.subscribed, Redis.listening in *. rewrite Hs.
    exact Hsub. }
  assert (Hdrop : drop (cursor tl)
                    (default [] (Redis.published st.2
                                 !! RedisStreamQueue.channelKey qb))
                  = map encodeData ms).
  { rewrite Hpub, Hcur, drop_app_length. reflexivity. }
  destruct (redis_live_run qb st.2 evs Hrt [] [] ms tl Hnc Hsub' Hdrop Hsus)
    as (tl1 & Hrun & Hsus1).
  fold (RedisConsumer.handed ms evs) in Hsus1.
  fold done in Hsus1. fold waiting in Hsus1.
  subst hs. rewrite Hrun. cbn [fst snd].
  split; [reflexivity|]. split; [|split].
  - exact (redis_pull_suspended qb st.2 done waiting tl1 Hna Hsus1).
  - exact (redis_handed_pushed evs [] [] ms).
  - exact (redis_handed_in_order ms []).
Qed.
End RedisLiveTailOrder.

(** ** The properties above on concrete queues *)

Section Samples.
#[local] Existing Instance jsonSerializer.
#[local] Existing Instance systemCancel.

(** A consumer of a queue that encodes; three messages are pushed, the
    decoding of the second is done first, then that of the first, and the
    third still waits: the consumer receives the second, then the first. *)
Lemma X3_live_tail_yields_in_completion_order_witness :
  let s := MemorySystem.run [OnDataReceive; Next 0]
             (MemorySystem.init "run-1" true 300%Z) in
  let acts := [Push (token "Hi"); Push streamEnd; Push (token "more");
               HandleData 0 1; HandleData 0 0] in
  exists q' tl',
    MemoryConsumer.pull 3 0 (MemorySystem.q (MemorySystem.run acts s))
    = ([Raw streamEnd; Raw (token "Hi")], Some Pending, q')
    /\ MemoryStreamQueue.tails q' !! 0%nat = Some tl'
    /\ suspendedWith [] [token "more"] tl'.
Proof.
  intros s acts.
  destruct (X3_live_tail_yields_in_completion_order s 0
              (set_phase AtAwait (set_pendingResolve true newTail)) acts)
    as ((q' & tl' & Hpull & Hi' & Hsus') & _).
  - intros m. reflexivity.
  - apply (memory_reachable_inv "run-1"%string true 300%Z [OnDataReceive; Next 0]).
  - repeat constructor.
  - reflexivity.
  - reflexivity.
  - repeat split; reflexivity.
  - reflexivity.
  - exists q', tl'. split; [exact Hpull|]. split; [exact Hi'|exact Hsus'].
Defined.

(** Two consumers that have completed after a [cancel()]: no handler and
    no listener is left. *)
Lemma X5_handlers_match_running_generators_witness :
  let s := MemorySystem.run
             [OnDataReceive; Next 0; OnDataReceive; Next 1; Cancel; Next 0; Next 1]
             (MemorySystem.init "run-1" false 300%Z) in
  Forall (fun tl => phase tl = Finished) (MemorySystem.tails s)
  /\ MemoryStreamQueue.listeners (MemorySystem.q s) = O
  /\ MemoryStreamQueue.abortListeners (MemorySystem.q s) = O.
Proof.
  intros s.
  assert (Hfin : Forall (fun tl => phase tl = Finished) (MemorySystem.tails s))
    by (repeat constructor).
  split; [exact Hfin|].
  destruct (X5_handlers_match_running_generators "run-1"%string false 300%Z
              [OnDataReceive; Next 0; OnDataReceive; Next 1; Cancel; Next 0; Next 1])
    as (_ & _ & Hnone & _).
  exact (Hnone Hfin).
Defined.

(** Copies of a cancelled memory queue and of a cancelled Redis queue. *)
Lemma X13_copy_reads_like_its_source_witness :
  let mst := MemoryStreamQueue.cancel
               (MemoryStreamQueue.mk "run-1" true 300%Z 0 false [] [] [] []) [[]] in
  let rst := RedisStreamQueue.cancel (RedisStreamQueue.new "run-1" true 300%Z)
               Redis.empty in
  let mc := MemoryStreamQueue.copyToQueue "run-2" (Some 60%Z) mst.1 mst.2 in
  let rc := RedisStreamQueue.copyToQueue "run-2" (Some 60%Z) rst.1 rst.2 in
  MemoryStreamQueue.aborted mst.1 = true
  /\ MemoryStreamQueue.aborted mc.1 = false
  /\ MemoryStreamQueue.getAll mc.1 mc.2 = Ok [Raw CancelEventMessage]
  /\ RedisStreamQueue.aborted rc.1 = false
  /\ RedisStreamQueue.getAll rc.1 rc.2 = Ok [CancelEventMessage].
Proof.
  intros mst rst mc rc.
  assert (Hv : (MemoryStreamQueue.data mst.1 < List.length mst.2)%nat)
    by (cbn; lia).
  assert (Hfresh : Redis.lists rst.2 !! "queue:run-2"%string = None)
    by (vm_compute; reflexivity).
  pose proof (X13_copy_reads_like_its_source "run-2"%string (Some 60%Z)
                mst.1 mst.2 rst.1 rst.2 Hv Hfresh) as [Hm Hr].
  subst mc rc.
  destruct (MemoryStreamQueue.copyToQueue "run-2" (Some 60%Z) mst.1 mst.2)
    as [mcq mch].
  destruct (RedisStreamQueue.copyToQueue "run-2" (Some 60%Z) rst.1 rst.2)
    as [rcq rcs].
  destruct Hm as (Hmg & _ & _ & _ & _ & Hma & _).
  destruct Hr as (Hrg & _ & _ & _ & _ & Hra).
  cbn [fst snd].
  split; [reflexivity|]. split; [exact Hma|]. split; [rewrite Hmg; reflexivity|].
  split; [exact Hra|]. rewrite Hrg. vm_compute. reflexivity.
Defined.

(** A memory queue with one message, copied; the copy is cleared. *)
Lemma X14_memory_clear_separates_a_copy_witness :
  let st := MemoryStreamQueue.push (token "a")
              (MemoryStreamQueue.mk "run-1" false 300%Z 0 false [] [] [] []) [[]] in
  let c := MemoryStreamQueue.copyToQueue "run-2" None st.1 st.2 in
  let c' := MemoryStreamQueue.clear c.1 c.2 in
  MemoryStreamQueue.getAll c'.1 (MemoryStreamQueue.push (token "b") st.1 c'.2).2
  = Ok []
  /\ MemoryStreamQueue.getAll st.1 (MemoryStreamQueue.push (token "c") c'.1 c'.2).2
     = Ok [Raw (token "a")].
Proof.
  intros st c c'.
  assert (Hv : (MemoryStreamQueue.data st.1 < List.length st.2)%nat)
    by (cbn; lia).
  pose proof (X14_memory_clear_separates_a_copy "run-2"%string None st.1 st.2
                (token "b") (token "c") Hv) as Hx.
  subst c' c.
  destruct (MemoryStreamQueue.copyToQueue "run-2" None st.1 st.2) as [cq ch].
  cbn [fst snd]. destruct (MemoryStreamQueue.clear cq ch) as [cq' ch'].
  cbn [fst snd]. destruct Hx as (_ & _ & Hb & Hc).
  split; [exact Hb|]. rewrite Hc. reflexivity.
Defined.

(** Process A clears a queue that process B has not registered. *)
Lemma X15_redis_clearQueue_removes_the_queue_for_others_witness :
  let q := RedisStreamQueue.new "run-1" true 300%Z in
  let s := (RedisStreamQueue.push (token "Hi") q Redis.empty).2 in
  let ma : StreamQueueManager.t (Q := RedisStreamQueue.t) :=
    StreamQueueManager.mk {[ "run-1"%string := q ]} true [] in
  let mb : StreamQueueManager.t (Q := RedisStreamQueue.t) :=
    StreamQueueManager.new None in
  let r := StreamQueueManager.clearQueue "run-1" ma s in
  (exists handle mb', StreamQueueManager.getQueue "run-1" mb s = Ok (handle, mb', s))
  /\ StreamQueueManager.getQueue "run-1" mb r.2 = Err QueueNotFound
  /\ StreamQueueManager.getQueueData "run-1" r.1 r.2 = Ok [].
Proof.
  intros q s ma mb r. split.
  - eexists _, _. vm_compute. reflexivity.
  - pose proof (X15_redis_clearQueue_removes_the_queue_for_others "run-1"%string
                  streamEnd ma mb s q (lookup_singleton_eq _ _) eq_refl eq_refl
                  (lookup_empty _)) as Hx.
    subst r. destruct (StreamQueueManager.clearQueue "run-1" ma s) as [ma' s'].
    destruct Hx as (Hdata & Hget & _). split; [exact Hget|exact Hdata].
Defined.

(** Two handles for ["run-1"]; the second has a suspended consumer. *)
Lemma X16_redis_cancel_is_an_item_for_other_process_witness :
  let qa := RedisStreamQueue.new "run-1" true 300%Z in
  let qb := RedisStreamQueue.new "run-1" true 300%Z in
  let started := RedisStreamQueue.onDataReceive_next qb Redis.empty newTail in
  let r1 := RedisStreamQueue.cancel qa started.1.2 in
  let tl1 := RedisStreamQueue.deliver started.1.1.2 r1.2 started.2 in
  let r2 := RedisStreamQueue.handleMessage 0 started.1.1.2 r1.2 tl1 in
  started.1.1.1 = Pending
  /\ RedisStreamQueue.aborted r1.1 = true
  /\ RedisStreamQueue.aborted r2.1.1 = false
  /\ (RedisStreamQueue.onDataReceive_next r2.1.1 r2.1.2 r2.2).1.1.1
     = Yielded (Raw CancelEventMessage)
  /\ Redis.lRange_all "queue:run-1" r2.1.2 = [encodeData CancelEventMessage].
Proof.
  intros qa qb started r1 tl1 r2.
  split; [vm_compute; reflexivity|].
  assert (Hsub : RedisStreamQueue.subscribed started.1.1.2 started.1.2 started.2
                 = true)
    by (vm_compute; reflexivity).
  assert (Hcur : cursor started.2
                 = List.length (default [] (Redis.published started.1.2
                      !! RedisStreamQueue.channelKey started.1.1.2)))
    by (vm_compute; reflexivity).
  pose proof (X16_redis_cancel_is_an_item_for_other_process qa started.1.1.2
                started.1.2 started.2 eq_refl eq_refl eq_refl eq_refl eq_refl
                eq_refl eq_refl eq_refl Hsub Hcur) as Hx.
  subst r2 tl1 r1. destruct (RedisStreamQueue.cancel qa started.1.2) as [qa' s1].
  cbn [fst snd] in *.
  destruct (RedisStreamQueue.handleMessage 0 started.1.1.2 s1
              (RedisStreamQueue.deliver started.1.1.2 s1 started.2))
    as [[qb' s2] tl'].
  destruct Hx as (Ha & _ & _ & Hnb & _ & Hy & Hlog). cbn [fst snd].
  split; [exact Ha|]. split; [exact Hnb|]. split; [exact Hy|].
  etransitivity; [exact Hlog|]. vm_compute. reflexivity.
Defined.

(** Two consumers of ["run-1"]; the first one's stream ends, then a
    token is pushed. *)
Lemma X17_redis_finished_consumer_unsubscribes_the_others_witness :
  let q := RedisStreamQueue.new "run-1" true 300%Z in
  let a := RedisStreamQueue.onDataReceive_next q Redis.empty newTail in
  let b := RedisStreamQueue.onDataReceive_next a.1.1.2 a.1.2 newTail in
  let p := RedisStreamQueue.push streamEnd b.1.1.2 b.1.2 in
  let h := RedisStreamQueue.handleMessage 0 p.1 p.2
             (RedisStreamQueue.deliver p.1 p.2 a.2) in
  let tlA := onTimeout h.2 in
  let r := RedisStreamQueue.onDataReceive_next h.1.1 h.1.2 tlA in
  let s2 := (redisPushAll [token "late"] r.1.1.2 r.1.2).2 in
  RedisStreamQueue.subscribed h.1.1 h.1.2 b.2 = true
  /\ r.1.1.1 = Returned
  /\ RedisStreamQueue.deliver h.1.1 s2 b.2 = b.2
  /\ RedisStreamQueue.onDataReceive_next h.1.1 s2 b.2 = (Pending, h.1.1, s2, b.2).
Proof.
  intros q a b p h tlA r s2.
  split; [vm_compute; reflexivity|].
  pose proof (X17_redis_finished_consumer_unsubscribes_the_others
                h.1.1 h.1.1 h.1.2 tlA b.2 [token "late"] eq_refl) as Hx.
  assert (Hph : phase tlA = AtAwait) by (vm_compute; reflexivity).
  assert (Hpr : pendingResolve tlA = false) by (vm_compute; reflexivity).
  assert (Hend : isStreamEnded tlA = true \/ RedisStreamQueue.aborted h.1.1 = true)
    by (left; vm_compute; reflexivity).
  specialize (Hx Hph Hpr Hend).
  subst s2 r.
  destruct (RedisStreamQueue.onDataReceive_next h.1.1 h.1.2 tlA)
    as [[[r q1] s1] tlA'].
  cbn [fst snd] in *. destruct Hx as (Hr & _ & Hd & _ & Hn).
  split; [exact Hr|]. split; [exact Hd|].
  apply Hn; vm_compute; reflexivity.
Defined.

(** A consumer on one handle of ["run-1"]; another handle, created with
    [compressMessages] false, pushes two tokens around a [__stream_end__];
    the decoding of the [__stream_end__] is done before that of the first
    token. *)
Lemma X18_redis_live_tail_yields_in_completion_order_witness :
  let ms := [token "Hi"; streamEnd; token "more"] in
  let evs := [RedisConsumer.Called; RedisConsumer.Called; RedisConsumer.Decoded 1;
              RedisConsumer.Called; RedisConsumer.Decoded 0;
              RedisConsumer.Decoded 0] in
  let qa := RedisStreamQueue.new "run-1" false 300%Z in
  let a := RedisStreamQueue.onDataReceive_next
             (RedisStreamQueue.new "run-1" true 300%Z) Redis.empty newTail in
  let st := redisPushAll ms qa a.1.2 in
  let hs := RedisConsumer.handlerRun evs (a.1.1.2, st.2, a.2) in
  a.1.1.1 = Pending
  /\ (RedisConsumer.pull 4 a.1.1.2 st.2 hs.2).1.1.1.1
     = [Raw streamEnd; Raw (token "Hi"); Raw (token "more")]
  /\ (RedisConsumer.pull 4 a.1.1.2 st.2 hs.2).1.1.1.2 = Some Pending.
Proof.
  intros ms evs qa a st hs. split; [vm_compute; reflexivity|].
  destruct (X18_redis_live_tail_yields_in_completion_order qa a.1.1.2 a.1.2 a.2
              ms evs)
    as (_ & (tl' & Hpull & _) & _).
  - intros m. reflexivity.
  - repeat constructor.
  - reflexivity.
  - reflexivity.
  - repeat split; reflexivity.
  - vm_compute. reflexivity.
  - vm_compute. reflexivity.
  - split; [exact (f_equal (fun r => r.1.1.1.1) Hpull)
           |exact (f_equal (fun r => r.1.1.1.2) Hpull)].
Defined.
End Samples.
